(** * debug-mcp-go-wrapper: the restart-coordination core

    A shallow embedding of [internal/proxy/buffer.go],
    [internal/proxy/proxy.go] and [cmd/debug-mcp-wrapper/main.go],
    together with the properties of the replay buffer and of the
    supervisor that the design document states, and with further
    properties read off the code.

    Go values are modelled as the code has them: a [[]byte] is a view
    (array, offset, length, capacity) into a store of byte arrays, so that
    aliasing between the reader's scratch array and the buffered messages
    is visible; a run-time panic is an explicit outcome. *)

From Stdlib Require Import ZArith.
From Stdlib.Strings Require Import Byte.
From stdpp Require Import base tactics option list strings.

Set Default Proof Using "Type".
Open Scope Z_scope.

(** ** The pieces of the Go run time that the code relies on *)

Module Go.

(** Run-time panics that the modelled code can raise: a slice
    expression out of range, [make] with a capacity out of range, and
    [time.NewTicker] with an interval that is not positive. *)
Inductive panic :=
| SliceBoundsOutOfRange (low high : Z)
| MakesliceCapOutOfRange
| NonPositiveTickerInterval.

(** The result of a call that may panic. *)
Inductive outcome (A : Type) :=
| Ok (a : A)
| Panic (p : panic).
Arguments Ok {A} a.
Arguments Panic {A} p.

Definition bind {A B} (m : outcome A) (k : A -> outcome B) : outcome B :=
  match m with
  | Ok a => k a
  | Panic p => Panic p
  end.

(** The store of byte arrays; [make] allocates at the end. *)
Abbreviation heap := (list (list byte)).

(** A [[]byte] value: the array it views, where it starts, its length,
    and how far its capacity extends beyond its length. *)
Record bytes := mkBytes {
  s_arr : nat;
  s_off : nat;
  s_len : nat;
  s_extra : nat
}.

Definition s_cap (s : bytes) : nat := (s_len s + s_extra s)%nat.

(** The bytes a slice denotes in a given store. *)
Definition read (h : heap) (s : bytes) : list byte :=
  take (s_len s) (drop (s_off s) (default [] (h !! s_arr s))).

(** [make([]byte, n)]: a fresh zeroed array of length [n]. *)
Definition make_bytes (n : nat) (h : heap) : bytes * heap :=
  (mkBytes (length h) 0 n 0, h ++ [replicate n x00]).

(** Storing [data] through the slice [dst]: at most [len(dst)] bytes
    are written, starting at the slice's offset in its array. This is
    what [Read(dst)] on a reader does with the bytes it delivers. *)
Definition poke (dst : bytes) (data : list byte) (h : heap) : nat * heap :=
  let k := Nat.min (s_len dst) (length data) in
  let old := default [] (h !! s_arr dst) in
  (k, <[s_arr dst := take (s_off dst) old ++ take k data
                      ++ drop (s_off dst + k) old]> h).

(** [copy(dst, src)]: copies [min(len(dst), len(src))] elements. *)
Definition copy (dst src : bytes) (h : heap) : nat * heap :=
  poke dst (read h src) h.

(** [s[:n]] on a byte slice; the high bound must not exceed the
    capacity. *)
Definition slice_to (s : bytes) (n : nat) : outcome bytes :=
  if (n <=? s_cap s)%nat then Ok (mkBytes (s_arr s) (s_off s) n (s_cap s - n))
  else Panic (SliceBoundsOutOfRange (Z.of_nat n) (Z.of_nat (s_cap s))).

(** A slice is well formed in a store when it lies inside an allocated
    array. Every slice a Go program holds is. *)
Definition validb (h : heap) (s : bytes) : bool :=
  match h !! s_arr s with
  | Some a => (s_off s + s_len s <=? length a)%nat
  | None => false
  end.

(** The largest allocation that the run time accepts, in bytes
    ([runtime.maxAlloc]: 2^48 where [int] has 64 bits), and the size
    of a slice header, which is the element of a [[][]byte]. *)
Definition maxAlloc : Z := 2 ^ 48.
Definition slice_header_size : Z := 24.

(** [make([]T, 0, size)] for elements of [elem_size] bytes:
    [runtime.makeslice] panics when the capacity is negative or when
    the memory it asks for exceeds [maxAlloc]. (A capacity that passes
    this test and that the machine has no memory for ends the process
    with a fatal error; that is not modelled, here as elsewhere.) *)
Definition make_slice {A} (elem_size : Z) (size : Z) : outcome (list A) :=
  if (size <? 0) || (maxAlloc <? elem_size * size)
  then Panic MakesliceCapOutOfRange else Ok [].

(** [time.NewTicker(d)] panics when [d] is not positive. *)
Definition NewTicker (d : Z) : outcome unit :=
  if d <=? 0 then Panic NonPositiveTickerInterval else Ok tt.

(** [s[low:]]: the low bound must not exceed [len(s)]. *)
Definition slice_from {A} (low : nat) (s : list A) : outcome (list A) :=
  if (low <=? length s)%nat then Ok (drop low s)
  else Panic (SliceBoundsOutOfRange (Z.of_nat low) (Z.of_nat (length s))).

(** [s[:0]]: always in range. *)
Definition slice_to_zero {A} (s : list A) : list A := take 0 s.

(** Go's [error] values, as far as the code tells them apart: [io.EOF],
    and [fmt.Errorf("prefix: %w", err)], which wraps an error. *)
Inductive error :=
| EOF
| Err (msg : string)
| Wrap (prefix : string) (inner : error).

(** [io.Writer]: a writer value of type [W] acting on a world [S]. The
    byte count that [Write] also returns is dropped at both call sites
    of the code ([_, err := ...]), so only the error is kept. *)
Class Writer (W S : Type) := Write : W -> list byte -> S -> S * option error.

End Go.

Import Go.

(** ** buffer.go *)

(** [MessageBuffer]. The mutex makes every method atomic with respect to
    the others; each method below is one atomic state transformer.
    [messages] is only ever reachable through the buffer, so its own
    backing array is not shared and a list of byte slices models it. *)
Record MessageBuffer := mkMessageBuffer {
  messages : list bytes;
  maxSize : Z
}.

Definition NewMessageBuffer (size : Z) : outcome MessageBuffer :=
  bind (make_slice slice_header_size size) (fun ms =>
  Ok {| messages := ms; maxSize := size |}).

Definition Add (message : bytes) (b : MessageBuffer) (h : heap)
  : outcome (MessageBuffer * heap) :=
  bind (if Z.of_nat (length (messages b)) >=? maxSize b
        then slice_from 1 (messages b)
        else Ok (messages b)) (fun ms =>
  let '(msgCopy, h1) := make_bytes (s_len message) h in
  let '(_, h2) := copy msgCopy message h1 in
  Ok ({| messages := ms ++ [msgCopy]; maxSize := maxSize b |}, h2)).

(** The loop of [Replay]: stop at the first failing write. *)
Fixpoint write_all {W S} `{Writer W S} (w : W) (msgs : list (list byte)) (s : S)
  : S * option error :=
  match msgs with
  | [] => (s, None)
  | msg :: rest =>
      match Write w msg s with
      | (s', Some err) => (s', Some err)
      | (s', None) => write_all w rest s'
      end
  end.

Definition Replay {W S} `{Writer W S} (writer : W) (b : MessageBuffer) (h : heap) (s : S)
  : MessageBuffer * S * option error :=
  match write_all writer (map (read h) (messages b)) s with
  | (s', Some err) => (b, s', Some err)
  | (s', None) =>
      ({| messages := slice_to_zero (messages b); maxSize := maxSize b |}, s', None)
  end.

Definition Len (b : MessageBuffer) : Z := Z.of_nat (length (messages b)).

Definition Clear (b : MessageBuffer) : MessageBuffer :=
  {| messages := slice_to_zero (messages b); maxSize := maxSize b |}.

(** What the buffer holds, as byte strings, oldest first. *)
Definition contents (b : MessageBuffer) (h : heap) : list (list byte) :=
  map (read h) (messages b).

(** A client of the buffer: it overwrites memory of its own and calls
    [Add], in any order. [run] also returns the chunks that were passed
    to [Add], as they were at the time of each call. *)
Inductive call :=
| CallerWrites (dst : bytes) (data : list byte)
| CallAdd (message : bytes).

Fixpoint run (cs : list call) (b : MessageBuffer) (h : heap)
  : outcome (MessageBuffer * heap * list (list byte)) :=
  match cs with
  | [] => Ok (b, h, [])
  | CallerWrites dst data :: rest => run rest b (poke dst data h).2
  | CallAdd message :: rest =>
      bind (Add message b h) (fun '(b1, h1) =>
      bind (run rest b1 h1) (fun '(b2, h2, added) =>
      Ok (b2, h2, read h message :: added)))
  end.

(** The client's slices all live in arrays that exist before the run. *)
Definition call_ok (h : heap) (c : call) : bool :=
  match c with
  | CallerWrites dst _ => validb h dst
  | CallAdd message => validb h message
  end.

(** A sink that records what is written to it, like [bytes.Buffer]. *)
Inductive Recorder := TheRecorder.
#[export] Instance Recorder_Writer : Writer Recorder (list byte) :=
  fun _ p s => (s ++ p, None).

(** A sink that accepts [n] writes and fails from then on; its world is
    the number of writes attempted and the bytes accepted. *)
Inductive FailAfter := FailAfterN (n : nat).
#[export] Instance FailAfter_Writer : Writer FailAfter (nat * list byte) :=
  fun w p s =>
    match w with
    | FailAfterN n =>
        if (s.1 <? n)%nat then ((S s.1, s.2 ++ p), None)
        else ((S s.1, s.2), Some (Err "write failed"))
    end.

(** The world of a sink after each chunk of [msgs] has been written to
    it in turn. *)
Definition feed {W S} `{Writer W S} (w : W) (msgs : list (list byte)) (s : S) : S :=
  foldl (fun s m => (Write w m s).1) s msgs.

(** ** proxy.go *)

(** The lines [log.Printf] writes, one constructor per format string. *)
Inductive logline :=
| LogStartingPHP
| LogRestartTimer
| LogFailedRestart (err : error)
| LogShuttingDown
| LogBuffering
| LogErrorStopping (err : error)
| LogReplaying (n : Z)
| LogErrorWritingStdin (err : error)
| LogErrorReadingStdin (err : error)
| LogDiedUnexpectedly (err : error)
| LogAttemptingRestart.

Inductive goroutine := GoMonitorProcess | GoProxyStdio | GoProxyStdin | GoProxyStdout.

(** What the supervisor does to the outside world. *)
Inductive event :=
| EvLog (l : logline)
| EvNewProcess (h : nat)
| EvStart (h : nat) (dir bin : string) (res : option error)
| EvStop (h : nat) (res : option error)
| EvWait (h : nat) (res : option error)
| EvStdinWrite (h : nat) (data : list byte) (res : option error)
| EvGo (g : goroutine)
| EvNewTicker (d : Z)
| EvTickerStop
| EvSleep (d : Z).

(** An event together with the value [p.restarting] had when it
    happened. *)
Record obs := mkObs { what : event; flag : bool }.

(** [process.go] is not part of the sources at hand. A [*PHPProcess] is a
    handle (a number, fresh for each [NewPHPProcess()]); what [Start],
    [Stop] and a write to [Stdin()] answer is left to the environment,
    which may depend on everything that happened before. *)
Record Env := mkEnv {
  start_result : list obs -> nat -> string -> string -> option error;
  stop_result : list obs -> nat -> option error;
  write_result : list obs -> nat -> list byte -> option error
}.

Record Proxy := mkProxy {
  process : nat;
  buffer : MessageBuffer;
  restarting : bool;
  workingDir : string;
  phpBinary : string;
  restartInterval : Z
}.

(** What the other goroutines do, one loop iteration at a time: the
    outcome of [reader.Read(buf)] in [proxyStdin], the outcome of
    [p.process.Wait()] in [monitorProcess], and the cancellation of the
    context. An iteration is one step of the schedule, placed where its
    [Read] or [Wait] returns: its test of the context, its test of
    [p.restarting] and what it does then run there in one piece. The
    code takes no lock around them, so it also has runs in which the
    main goroutine steps in between; those are not among the schedules
    of this model, and a statement over all schedules speaks of whole
    iterations. *)
Inductive action :=
| StdinRead (data : list byte) (err : option error)
| WorkerExit (err : option error)
| Cancel.

(** The whole program state: the [Proxy] struct, the byte store, the
    handle allocator, the events so far, the goroutines that are running
    ([stdin_loop] holds the [buf] local to [proxyStdin]), the context, and
    the schedule: the batches of other goroutines' iterations that run at
    the successive preemption points of the main goroutine. *)
Record State := mkState {
  proxy : Proxy;
  store : heap;
  next_handle : nat;
  trace : list obs;
  stdin_loop : option bytes;
  monitor_loop : bool;
  ctx_done : bool;
  pending : list (list action)
}.

Definition set_proxy (f : Proxy -> Proxy) (s : State) : State :=
  mkState (f (proxy s)) (store s) (next_handle s) (trace s)
          (stdin_loop s) (monitor_loop s) (ctx_done s) (pending s).
Definition set_store (h : heap) (s : State) : State :=
  mkState (proxy s) h (next_handle s) (trace s)
          (stdin_loop s) (monitor_loop s) (ctx_done s) (pending s).
Definition set_next_handle (n : nat) (s : State) : State :=
  mkState (proxy s) (store s) n (trace s)
          (stdin_loop s) (monitor_loop s) (ctx_done s) (pending s).
Definition set_trace (t : list obs) (s : State) : State :=
  mkState (proxy s) (store s) (next_handle s) t
          (stdin_loop s) (monitor_loop s) (ctx_done s) (pending s).
Definition set_stdin_loop (l : option bytes) (s : State) : State :=
  mkState (proxy s) (store s) (next_handle s) (trace s)
          l (monitor_loop s) (ctx_done s) (pending s).
Definition set_monitor_loop (l : bool) (s : State) : State :=
  mkState (proxy s) (store s) (next_handle s) (trace s)
          (stdin_loop s) l (ctx_done s) (pending s).
Definition set_ctx_done (d : bool) (s : State) : State :=
  mkState (proxy s) (store s) (next_handle s) (trace s)
          (stdin_loop s) (monitor_loop s) d (pending s).
Definition set_pending (p : list (list action)) (s : State) : State :=
  mkState (proxy s) (store s) (next_handle s) (trace s)
          (stdin_loop s) (monitor_loop s) (ctx_done s) p.

Definition set_process (h : nat) (p : Proxy) : Proxy :=
  mkProxy h (buffer p) (restarting p) (workingDir p) (phpBinary p) (restartInterval p).
Definition set_buffer (b : MessageBuffer) (p : Proxy) : Proxy :=
  mkProxy (process p) b (restarting p) (workingDir p) (phpBinary p) (restartInterval p).
Definition set_restarting (r : bool) (p : Proxy) : Proxy :=
  mkProxy (process p) (buffer p) r (workingDir p) (phpBinary p) (restartInterval p).

(** Code that reads and writes the program state and may panic. A panic
    is never recovered in this program: it ends the process, so it
    carries no state. *)
Definition M (A : Type) : Type := State -> outcome (A * State).

Definition ret {A} (a : A) : M A := fun s => Ok (a, s).
Definition bindM {A B} (m : M A) (k : A -> M B) : M B := fun s =>
  match m s with
  | Ok (a, s') => k a s'
  | Panic p => Panic p
  end.

Declare Scope M_scope.
Delimit Scope M_scope with M.
Bind Scope M_scope with M.
Notation "x ← y ; z" := (bindM y (fun x => z))
  (at level 20, y at level 100, z at level 200, only parsing) : M_scope.
Notation "x ;; z" := (bindM x (fun _ => z))
  (at level 100, z at level 200, only parsing, right associativity) : M_scope.
Open Scope M_scope.

Definition get {A} (f : State -> A) : M A := fun s => Ok (f s, s).
Definition modify (f : State -> State) : M unit := fun s => Ok (tt, f s).
Definition lift {A} (o : outcome A) : M A :=
  fun s => match o with Ok a => Ok (a, s) | Panic p => Panic p end.

Definition emit (e : event) : M unit :=
  fun s => Ok (tt, set_trace (trace s ++ [mkObs e (restarting (proxy s))]) s).
Definition logf (l : logline) : M unit := emit (EvLog l).

(** [defer cleanup] around [body]: the cleanup runs when the body
    returns. *)
Definition defer {A} (cleanup : M unit) (body : M A) : M A :=
  a ← body; cleanup;; ret a.

(** [NewPHPProcess()]: a handle never seen before. *)
Definition NewPHPProcess : M nat :=
  h ← get next_handle;
  modify (set_next_handle (S h));;
  emit (EvNewProcess h);;
  ret h.

(** The input pipe of a worker, [p.process.Stdin()], as an [io.Writer]. *)
Record StdinPipe := Stdin { pipe_env : Env; pipe_of : nat }.
#[export] Instance StdinPipe_Writer : Writer StdinPipe State :=
  fun w p s =>
    let r := write_result (pipe_env w) (trace s) (pipe_of w) p in
    (set_trace (trace s ++ [mkObs (EvStdinWrite (pipe_of w) p r) (restarting (proxy s))]) s, r).

(** The methods of [p.buffer], on the buffer inside the state. *)
Definition buffer_Add (message : bytes) : M unit :=
  fun s =>
    match Add message (buffer (proxy s)) (store s) with
    | Ok (b, h) => Ok (tt, set_store h (set_proxy (set_buffer b) s))
    | Panic p => Panic p
    end.

Definition buffer_Len : M Z := get (fun s => Len (buffer (proxy s))).

Definition buffer_Replay (writer : StdinPipe) : M (option error) :=
  fun s =>
    let '(b, s', e) := Replay writer (buffer (proxy s)) (store s) s in
    Ok (e, set_proxy (set_buffer b) s').

(** [reader.Read(buf)], [make([]byte, n)] and [w.Write(chunk)] on the
    program state. *)
Definition Read_into (buf : bytes) (data : list byte) : M nat :=
  fun s => let '(n, h) := poke buf data (store s) in Ok (n, set_store h s).

Definition make_buf (n : nat) : M bytes :=
  fun s => let '(b, h) := make_bytes n (store s) in Ok (b, set_store h s).

Definition pipe_Write (w : StdinPipe) (chunk : list byte) : M (option error) :=
  fun s => let '(s', e) := Write w chunk s in Ok (e, s').

Definition second : Z := 1000000000.

Section Supervisor.

Context (env : Env).

(** [p.process.Start], [p.process.Stop]: answered by the environment. *)
Definition Start (h : nat) (dir bin : string) : M (option error) :=
  r ← get (fun s => start_result env (trace s) h dir bin);
  emit (EvStart h dir bin r);;
  ret r.

Definition Stop (h : nat) : M (option error) :=
  r ← get (fun s => stop_result env (trace s) h);
  emit (EvStop h r);;
  ret r.

Definition startPHP : M (option error) :=
  logf LogStartingPHP;;
  p ← get proxy;
  Start (process p) (workingDir p) (phpBinary p).

Definition stopPHP : M (option error) :=
  p ← get proxy;
  Stop (process p).

(** One pass through the [default:] branch of [proxyStdin], given what
    [reader.Read(buf)] delivers; the result tells whether the loop goes
    on. *)
Definition proxyStdin_body (buf : bytes) (data : list byte) (rerr : option error)
  : M bool :=
  n ← Read_into buf data;
  go_on ← (if (0 <? n)%nat then
             message ← lift (slice_to buf n);
             r ← get (fun s => restarting (proxy s));
             if r then
               buffer_Add message;;
               ret true
             else
               w ← get (fun s => Stdin env (process (proxy s)));
               chunk ← get (fun s => read (store s) message);
               e ← pipe_Write w chunk;
               match e with
               | Some err => logf (LogErrorWritingStdin err);; ret false
               | None => ret true
               end
           else ret true);
  if go_on then
    match rerr with
    | Some EOF => ret false
    | Some err => logf (LogErrorReadingStdin err);; ret false
    | None => ret true
    end
  else ret false.

(** One pass through the [default:] branch of [monitorProcess], given
    what [p.process.Wait()] returns. *)
Definition monitorProcess_body (werr : option error) : M unit :=
  h ← get (fun s => process (proxy s));
  emit (EvWait h werr);;
  r ← get (fun s => restarting (proxy s));
  match werr with
  | Some err =>
      if negb r then
        logf (LogDiedUnexpectedly err);;
        logf LogAttemptingRestart;;
        h' ← NewPHPProcess;
        modify (set_proxy (set_process h'));;
        e ← startPHP;
        match e with
        | Some err' => logf (LogFailedRestart err');; emit (EvSleep second)
        | None => ret tt
        end
      else ret tt
  | None => ret tt
  end.

(** One iteration of another goroutine's [for { select { ... } }]: a
    goroutine that was not started or has returned does nothing; one
    that finds the context cancelled returns. *)
Definition act (a : action) : M unit :=
  match a with
  | Cancel => modify (set_ctx_done true)
  | StdinRead data rerr =>
      l ← get stdin_loop;
      match l with
      | None => ret tt
      | Some buf =>
          d ← get ctx_done;
          if d then modify (set_stdin_loop None)
          else
            go_on ← proxyStdin_body buf data rerr;
            if go_on then ret tt else modify (set_stdin_loop None)
      end
  | WorkerExit werr =>
      l ← get monitor_loop;
      if l then
        d ← get ctx_done;
        if d then modify (set_monitor_loop false)
        else monitorProcess_body werr
      else ret tt
  end.

Fixpoint acts (l : list action) : M unit :=
  match l with
  | [] => ret tt
  | a :: rest => act a;; acts rest
  end.

(** A preemption point of the main goroutine: the next batch of the
    schedule runs. *)
Definition yield : M unit :=
  p ← get pending;
  match p with
  | [] => ret tt
  | batch :: rest => modify (set_pending rest);; acts batch
  end.

Definition restartPHP : M (option error) :=
  modify (set_proxy (set_restarting true));;
  defer (modify (set_proxy (set_restarting false))) (
    logf LogBuffering;;
    yield;;
    e ← stopPHP;
    match e with
    | Some err => logf (LogErrorStopping err)
    | None => ret tt
    end;;
    yield;;
    h ← NewPHPProcess;
    modify (set_proxy (set_process h));;
    yield;;
    e ← startPHP;
    match e with
    | Some err =>
        yield;;
        ret (Some (Wrap "failed to start new PHP process" err))
    | None =>
        yield;;
        bufferLen ← buffer_Len;
        if 0 <? bufferLen then
          logf (LogReplaying bufferLen);;
          yield;;
          w ← get (fun s => Stdin env (process (proxy s)));
          e ← buffer_Replay w;
          match e with
          | Some err =>
              yield;;
              ret (Some (Wrap "failed to replay messages" err))
          | None => yield;; ret None
          end
        else yield;; ret None
    end).

(** [go p.proxyStdio(ctx)]: starts [proxyStdin] (whose [buf] is
    allocated here) and [proxyStdout]. *)
Definition proxyStdio : M unit :=
  emit (EvGo GoProxyStdin);;
  buf ← make_buf 4096;
  modify (set_stdin_loop (Some buf));;
  emit (EvGo GoProxyStdout).

(** What the [select] of the main loop picks each time it wakes up. *)
Inductive select_case := TickerC | CtxDone.

(** The body of [case <-ticker.C:]. *)
Definition on_tick : M unit :=
  logf LogRestartTimer;;
  e ← restartPHP;
  match e with
  | Some err => logf (LogFailedRestart err)
  | None => ret tt
  end.

(** The body of [case <-ctx.Done():]; the result of [stopPHP] is
    dropped. *)
Definition on_done : M (option error) :=
  logf LogShuttingDown;;
  stopPHP;;
  ret None.

(** The main loop of [Run]. The other goroutines run while it waits
    in [select] and at the preemption points of [restartPHP]. [None]
    means that the loop is still blocked in [select] when the given
    wake-ups are used up. *)
Fixpoint main_loop (wakeups : list select_case) : M (option (option error)) :=
  match wakeups with
  | [] => ret None
  | TickerC :: rest =>
      yield;;
      on_tick;;
      main_loop rest
  | CtxDone :: _ =>
      yield;;
      modify (set_ctx_done true);;
      r ← on_done;
      ret (Some r)
  end.

Definition Run (wakeups : list select_case) : M (option (option error)) :=
  e ← startPHP;
  match e with
  | Some err => ret (Some (Some (Wrap "failed to start PHP process" err)))
  | None =>
      d ← get (fun s => restartInterval (proxy s));
      lift (NewTicker d);;
      emit (EvNewTicker d);;
      defer (emit EvTickerStop) (
        emit (EvGo GoMonitorProcess);;
        modify (set_monitor_loop true);;
        emit (EvGo GoProxyStdio);;
        proxyStdio;;
        main_loop wakeups)
  end.

End Supervisor.

(** [NewProxy]: the state of a program that has just built its proxy. *)
Definition NewProxy (workingDir phpBinary : string) (restartInterval : Z)
    (bufferSize : Z) (schedule : list (list action)) : outcome State :=
  bind (NewMessageBuffer bufferSize) (fun b =>
  Ok (mkState (mkProxy 0 b false workingDir phpBinary restartInterval)
              [] 1 [mkObs (EvNewProcess 0) false] None false false schedule)).

(** ** Vocabulary of the statements *)

(** The last [n] elements of a list. *)
Definition lastn {A} (n : nat) (l : list A) : list A := drop (length l - n) l.

(** Every slice the buffer holds is well formed and lives in an array
    numbered [lim] or higher (the arrays below [lim] are the client's). *)
Definition buffer_ok (lim : nat) (b : MessageBuffer) (h : heap) : bool :=
  forallb (fun m => (lim <=? s_arr m)%nat && validb h m) (messages b).

(** A buffer of capacity [C], fed by the calls [cs] from store [h0], ends
    up holding the last [C] chunks that were added, oldest first. *)
Definition retains_last (C : Z) (cs : list call) (h0 : heap) : Prop :=
  exists b0 b h added,
    NewMessageBuffer C = Ok b0
    /\ run cs b0 h0 = Ok (b, h, added)
    /\ contents b h = lastn (Z.to_nat C) added
    /\ Len b <= C.

(** The first [Add] on a buffer made with the given size panics. *)
Definition panics_on_first_add (size : Z) : Prop :=
  exists b, NewMessageBuffer size = Ok b
    /\ forall message h, Add message b h = Panic (SliceBoundsOutOfRange 1 0).

(** The example of the design document: capacity 3 and the chunks "a",
    "b", "c", "d", each handed over in the same one-byte array. *)
Definition one_byte : bytes := mkBytes 0 0 1 0.
Definition abcd : list call :=
  [CallerWrites one_byte ["a"%byte]; CallAdd one_byte;
   CallerWrites one_byte ["b"%byte]; CallAdd one_byte;
   CallerWrites one_byte ["c"%byte]; CallAdd one_byte;
   CallerWrites one_byte ["d"%byte]; CallAdd one_byte].

(** The buffer holds a slice of array [a]. *)
Definition owns (b : MessageBuffer) (a : nat) : bool :=
  existsb (fun m => (s_arr m =? a)%nat) (messages b).

(** A series of stores through slices, in order. *)
Definition overwrite (ws : list (bytes * list byte)) (h : heap) : heap :=
  foldl (fun h w => (poke w.1 w.2 h).2) h ws.

(** The steps of a restart cycle that act on a worker: stopping it (and
    logging that the stop failed), allocating a handle, starting it,
    writing to its input pipe. *)
Definition is_cycle_step (e : event) : bool :=
  match e with
  | EvStop _ _ | EvNewProcess _ | EvStart _ _ _ _ | EvStdinWrite _ _ _ => true
  | EvLog (LogErrorStopping _) => true
  | _ => false
  end.

Definition cycle_steps (t : list obs) : list event :=
  List.filter is_cycle_step (map what t).

(** The log line that [restartPHP] writes when the stop fails. *)
Definition stop_log (r : option error) : list event :=
  match r with
  | Some err => [EvLog (LogErrorStopping err)]
  | None => []
  end.

(** A computation started in [s] either ends in a result and a state
    that satisfy [Q], or panics, which [X] must account for. *)
Definition wp {A} (X : Prop) (m : M A) (s : State) (Q : A -> State -> Prop) : Prop :=
  match m s with
  | Ok (a, s') => Q a s'
  | Panic _ => X
  end.

(** The chunks that the input pipe of worker [h] has accepted. *)
Definition sink (h : nat) (t : list obs) : list (list byte) :=
  omap (fun o => match what o with
                 | EvStdinWrite h' data None => if (h' =? h)%nat then Some data else None
                 | _ => None
                 end) t.

(** While a restart is in progress the other goroutines leave the
    worker alone: from [s] to [s'] only the buffer, the store, the
    goroutine bookkeeping and the schedule may change, and every event
    that was added happened with the flag set and is not a step of the
    cycle. *)
Record quiet (s s' : State) : Prop := mkQuiet {
  q_process : process (proxy s') = process (proxy s);
  q_restarting : restarting (proxy s') = restarting (proxy s);
  q_dir : workingDir (proxy s') = workingDir (proxy s);
  q_bin : phpBinary (proxy s') = phpBinary (proxy s);
  q_maxSize : maxSize (buffer (proxy s')) = maxSize (buffer (proxy s));
  q_next : next_handle s' = next_handle s;
  q_trace : exists evs,
      trace s' = trace s ++ evs
      /\ Forall (fun o => flag o = true /\ is_cycle_step (what o) = false) evs
}.

(** The write events of a [Replay] of the chunks [msgs] into the pipe of
    worker [h] that ends with [e]: every chunk in order when it
    succeeds, the chunks up to and including the refused one when it
    fails. *)
Definition replay_events (h : nat) (msgs : list (list byte)) (e : option error)
    (ws : list event) : Prop :=
  match e with
  | None => ws = map (fun d => EvStdinWrite h d None) msgs
  | Some err =>
      exists pre d post,
        msgs = pre ++ d :: post
        /\ ws = map (fun d => EvStdinWrite h d None) pre ++ [EvStdinWrite h d (Some err)]
  end.

(** The state [sk] lies inside a restart cycle that began in [s]: the
    flag is set, the events since [s] all happened with the flag set and
    contain the cycle steps [ops], the current handle is [P] and the
    next fresh one is [N]. *)
Definition in_cycle (s sk : State) (ops : list event) (P N : nat) : Prop :=
  restarting (proxy sk) = true
  /\ maxSize (buffer (proxy sk)) = maxSize (buffer (proxy s))
  /\ workingDir (proxy sk) = workingDir (proxy s)
  /\ phpBinary (proxy sk) = phpBinary (proxy s)
  /\ process (proxy sk) = P
  /\ next_handle sk = N
  /\ exists evs,
      trace sk = trace s ++ evs
      /\ Forall (fun o => flag o = true) evs
      /\ cycle_steps evs = ops.

(** Whatever the goroutines do, the capacity of the buffer stays what it
    is and the trace only grows. *)
Record stable (s s' : State) : Prop := mkStable {
  st_maxSize : maxSize (buffer (proxy s')) = maxSize (buffer (proxy s));
  st_trace : exists evs, trace s' = trace s ++ evs
}.

(** The answer of the environment to the first [Start] of [Run]. *)
Definition first_start (env : Env) (s : State) : option error :=
  start_result env (trace s ++ [mkObs (EvLog LogStartingPHP) (restarting (proxy s))])
    (process (proxy s)) (workingDir (proxy s)) (phpBinary (proxy s)).

(** The number of [Start] calls in a trace. *)
Definition count_starts (t : list obs) : nat :=
  length (List.filter (fun e => match e with EvStart _ _ _ _ => true | _ => false end)
                      (map what t)).

(** One pass of the crash monitor in which [Wait] returns [werr] makes
    exactly one attempt to start a worker. *)
Definition respawns_once (env : Env) (werr : option error) (s : State) : Prop :=
  exists s',
    monitorProcess_body env werr s = Ok (tt, s')
    /\ count_starts (trace s') = S (count_starts (trace s)).

(** Every failed [Stop] in a trace has its log line. *)
Definition stops_logged (t : list obs) : Prop :=
  forall h err,
    In (EvStop h (Some err)) (map what t) ->
    In (EvLog (LogErrorStopping err)) (map what t).

(** Environments and a start state for concrete runs: one in which
    everything succeeds, one in which every [Stop] fails. *)
Definition env_ok : Env :=
  mkEnv (fun _ _ _ _ => None) (fun _ _ => None) (fun _ _ _ => None).

Definition env_stop_fails : Env :=
  mkEnv (fun _ _ _ _ => None) (fun _ _ => Some (Err "kill failed")) (fun _ _ _ => None).

Definition boot (schedule : list (list action)) : State :=
  mkState (mkProxy 0 {| messages := []; maxSize := 3 |} false "/srv/debug-mcp" "php" 60)
          [] 1 [mkObs (EvNewProcess 0) false] None false false schedule.

(** The writes attempted on workers' input pipes, in order: the worker,
    the bytes, and the outcome. *)
Definition stdin_writes (t : list obs) : list (nat * list byte * option error) :=
  omap (fun o => match what o with
                 | EvStdinWrite h data r => Some (h, data, r)
                 | _ => None
                 end) t.

(** The input-forwarding goroutine is running with the scratch array
    [buf], which is well formed and lies below every array the buffer
    owns (it was allocated before the first [Add]). *)
Definition stdin_ok (buf : bytes) (s : State) : bool :=
  validb (store s) buf
  && buffer_ok (S (s_arr buf)) (buffer (proxy s)) (store s).

(** The state of a program that serves: the first worker runs, the
    goroutines are started, [proxyStdin] has its 4096-byte scratch
    array. *)
Definition scratch : bytes := mkBytes 0 0 4096 0.

Definition serving (schedule : list (list action)) : State :=
  mkState (mkProxy 0 {| messages := []; maxSize := 3 |} false "/srv/debug-mcp" "php" 60)
          [replicate 4096 x00] 1
          [mkObs (EvNewProcess 0) false; mkObs (EvLog LogStartingPHP) false;
           mkObs (EvStart 0 "/srv/debug-mcp" "php" None) false]
          (Some scratch) true false schedule.

(** ** The buffer as a bounded queue *)

(** A client of the whole interface of the buffer: besides overwriting
    its own memory and calling [Add], it calls [Replay] (into a
    recording sink), [Len] and [Clear]. *)
Inductive op :=
| OpWrite (dst : bytes) (data : list byte)
| OpAdd (message : bytes)
| OpReplay
| OpLen
| OpClear.

(** Running the client's calls on the buffer: the result is the buffer,
    the store, what the sink has received, and what the calls of [Len]
    returned, in order. *)
Fixpoint exec (ops : list op) (b : MessageBuffer) (h : heap) (out : list byte)
  : outcome (MessageBuffer * heap * list byte * list Z) :=
  match ops with
  | [] => Ok (b, h, out, [])
  | OpWrite dst data :: rest => exec rest b (poke dst data h).2 out
  | OpAdd message :: rest =>
      bind (Add message b h) (fun '(b1, h1) => exec rest b1 h1 out)
  | OpReplay :: rest =>
      let '(b1, out1, _) := Replay TheRecorder b h out in
      exec rest b1 h out1
  | OpLen :: rest =>
      let n := Len b in
      bind (exec rest b h out) (fun '(b', h', out', lens) =>
      Ok (b', h', out', n :: lens))
  | OpClear :: rest => exec rest (Clear b) h out
  end.

Definition op_ok (h : heap) (o : op) : bool :=
  match o with
  | OpWrite dst _ => validb h dst
  | OpAdd message => validb h message
  | _ => true
  end.

(** The same calls as operations on a queue of byte strings: an [Add]
    carries the bytes that the chunk holds in the client's memory when
    the call is made. *)
Inductive queue_op :=
| Enqueue (data : list byte)
| Drain
| Count
| Reset.

Fixpoint abstraction (ops : list op) (mem : heap) : list queue_op :=
  match ops with
  | [] => []
  | OpWrite dst data :: rest => abstraction rest (poke dst data mem).2
  | OpAdd message :: rest => Enqueue (read mem message) :: abstraction rest mem
  | OpReplay :: rest => Drain :: abstraction rest mem
  | OpLen :: rest => Count :: abstraction rest mem
  | OpClear :: rest => Reset :: abstraction rest mem
  end.

(** A queue that keeps the last [C] strings: what it holds at the end,
    everything it has drained, and the counts it has reported. *)
Fixpoint queue (C : nat) (ops : list queue_op) (q : list (list byte)) (out : list byte)
  : list (list byte) * list byte * list Z :=
  match ops with
  | [] => (q, out, [])
  | Enqueue data :: rest => queue C rest (lastn C (q ++ [data])) out
  | Drain :: rest => queue C rest [] (out ++ concat q)
  | Count :: rest =>
      let '(q', out', counts) := queue C rest q out in
      (q', out', Z.of_nat (length q) :: counts)
  | Reset :: rest => queue C rest [] out
  end.

(** ** Vocabulary of the forwarding loops *)

(** What [proxyStdin] logs about the error that came with a read, and
    whether the loop goes on after that read. *)
Definition read_error_log (rerr : option error) (f : bool) : list obs :=
  match rerr with
  | Some EOF | None => []
  | Some err => [mkObs (EvLog (LogErrorReadingStdin err)) f]
  end.

Definition reads_on (rerr : option error) : bool :=
  match rerr with Some _ => false | None => true end.

(** An environment in which every write to a worker's input pipe
    fails. *)
Definition env_write_fails : Env :=
  mkEnv (fun _ _ _ _ => None) (fun _ _ => None) (fun _ _ _ => Some (Err "broken pipe")).

(** The serving state in the middle of a restart cycle: the flag is
    set. *)
Definition serving_restart (schedule : list (list action)) : State :=
  set_proxy (set_restarting true) (serving schedule).

(** The buffer has capacity [C] and holds at most [C] chunks, and as
    long as the input-forwarding goroutine runs, its scratch array is
    well formed and apart from the arrays of the buffer. *)
Definition sound (C : Z) (s : State) : Prop :=
  maxSize (buffer (proxy s)) = C
  /\ Len (buffer (proxy s)) <= C
  /\ forall buf, stdin_loop s = Some buf -> stdin_ok buf s = true.

(** The input-forwarding goroutine has returned, and the buffer holds
    no more than [n] chunks. *)
Definition deaf (n : Z) (s : State) : Prop :=
  stdin_loop s = None /\ Len (buffer (proxy s)) <= n.

(** The number of [Stop] calls and of handle allocations in a trace. *)
Definition count_stops (t : list obs) : nat :=
  length (List.filter (fun e => match e with EvStop _ _ => true | _ => false end)
                      (map what t)).

Definition count_handles (t : list obs) : nat :=
  length (List.filter (fun e => match e with EvNewProcess _ => true | _ => false end)
                      (map what t)).

(** The iterations of the two loops that a list of actions holds. *)
Definition is_read (a : action) : bool :=
  match a with StdinRead _ _ => true | _ => false end.

Definition is_exit (a : action) : bool :=
  match a with WorkerExit _ => true | _ => false end.

(** An environment in which the worker with handle 1 does not start,
    and a state whose buffer holds one chunk, "m". *)
Definition env_start_fails_once : Env :=
  mkEnv (fun _ h _ _ => if (h =? 1)%nat then Some (Err "fork failed") else None)
        (fun _ _ => None) (fun _ _ _ => None).

Definition held : State :=
  mkState (mkProxy 0 {| messages := [mkBytes 0 0 1 0]; maxSize := 3 |} false
                   "/srv/debug-mcp" "php" 60)
          [["m"%byte]] 1 [mkObs (EvNewProcess 0) false] None false false [].

(** ** proxy.go: the output-forwarding loop *)

(** The lines that [proxyStdout] logs. *)
Inductive stdout_logline :=
| LogErrorWritingStdout (err : error)
| LogErrorReadingStdout (err : error).

(** What [proxyStdout] acts on: the byte store, the world of
    [os.Stdout], and the log. It reads no field of the proxy but
    [p.process], whose [Stdout()] it reads from; [process.go] is not
    part of the sources at hand, so what each [Read] delivers is given. *)
Record Out (S : Type) := mkOut {
  out_store : heap;
  out_world : S;
  out_log : list stdout_logline
}.
Arguments mkOut {S} _ _ _.
Arguments out_store {S} _.
Arguments out_world {S} _.
Arguments out_log {S} _.

(** One pass through the [default:] branch of [proxyStdout], given what
    [p.process.Stdout().Read(buf)] delivers; the result tells whether
    the loop goes on. *)
Definition proxyStdout_body {W S} `{Writer W S} (stdout : W) (buf : bytes)
    (data : list byte) (rerr : option error) (o : Out S) : outcome (bool * Out S) :=
  let '(n, h) := poke buf data (out_store o) in
  bind (if (0 <? n)%nat then
          bind (slice_to buf n) (fun chunk =>
          match Write stdout (read h chunk) (out_world o) with
          | (w, Some err) =>
              Ok (false, mkOut h w (out_log o ++ [LogErrorWritingStdout err]))
          | (w, None) => Ok (true, mkOut h w (out_log o))
          end)
        else Ok (true, mkOut h (out_world o) (out_log o)))
       (fun '(go_on, o1) =>
        if go_on then
          match rerr with
          | Some EOF => Ok (false, o1)
          | Some err =>
              Ok (false, mkOut (out_store o1) (out_world o1)
                               (out_log o1 ++ [LogErrorReadingStdout err]))
          | None => Ok (true, o1)
          end
        else Ok (false, o1)).

(** What the loop meets when it comes round: the context is cancelled,
    or the read returns. *)
Inductive stdout_turn :=
| SeesDone
| StdoutRead (data : list byte) (err : option error).

(** The loop of [proxyStdout]; the result tells whether the goroutine
    has returned ([false]: it is in its next [Read]). *)
Fixpoint proxyStdout_loop {W S} `{Writer W S} (stdout : W) (buf : bytes)
    (turns : list stdout_turn) (o : Out S) : outcome (bool * Out S) :=
  match turns with
  | [] => Ok (false, o)
  | SeesDone :: _ => Ok (true, o)
  | StdoutRead data rerr :: rest =>
      bind (proxyStdout_body stdout buf data rerr o) (fun '(go_on, o1) =>
      if go_on then proxyStdout_loop stdout buf rest o1 else Ok (true, o1))
  end.

Definition proxyStdout {W S} `{Writer W S} (stdout : W)
    (turns : list stdout_turn) (o : Out S) : outcome (bool * Out S) :=
  let '(buf, h) := make_bytes 4096 (out_store o) in
  proxyStdout_loop stdout buf turns (mkOut h (out_world o) (out_log o)).

(** The chunks that a loop with a scratch array of [n] bytes passes on,
    as long as no write fails: every read's bytes, up to the first read
    that reports an error, that one included; a read without bytes
    passes nothing on. *)
Fixpoint passed_on (n : nat) (turns : list stdout_turn) : list (list byte) :=
  match turns with
  | [] => []
  | SeesDone :: _ => []
  | StdoutRead data rerr :: rest =>
      (if (0 <? Nat.min n (length data))%nat then [take n data] else [])
      ++ match rerr with
         | Some _ => []
         | None => passed_on n rest
         end
  end.

(** The read error that such a loop logs: the first one, unless it is
    [io.EOF]. *)
Fixpoint read_error_logged (turns : list stdout_turn) : list stdout_logline :=
  match turns with
  | [] => []
  | SeesDone :: _ => []
  | StdoutRead _ (Some EOF) :: _ => []
  | StdoutRead _ (Some err) :: _ => [LogErrorReadingStdout err]
  | StdoutRead _ None :: rest => read_error_logged rest
  end.

(** Whether the goroutine returns within the given turns. *)
Fixpoint returns (turns : list stdout_turn) : bool :=
  match turns with
  | [] => false
  | SeesDone :: _ => true
  | StdoutRead _ (Some _) :: _ => true
  | StdoutRead _ None :: rest => returns rest
  end.

(** ** main.go *)

(** [config.Config], as far as [main] reads it. [config.go] is not part
    of the sources at hand: what [config.LoadConfig()] returns is
    given. *)
Record Config := mkConfig {
  WorkingDir : string;
  PHPBinary : string;
  RestartInterval : Z;
  BufferSize : Z
}.

(** The lines that [main] logs. *)
Inductive main_logline :=
| LogConfigurationError (err : error)
| LogStartingWrapper
| LogWorkingDirectory (dir : string)
| LogPHPBinary (bin : string)
| LogRestartInterval (d : Z)
| LogBufferSize (n : Z)
| LogProxyError (err : error)
| LogShutdownComplete.

(** How [main] ends: [log.Fatalf] exits with status 1, a return from
    [main] exits with status 0; [StillRunning] means that [Run] has not
    returned when the given wake-ups are used up. *)
Inductive ending := Fatal | Returned | StillRunning.

Record Life := mkLife {
  main_log : list main_logline;
  final : option State;
  ended : ending
}.

(** [main]. The context that [signal.NotifyContext] builds is
    cancelled by SIGINT or SIGTERM; when that happens is part of the
    schedule and of the wake-ups of the main loop. *)
Definition main (env : Env) (loaded : Config + error)
    (schedule : list (list action)) (wakeups : list select_case) : outcome Life :=
  match loaded with
  | inr err => Ok (mkLife [LogConfigurationError err] None Fatal)
  | inl cfg =>
      let l := [LogStartingWrapper; LogWorkingDirectory (WorkingDir cfg);
                LogPHPBinary (PHPBinary cfg); LogRestartInterval (RestartInterval cfg);
                LogBufferSize (BufferSize cfg)] in
      bind (NewProxy (WorkingDir cfg) (PHPBinary cfg) (RestartInterval cfg)
                     (BufferSize cfg) schedule) (fun p =>
      bind (Run env wakeups p) (fun '(res, s') =>
      match res with
      | Some (Some err) => Ok (mkLife (l ++ [LogProxyError err]) (Some s') Fatal)
      | Some None => Ok (mkLife (l ++ [LogShutdownComplete]) (Some s') Returned)
      | None => Ok (mkLife l (Some s') StillRunning)
      end))
  end.

(** The state in which [main] calls [Run]. *)
Definition built (cfg : Config) (schedule : list (list action)) : State :=
  mkState (mkProxy 0 {| messages := []; maxSize := BufferSize cfg |} false
                   (WorkingDir cfg) (PHPBinary cfg) (RestartInterval cfg))
          [] 1 [mkObs (EvNewProcess 0) false] None false false schedule.

Definition is_done (c : select_case) : bool :=
  match c with CtxDone => true | TickerC => false end.

Definition example_config : Config := mkConfig "/srv/debug-mcp" "php" 60 100.

(** * Properties *)

(** ** The byte store *)

Lemma validb_lt h s : validb h s = true -> (s_arr s < length h)%nat.
Proof.
  unfold validb. destruct (h !! s_arr s) eqn:E; [|done].
  intros _. by eapply lookup_lt_Some.
Qed.

Lemma read_length h s : validb h s = true -> length (read h s) = s_len s.
Proof.
  unfold validb, read. destruct (h !! s_arr s) as [a|]; [|done]. simpl.
  intros H%Nat.leb_le. rewrite length_take, length_drop. lia.
Qed.

Lemma read_app h x s : (s_arr s < length h)%nat -> read (h ++ x) s = read h s.
Proof. intros H. unfold read. by rewrite lookup_app_l. Qed.

Lemma validb_app h x s : validb h s = true -> validb (h ++ x) s = true.
Proof.
  intros H. pose proof (validb_lt _ _ H). unfold validb in *.
  by rewrite lookup_app_l.
Qed.

Lemma read_poke_ne dst data h s :
  s_arr s <> s_arr dst -> read (poke dst data h).2 s = read h s.
Proof. intros H. unfold read, poke. simpl. by rewrite list_lookup_insert_ne. Qed.

Lemma poke_length dst data h : length (poke dst data h).2 = length h.
Proof. unfold poke. simpl. by rewrite length_insert. Qed.

Lemma validb_poke dst data h s :
  validb h dst = true -> validb h s = true -> validb (poke dst data h).2 s = true.
Proof.
  intros Hd Hs. unfold poke. simpl.
  destruct (decide (s_arr s = s_arr dst)) as [E|E].
  - unfold validb in *. rewrite E in *.
    destruct (h !! s_arr dst) as [a|] eqn:Ea; [|done]. simpl.
    rewrite list_lookup_insert_eq by by eapply lookup_lt_Some.
    apply Nat.leb_le in Hd, Hs. apply Nat.leb_le.
    rewrite !length_app, !length_take, length_drop. lia.
  - unfold validb in *. by rewrite list_lookup_insert_ne.
Qed.

(** Reading back what was just stored through a well-formed slice. *)
Lemma read_poke_eq dst data h :
  validb h dst = true ->
  read (poke dst data h).2 (mkBytes (s_arr dst) (s_off dst) (Nat.min (s_len dst) (length data)) (s_cap dst - Nat.min (s_len dst) (length data)))
  = take (s_len dst) data.
Proof.
  intros Hd. unfold read, poke, validb in *. simpl.
  destruct (h !! s_arr dst) as [a|] eqn:Ea; [|done]. simpl.
  apply Nat.leb_le in Hd.
  rewrite list_lookup_insert_eq by by eapply lookup_lt_Some. simpl.
  rewrite drop_app_length'; [|rewrite length_take; lia].
  rewrite take_app_length'; [|rewrite length_take; lia].
  by rewrite <- take_take, firstn_all.
Qed.

(** [make] followed by [copy] yields a private array holding exactly
    the bytes of the source. *)
Lemma make_copy h message :
  validb h message = true ->
  let '(c, h1) := make_bytes (s_len message) h in
  let '(_, h2) := copy c message h1 in
  c = mkBytes (length h) 0 (s_len message) 0
  /\ h2 = h ++ [read h message].
Proof.
  intros Hv. pose proof (validb_lt _ _ Hv) as Hlt.
  pose proof (read_length _ _ Hv) as Hlen.
  unfold make_bytes, copy, poke. simpl. split; [done|].
  rewrite read_app by done.
  rewrite lookup_app_r by lia. rewrite Nat.sub_diag. simpl.
  rewrite Hlen, Nat.min_id.
  rewrite <- Hlen at 1. rewrite firstn_all.
  rewrite drop_ge by (rewrite length_replicate; lia).
  rewrite app_nil_r.
  replace (length h) with (length h + 0)%nat at 1 by lia.
  by rewrite insert_app_r.
Qed.

(** ** [Add] *)

Lemma Add_ok message b h :
  validb h message = true ->
  (Z.of_nat (length (messages b)) < maxSize b \/ messages b <> []) ->
  Add message b h =
    Ok ({| messages :=
             (if Z.of_nat (length (messages b)) >=? maxSize b
              then drop 1 (messages b) else messages b)
             ++ [mkBytes (length h) 0 (s_len message) 0];
           maxSize := maxSize b |},
        h ++ [read h message]).
Proof.
  intros Hv Hne. unfold Add.
  pose proof (make_copy h message Hv) as Hmc.
  destruct (make_bytes (s_len message) h) as [c h1].
  destruct (copy c message h1) as [k h2]. destruct Hmc as [-> ->].
  destruct (Z.of_nat (length (messages b)) >=? maxSize b) eqn:E; simpl; [|done].
  unfold slice_from.
  destruct (messages b) as [|m ms]; simpl.
  - destruct Hne as [Hne|Hne]; [lia|done].
  - done.
Qed.

Lemma contents_app b h x :
  buffer_ok 0 b h = true -> contents b (h ++ x) = contents b h.
Proof.
  unfold buffer_ok, contents. intros H.
  apply map_ext_in. intros m Hm.
  rewrite forallb_forall in H. specialize (H m Hm).
  apply andb_prop in H as [_ H]. apply read_app. by apply validb_lt.
Qed.

Lemma buffer_ok_weaken lim b h : buffer_ok lim b h = true -> buffer_ok 0 b h = true.
Proof.
  unfold buffer_ok. rewrite !forallb_forall. intros H m Hm.
  specialize (H m Hm). apply andb_prop in H as [_ H]. by rewrite H.
Qed.

(** What one [Add] does to the contents: the oldest chunk goes if the
    buffer is full, every other chunk stays as it was, and the bytes of
    the message at the time of the call come last. *)
Lemma Add_contents lim message b h :
  validb h message = true ->
  buffer_ok lim b h = true ->
  (lim <= length h)%nat ->
  (Z.of_nat (length (messages b)) < maxSize b \/ messages b <> []) ->
  exists b' h',
    Add message b h = Ok (b', h')
    /\ contents b' h' =
         (if Len b >=? maxSize b then drop 1 (contents b h) else contents b h)
         ++ [read h message]
    /\ maxSize b' = maxSize b
    /\ buffer_ok lim b' h' = true
    /\ h' = h ++ [read h message].
Proof.
  intros Hv Hok Hlim Hne. eexists _, _. split; [by apply Add_ok|].
  pose proof (buffer_ok_weaken _ _ _ Hok) as Hok0.
  assert (Hnew : read (h ++ [read h message])
                   (mkBytes (length h) 0 (s_len message) 0)
                 = read h message).
  { unfold read at 1. simpl. rewrite lookup_app_r by lia.
    rewrite Nat.sub_diag. simpl. rewrite <- (read_length _ _ Hv) at 1.
    apply firstn_all. }
  split; [|split; [done|split; [|done]]].
  - unfold contents, Len in *. simpl. rewrite map_app. simpl. rewrite Hnew.
    f_equal.
    pose proof (contents_app b h [read h message] Hok0) as Hc. unfold contents in Hc.
    destruct (Z.of_nat (length (messages b)) >=? maxSize b); [|done].
    by rewrite <- skipn_map, Hc.
  - unfold buffer_ok in *. simpl. rewrite forallb_app. simpl.
    apply andb_true_intro. split.
    + rewrite forallb_forall in *. intros m Hm.
      assert (In m (messages b)) as Hin.
      { destruct (_ >=? _); [|done].
        apply list_elem_of_In. apply (subseteq_drop 1). by apply list_elem_of_In. }
      specialize (Hok m Hin). apply andb_prop in Hok as [H1 H2].
      rewrite H1. simpl. by apply validb_app.
    + rewrite andb_true_r. apply andb_true_intro. split; [by apply Nat.leb_le|].
      unfold validb. simpl. rewrite lookup_app_r by lia.
      rewrite Nat.sub_diag. simpl. apply Nat.leb_le.
      by rewrite (read_length _ _ Hv).
Qed.

(** ** Sequences of calls *)

Lemma lastn_all {A} n (l : list A) : (length l <= n)%nat -> lastn n l = l.
Proof. intros H. unfold lastn. by replace (length l - n)%nat with 0%nat by lia. Qed.

Lemma lastn_cons {A} n x (l : list A) :
  (n <= length l)%nat -> lastn n (x :: l) = lastn n l.
Proof.
  intros H. unfold lastn. simpl.
  by replace (S (length l) - n)%nat with (S (length l - n)) by lia.
Qed.

Lemma contents_poke lim dst data b h :
  (s_arr dst < lim)%nat -> buffer_ok lim b h = true ->
  contents b (poke dst data h).2 = contents b h.
Proof.
  intros Hd Hok. unfold contents. apply map_ext_in. intros m Hm.
  unfold buffer_ok in Hok. rewrite forallb_forall in Hok.
  specialize (Hok m Hm). apply andb_prop in Hok as [Hl%Nat.leb_le _].
  apply read_poke_ne. lia.
Qed.

Lemma buffer_ok_poke lim dst data b h :
  validb h dst = true -> buffer_ok lim b h = true ->
  buffer_ok lim b (poke dst data h).2 = true.
Proof.
  intros Hd. unfold buffer_ok. rewrite !forallb_forall. intros H m Hm.
  specialize (H m Hm). apply andb_prop in H as [H1 H2]. rewrite H1. simpl.
  by apply validb_poke.
Qed.

Lemma run_invariant (h0 : heap) (cs : list call) :
  forall (b : MessageBuffer) (h : heap),
    (forall s, validb h0 s = true -> validb h s = true) ->
    (length h0 <= length h)%nat ->
    buffer_ok (length h0) b h = true ->
    1 <= maxSize b ->
    Len b <= maxSize b ->
    forallb (call_ok h0) cs = true ->
    exists b' h' added,
      run cs b h = Ok (b', h', added)
      /\ contents b' h' = lastn (Z.to_nat (maxSize b)) (contents b h ++ added)
      /\ Len b' <= maxSize b
      /\ maxSize b' = maxSize b.
Proof.
  induction cs as [|c cs IH]; intros b h Hext Hlen Hok Hcap Hfull Hcs.
  - exists b, h, []. rewrite app_nil_r. repeat split; try done.
    symmetry. apply lastn_all. unfold contents, Len in *. rewrite length_map. lia.
  - simpl in Hcs. apply andb_prop in Hcs as [Hc Hcs]. destruct c as [dst data|message]; simpl in *.
    + pose proof (validb_lt _ _ Hc) as Hdst.
      destruct (IH b (poke dst data h).2) as (b' & h' & added & Hrun & Hcont & Hl & Hm); try done.
      * intros s Hs. apply validb_poke; auto.
      * by rewrite poke_length.
      * apply buffer_ok_poke; auto.
      * exists b', h', added. repeat split; try done.
        by rewrite Hcont, (contents_poke (length h0)).
    + destruct (Add_contents (length h0) message b h) as (b1 & h1 & HAdd & Hc1 & Hm1 & Hok1 & Hh1); auto.
      { destruct (messages b); [left; unfold Len in *; simpl in *; lia | by right]. }
      rewrite HAdd. simpl.
      assert (Hl1 : Len b1 <= maxSize b1).
      { apply (f_equal length) in Hc1. unfold contents, Len in *.
        rewrite length_app, !length_map in Hc1. simpl in Hc1. rewrite Hm1.
        destruct (Z.of_nat (length (messages b)) >=? maxSize b) eqn:E.
        - rewrite length_drop, length_map in Hc1. lia.
        - rewrite length_map in Hc1. lia. }
      destruct (IH b1 h1) as (b' & h' & added & Hrun & Hcont & Hl & Hm); try done.
      * intros s Hs. subst h1. apply validb_app. auto.
      * subst h1. rewrite length_app. lia.
      * by rewrite Hm1.
      * rewrite Hrun. simpl. exists b', h', (read h message :: added).
        rewrite Hm1 in *. repeat split; try done.
        rewrite Hcont, Hc1.
        destruct (Len b >=? maxSize b) eqn:E.
        -- assert (Hn : length (contents b h) = Z.to_nat (maxSize b)).
           { unfold contents, Len in *. rewrite length_map. lia. }
           destruct (contents b h) as [|c0 c'] eqn:Ec; simpl in *; [lia|].
           rewrite drop_0. rewrite <- app_assoc. simpl.
           symmetry. apply lastn_cons. rewrite length_app. simpl. lia.
        -- by rewrite <- app_assoc.
Qed.

(** What [NewMessageBuffer] returns, and when. *)
Lemma NewMessageBuffer_Ok size b :
  NewMessageBuffer size = Ok b ->
  b = {| messages := []; maxSize := size |}
  /\ 0 <= size /\ slice_header_size * size <= maxAlloc.
Proof.
  unfold NewMessageBuffer, make_slice.
  destruct (size <? 0) eqn:E1; [done|].
  destruct (maxAlloc <? slice_header_size * size) eqn:E2; [done|].
  simpl. intros [= <-]. apply Z.ltb_ge in E1, E2. done.
Qed.

Lemma NewMessageBuffer_Panic size :
  size < 0 \/ maxAlloc < slice_header_size * size ->
  NewMessageBuffer size = Panic MakesliceCapOutOfRange.
Proof.
  intros H. unfold NewMessageBuffer, make_slice.
  destruct (size <? 0) eqn:E1; [done|].
  destruct (maxAlloc <? slice_header_size * size) eqn:E2; [done|].
  apply Z.ltb_ge in E1, E2. lia.
Qed.

(** C1, as the code has it: for every capacity [C] of at least 1 with
    which [NewMessageBuffer] returns a buffer, and every sequence of
    calls of a client (which may overwrite its own memory between the
    calls), the buffer ends up with exactly the last [C] chunks passed to
    [Add], oldest first; the same holds after every prefix of the calls,
    so the length never exceeds [C]; and an [Add] on a full buffer drops
    the single oldest chunk and leaves every other chunk intact. There
    is no buffer for a negative capacity nor for one beyond the limit of
    [make], which panics; with capacity 0 the first [Add] panics. *)
Theorem buffer_retains_last_C (C : Z) (b0 : MessageBuffer) (cs : list call) (h0 : heap) :
  1 <= C ->
  NewMessageBuffer C = Ok b0 ->
  forallb (call_ok h0) cs = true ->
  retains_last C cs h0
  /\ (forall n, retains_last C (take n cs) h0)
  /\ (forall b h message,
        maxSize b = C -> Len b = C ->
        buffer_ok 0 b h = true -> validb h message = true ->
        exists b' h',
          Add message b h = Ok (b', h')
          /\ contents b' h' = drop 1 (contents b h) ++ [read h message]
          /\ Len b' = C)
  /\ (forall size,
        size < 0 \/ maxAlloc < slice_header_size * size ->
        NewMessageBuffer size = Panic MakesliceCapOutOfRange)
  /\ panics_on_first_add 0.
Proof.
  intros HC Hnew Hcs.
  destruct (NewMessageBuffer_Ok _ _ Hnew) as (-> & _ & _).
  assert (Hgen : forall cs', forallb (call_ok h0) cs' = true -> retains_last C cs' h0).
  { intros cs' Hcs'. unfold retains_last.
    destruct (run_invariant h0 cs' {| messages := []; maxSize := C |} h0)
      as (b & h & added & Hrun & Hcont & Hl & Hm); try done.
    { unfold Len. simpl. lia. }
    eexists _, b, h, added. repeat split; try done. }
  split; [by apply Hgen|]. split; [|split; [|split]].
  - intros n. apply Hgen. rewrite forallb_forall in *. intros c Hc. apply Hcs.
    apply list_elem_of_In. apply (subseteq_take n). by apply list_elem_of_In.
  - intros b h message Hmax Hlen Hok Hv.
    destruct (Add_contents 0 message b h) as (b1 & h1 & HAdd & Hc1 & Hm1 & Hok1 & Hh1); auto.
    { lia. }
    { right. unfold Len in Hlen. destruct (messages b); [simpl in *; lia|done]. }
    exists b1, h1. split; [done|].
    replace (Len b >=? maxSize b) with true in Hc1 by (symmetry; apply Z.geb_le; lia).
    split; [done|].
    apply (f_equal length) in Hc1. unfold contents, Len in *.
    rewrite length_app, length_drop, !length_map in Hc1. simpl in Hc1. lia.
  - apply NewMessageBuffer_Panic.
  - exists {| messages := []; maxSize := 0 |}. split; reflexivity.
Qed.

Lemma buffer_retains_last_C_witness :
  retains_last 3 abcd [[x00]]
  /\ (forall n, retains_last 3 (take n abcd) [[x00]])
  /\ (forall b h message,
        maxSize b = 3 -> Len b = 3 ->
        buffer_ok 0 b h = true -> validb h message = true ->
        exists b' h',
          Add message b h = Ok (b', h')
          /\ contents b' h' = drop 1 (contents b h) ++ [read h message]
          /\ Len b' = 3)
  /\ (forall size,
        size < 0 \/ maxAlloc < slice_header_size * size ->
        NewMessageBuffer size = Panic MakesliceCapOutOfRange)
  /\ panics_on_first_add 0.
Proof.
  apply (buffer_retains_last_C 3 {| messages := []; maxSize := 3 |} abcd [[x00]]);
    [lia | reflexivity | reflexivity].
Defined.

(** C1 as stated fails for capacity 0: the very first [Add] panics, so
    no buffer holding "the last 0 chunks" results. *)
Lemma capacity_zero_retains_nothing :
  ~ retains_last 0 [CallAdd one_byte] [["a"%byte]].
Proof.
  intros (b0 & b & h & added & H0 & Hrun & _).
  vm_compute in H0. injection H0 as <-. vm_compute in Hrun. discriminate.
Qed.

(** ** [Replay] *)

Lemma write_all_accepts {W S} `{Writer W S} (w : W) (msgs : list (list byte)) :
  (forall p t, (Write w p t).2 = None) ->
  forall s, write_all w msgs s = (feed w msgs s, None).
Proof.
  intros Hacc. induction msgs as [|m msgs IH]; intros s; simpl; [done|].
  specialize (Hacc m s). destruct (Write w m s) as [s' e]. simpl in *. subst e.
  apply IH.
Qed.

Lemma write_all_feed {W S} `{Writer W S} (w : W) (msgs : list (list byte)) :
  forall s s', write_all w msgs s = (s', None) -> s' = feed w msgs s.
Proof.
  induction msgs as [|m msgs IH]; intros s s'; simpl.
  - by intros [= <-].
  - destruct (Write w m s) as [s1 [e|]]; [done|]. apply IH.
Qed.

Lemma write_all_stops {W S} `{Writer W S} (w : W) (pre : list (list byte)) m post :
  forall s s1 s2 err,
    write_all w pre s = (s1, None) ->
    Write w m s1 = (s2, Some err) ->
    write_all w (pre ++ m :: post) s = (s2, Some err).
Proof.
  induction pre as [|p pre IH]; intros s s1 s2 err; simpl.
  - intros [= <-] ->. done.
  - destruct (Write w p s) as [s' [e|]]; [done|]. apply IH.
Qed.

Lemma feed_Recorder (msgs : list (list byte)) :
  forall s, feed TheRecorder msgs s = s ++ concat msgs.
Proof.
  induction msgs as [|m msgs IH]; intros s.
  - simpl. by rewrite app_nil_r.
  - change (feed TheRecorder (m :: msgs) s) with (feed TheRecorder msgs (s ++ m)).
    rewrite IH. simpl. by rewrite <- app_assoc.
Qed.

Lemma Replay_accepts {W S} `{Writer W S} (w : W) (b : MessageBuffer) (h : heap) (s : S) :
  (forall p t, (Write w p t).2 = None) ->
  Replay w b h s
  = ({| messages := []; maxSize := maxSize b |}, feed w (contents b h) s, None).
Proof.
  intros Hacc. unfold Replay. fold (contents b h).
  by rewrite (write_all_accepts w _ Hacc).
Qed.

(** C2: on a sink that accepts every write, [Replay] writes the buffered
    chunks in arrival order and then empties the buffer: [Len] is 0
    right afterwards and a further [Replay] writes nothing. With
    capacity 3 and the chunks "a", "b", "c", "d" the buffer holds "b",
    "c", "d", the sink receives "bcd", and the length is then 0. *)
Theorem Replay_drains_in_order {W S} `{Writer W S}
    (w : W) (b : MessageBuffer) (h : heap) (s : S) :
  (forall p t, (Write w p t).2 = None) ->
  (exists b',
     Replay w b h s = (b', feed w (contents b h) s, None)
     /\ Len b' = 0
     /\ contents b' h = []
     /\ maxSize b' = maxSize b
     /\ forall t, Replay w b' h t = (b', t, None))
  /\ (exists b0 b1 h1 added b2,
        NewMessageBuffer 3 = Ok b0
        /\ run abcd b0 [[x00]] = Ok (b1, h1, added)
        /\ contents b1 h1 = [["b"%byte]; ["c"%byte]; ["d"%byte]]
        /\ Replay TheRecorder b1 h1 [] = (b2, ["b"%byte; "c"%byte; "d"%byte], None)
        /\ Len b2 = 0).
Proof.
  intros Hacc. split.
  - eexists. split; [by apply Replay_accepts|]. by repeat split.
  - eexists _, _, _, _, _. repeat split; reflexivity.
Qed.

Lemma Replay_drains_in_order_witness :
  (exists b',
     Replay TheRecorder {| messages := [mkBytes 0 0 1 0]; maxSize := 3 |} [["x"%byte]] []
       = (b', feed TheRecorder
                (contents {| messages := [mkBytes 0 0 1 0]; maxSize := 3 |} [["x"%byte]]) [],
          None)
     /\ Len b' = 0
     /\ contents b' [["x"%byte]] = []
     /\ maxSize b' = 3
     /\ forall t, Replay TheRecorder b' [["x"%byte]] t = (b', t, None))
  /\ (exists b0 b1 h1 added b2,
        NewMessageBuffer 3 = Ok b0
        /\ run abcd b0 [[x00]] = Ok (b1, h1, added)
        /\ contents b1 h1 = [["b"%byte]; ["c"%byte]; ["d"%byte]]
        /\ Replay TheRecorder b1 h1 [] = (b2, ["b"%byte; "c"%byte; "d"%byte], None)
        /\ Len b2 = 0).
Proof.
  apply (Replay_drains_in_order TheRecorder
           {| messages := [mkBytes 0 0 1 0]; maxSize := 3 |} [["x"%byte]] []).
  reflexivity.
Defined.

(** C9: when a write fails, [Replay] returns that error at once (the
    sink is left as the failed write left it, nothing further is
    written) and the buffer is exactly what it was, the chunks already
    written included; a later [Replay] that succeeds sends all of them
    again. *)
Theorem Replay_failure_keeps_everything {W S} `{Writer W S}
    (w : W) (b : MessageBuffer) (h : heap) (s s1 s2 : S)
    (pre : list (list byte)) (m : list byte) (post : list (list byte)) (err : error) :
  contents b h = pre ++ m :: post ->
  write_all w pre s = (s1, None) ->
  Write w m s1 = (s2, Some err) ->
  Replay w b h s = (b, s2, Some err)
  /\ s1 = feed w pre s
  /\ forall (W' S' : Type) (H' : Writer W' S') (w' : W') (t : S'),
       (forall p u, (Write w' p u).2 = None) ->
       exists b', Replay w' b h t = (b', feed w' (pre ++ m :: post) t, None)
                  /\ Len b' = 0.
Proof.
  intros Hc Hpre Hm. split; [|split].
  - unfold Replay. fold (contents b h). rewrite Hc.
    by rewrite (write_all_stops w pre m post s s1 s2 err).
  - by eapply write_all_feed.
  - intros W' S' H' w' t Hacc. eexists. rewrite Replay_accepts by done.
    by rewrite Hc.
Qed.

Lemma Replay_failure_keeps_everything_witness :
  let b := {| messages := [mkBytes 2 0 1 0; mkBytes 3 0 1 0; mkBytes 4 0 1 0];
              maxSize := 3 |} in
  let h := [["d"%byte]; ["a"%byte]; ["b"%byte]; ["c"%byte]; ["d"%byte]] in
  Replay (FailAfterN 1) b h (0%nat, [])
    = (b, (2%nat, ["b"%byte]), Some (Err "write failed"))
  /\ (1%nat, ["b"%byte]) = feed (FailAfterN 1) [["b"%byte]] (0%nat, [])
  /\ forall (W' S' : Type) (H' : Writer W' S') (w' : W') (t : S'),
       (forall p u, (Write w' p u).2 = None) ->
       exists b', Replay w' b h t
                  = (b', feed w' ([["b"%byte]] ++ ["c"%byte] :: [["d"%byte]]) t, None)
                  /\ Len b' = 0.
Proof.
  apply (Replay_failure_keeps_everything (FailAfterN 1) _ _ (0%nat, [])
           (1%nat, ["b"%byte]) (2%nat, ["b"%byte])
           [["b"%byte]] ["c"%byte] [["d"%byte]] (Err "write failed"));
    reflexivity.
Defined.

(** ** Copies and capacities *)

Lemma contents_poke_disjoint dst data b h :
  owns b (s_arr dst) = false ->
  contents b (poke dst data h).2 = contents b h.
Proof.
  intros Hd. unfold contents. apply map_ext_in. intros m Hm.
  apply read_poke_ne. intros E. unfold owns in Hd.
  assert (existsb (fun m => (s_arr m =? s_arr dst)%nat) (messages b) = true); [|congruence].
  apply existsb_exists. exists m. split; [done|]. by apply Nat.eqb_eq.
Qed.

Lemma contents_overwrite b (later : list (bytes * list byte)) :
  forallb (fun w => negb (owns b (s_arr w.1))) later = true ->
  forall h, contents b (overwrite later h) = contents b h.
Proof.
  induction later as [|[dst data] later IH]; intros Hl h; simpl in *; [done|].
  apply andb_prop in Hl as [Hd Hl]. rewrite IH by done.
  apply contents_poke_disjoint. by destruct (owns b (s_arr dst)).
Qed.

(** C8: [Add] stores a copy of its own. Whatever the caller writes
    afterwards into memory that existed when [Add] was called (the array
    of the chunk itself included) leaves the buffered chunks as they
    were; the newest of them is the chunk as it was at the call, and
    that is what a later [Replay] sends. *)
Theorem Add_stores_a_private_copy
    (message : bytes) (b : MessageBuffer) (h : heap) (later : list (bytes * list byte)) :
  validb h message = true ->
  buffer_ok 0 b h = true ->
  1 <= maxSize b ->
  forallb (fun w => (s_arr w.1 <? length h)%nat && negb (owns b (s_arr w.1))) later = true ->
  exists b' h',
    Add message b h = Ok (b', h')
    /\ last (contents b' h') = Some (read h message)
    /\ contents b' (overwrite later h') = contents b' h'
    /\ (Replay TheRecorder b' (overwrite later h') []).1.2 = concat (contents b' h').
Proof.
  intros Hv Hok Hcap Hl.
  destruct (Add_contents 0 message b h) as (b1 & h1 & HAdd & Hc1 & Hm1 & Hok1 & Hh1); auto.
  { lia. }
  { destruct (messages b); [left; simpl; lia | by right]. }
  exists b1, h1. split; [done|].
  assert (Hkeep : contents b1 (overwrite later h1) = contents b1 h1).
  { apply contents_overwrite. rewrite forallb_forall in *. intros [dst data] Hw.
    specialize (Hl _ Hw). simpl in *. apply andb_prop in Hl as [Hlt%Nat.ltb_lt Hno].
    rewrite Add_ok in HAdd; auto.
    2:{ destruct (messages b); [left; simpl; lia | by right]. }
    injection HAdd as <- _. unfold owns in *. simpl. rewrite existsb_app. simpl.
    replace (length h =? s_arr dst)%nat with false by (symmetry; apply Nat.eqb_neq; lia).
    rewrite !orb_false_r.
    destruct (existsb _ (messages b)) eqn:E1; [done|].
    destruct (_ >=? _); [|by rewrite E1].
    destruct (existsb _ (drop 1 (messages b))) eqn:E2; [|done].
    apply existsb_exists in E2 as (m & Hm & Hm').
    assert (existsb (fun m => (s_arr m =? s_arr dst)%nat) (messages b) = true); [|congruence].
    apply existsb_exists. exists m. split; [|done].
    apply list_elem_of_In. apply (subseteq_drop 1). by apply list_elem_of_In. }
  split; [|split; [done|]].
  - rewrite Hc1. by rewrite last_snoc.
  - rewrite Replay_accepts by done. simpl. by rewrite feed_Recorder, Hkeep.
Qed.

Lemma Add_stores_a_private_copy_witness :
  exists b' h',
    Add one_byte {| messages := []; maxSize := 3 |} [["x"%byte]] = Ok (b', h')
    /\ last (contents b' h') = Some (read [["x"%byte]] one_byte)
    /\ contents b' (overwrite [(one_byte, ["y"%byte])] h') = contents b' h'
    /\ (Replay TheRecorder b' (overwrite [(one_byte, ["y"%byte])] h') []).1.2
       = concat (contents b' h').
Proof.
  apply (Add_stores_a_private_copy one_byte {| messages := []; maxSize := 3 |}
           [["x"%byte]] [(one_byte, ["y"%byte])]); [reflexivity | reflexivity | simpl; lia | reflexivity].
Defined.

(** C10, as the code has it: with size 0 the buffer is built and its
    first [Add] panics, slicing the empty list from 1; with a negative
    size [NewMessageBuffer] itself panics, in [make], so no [Add] is
    reached; an [Add] on any empty buffer whose [maxSize] is not positive
    panics; from size 1 on the first [Add] does not panic. *)
Theorem nonpositive_capacity_panics (size : Z) :
  size <= 0 ->
  (size = 0 -> panics_on_first_add size)
  /\ (size < 0 -> NewMessageBuffer size = Panic MakesliceCapOutOfRange)
  /\ (forall b message h,
        maxSize b = size -> messages b = [] ->
        Add message b h = Panic (SliceBoundsOutOfRange 1 0))
  /\ (forall size', 1 <= size' -> ~ panics_on_first_add size').
Proof.
  intros Hs.
  assert (Hadd : forall b message h,
             maxSize b = size -> messages b = [] ->
             Add message b h = Panic (SliceBoundsOutOfRange 1 0)).
  { intros b message h Hm Hb. unfold Add. rewrite Hb, Hm. change (Z.of_nat (length [])) with 0.
    replace (0 >=? size) with true by (symmetry; apply Z.geb_le; lia). reflexivity. }
  split; [|split; [|split]].
  - intros ->. eexists. split; [reflexivity|]. intros. by apply Hadd.
  - intros Hn. apply NewMessageBuffer_Panic. by left.
  - exact Hadd.
  - intros size' Hs' (b & Hb & Hp).
    destruct (NewMessageBuffer_Ok _ _ Hb) as (-> & _ & _).
    specialize (Hp one_byte [[x00]]). rewrite Add_ok in Hp; [done|done|].
    left. simpl. lia.
Qed.

Lemma nonpositive_capacity_panics_witness :
  (0 = 0 -> panics_on_first_add 0)
  /\ (0 < 0 -> NewMessageBuffer 0 = Panic MakesliceCapOutOfRange)
  /\ (forall b message h,
        maxSize b = 0 -> messages b = [] ->
        Add message b h = Panic (SliceBoundsOutOfRange 1 0))
  /\ (forall size', 1 <= size' -> ~ panics_on_first_add size').
Proof. apply (nonpositive_capacity_panics 0). lia. Defined.

(** C10 as stated fails for a negative size: [NewMessageBuffer] panics
    before there is a buffer to call [Add] on. *)
Lemma negative_size_never_reaches_Add : ~ panics_on_first_add (-1).
Proof. intros (b & Hb & _). vm_compute in Hb. discriminate. Qed.

(** ** The other goroutines during a restart *)

Lemma quiet_refl s : quiet s s.
Proof. split; try done. exists []. by rewrite app_nil_r. Qed.

Lemma quiet_trans s1 s2 s3 : quiet s1 s2 -> quiet s2 s3 -> quiet s1 s3.
Proof.
  intros [] []. split; try congruence.
  destruct q_trace0 as (e1 & H1 & F1), q_trace1 as (e2 & H2 & F2).
  exists (e1 ++ e2). rewrite H2, H1, app_assoc. split; [done|].
  by apply Forall_app.
Qed.

Lemma Add_maxSize message b h b' h' :
  Add message b h = Ok (b', h') -> maxSize b' = maxSize b.
Proof.
  unfold Add. destruct (if _ >=? _ then _ else _) as [ms|]; [|done].
  unfold bind, make_bytes, copy, poke. by intros [= <- _].
Qed.

Lemma Add_panic message b h p :
  Add message b h = Panic p -> maxSize b <= 0 /\ messages b = [].
Proof.
  unfold Add. destruct (Z.of_nat (length (messages b)) >=? maxSize b) eqn:E.
  - unfold slice_from. destruct (messages b) as [|m ms]; simpl in *.
    + intros _. apply Z.geb_le in E. split; [lia|done].
    + done.
  - done.
Qed.

Lemma slice_to_le s n :
  (n <= s_len s)%nat -> slice_to s n = Ok (mkBytes (s_arr s) (s_off s) n (s_cap s - n)).
Proof.
  intros H. unfold slice_to, s_cap.
  by replace (n <=? s_len s + s_extra s)%nat with true by (symmetry; apply Nat.leb_le; lia).
Qed.

Ltac munfold :=
  unfold bindM, ret, get, modify, emit, logf, lift, defer in *; simpl in *.

Ltac quiet_tac :=
  split; try done; simpl;
  first [ by (exists []; split; [by rewrite app_nil_r | constructor])
        | by (eexists; split; [reflexivity | repeat constructor]) ].

Section Frames.

Context (env : Env).

Lemma proxyStdin_body_quiet buf data rerr s :
  restarting (proxy s) = true ->
  match proxyStdin_body env buf data rerr s with
  | Ok (_, s') => quiet s s'
  | Panic _ => maxSize (buffer (proxy s)) <= 0
  end.
Proof.
  intros Hr. unfold proxyStdin_body, Read_into. unfold bindM at 1.
  destruct (poke buf data (store s)) as [n h] eqn:Ep.
  assert (Hn : n = Nat.min (s_len buf) (length data)) by (by injection Ep as <- _).
  unfold bindM at 1. destruct (0 <? n)%nat eqn:En.
  - rewrite slice_to_le by lia. unfold bindM at 1. simpl.
    unfold bindM at 1. simpl. rewrite Hr.
    unfold bindM at 1, buffer_Add. simpl.
    destruct (Add _ _ _) as [[b' h']|p] eqn:EA.
    + apply Add_maxSize in EA. simpl.
      destruct rerr as [[| |]|]; munfold;
quiet_tac.
    + by apply Add_panic in EA as [? _].
  - simpl. destruct rerr as [[| |]|]; munfold;
quiet_tac.
Qed.

Lemma monitorProcess_body_quiet werr s :
  restarting (proxy s) = true ->
  exists s', monitorProcess_body env werr s = Ok (tt, s') /\ quiet s s'.
Proof.
  intros Hr. unfold monitorProcess_body. munfold. rewrite Hr. simpl.
  destruct werr; eexists; (split; [reflexivity|]); quiet_tac.
Qed.

Lemma act_quiet a s :
  restarting (proxy s) = true ->
  match act env a s with
  | Ok (_, s') => quiet s s'
  | Panic _ => maxSize (buffer (proxy s)) <= 0
  end.
Proof.
  intros Hr. destruct a as [data rerr|werr|]; unfold act.
  - unfold bindM at 1, get. destruct (stdin_loop s) as [buf|]; [|apply quiet_refl].
    unfold bindM at 1. destruct (ctx_done s); [quiet_tac|].
    unfold bindM at 1.
    pose proof (proxyStdin_body_quiet buf data rerr s Hr) as Hb.
    destruct (proxyStdin_body env buf data rerr s) as [[go_on s']|p]; [|done].
    destruct go_on; [done|]. munfold.
    eapply quiet_trans; [exact Hb|]. quiet_tac.
  - unfold bindM at 1, get. destruct (monitor_loop s); [|apply quiet_refl].
    unfold bindM at 1. destruct (ctx_done s); [quiet_tac|].
    destruct (monitorProcess_body_quiet werr s Hr) as (s' & -> & Hq). done.
  - quiet_tac.
Qed.

Lemma acts_quiet l :
  forall s, restarting (proxy s) = true ->
  match acts env l s with
  | Ok (_, s') => quiet s s'
  | Panic _ => maxSize (buffer (proxy s)) <= 0
  end.
Proof.
  induction l as [|a l IH]; intros s Hr; simpl.
  - apply quiet_refl.
  - unfold bindM. pose proof (act_quiet a s Hr) as Ha.
    destruct (act env a s) as [[[] s1]|p]; [|done].
    assert (Hr1 : restarting (proxy s1) = true) by (by rewrite (q_restarting _ _ Ha)).
    specialize (IH s1 Hr1).
    destruct (acts env l s1) as [[[] s2]|p]; [by eapply quiet_trans|].
    by rewrite <- (q_maxSize _ _ Ha).
Qed.

Lemma yield_quiet s :
  restarting (proxy s) = true ->
  match yield env s with
  | Ok (_, s') => quiet s s'
  | Panic _ => maxSize (buffer (proxy s)) <= 0
  end.
Proof.
  intros Hr. unfold yield, bindM at 1, get.
  destruct (pending s) as [|batch rest]; [apply quiet_refl|].
  unfold bindM, modify.
  pose proof (acts_quiet batch (set_pending rest s) Hr) as Ha.
  destruct (acts env batch (set_pending rest s)) as [[[] s1]|p]; [|done].
  eapply quiet_trans; [|exact Ha]. quiet_tac.
Qed.

End Frames.

(** ** The restart cycle *)

Lemma wp_bind {A B} X (m : M A) (k : A -> M B) s Q :
  wp X m s (fun a s' => wp X (k a) s' Q) -> wp X (bindM m k) s Q.
Proof. unfold wp, bindM. by destruct (m s) as [[a s']|p]. Qed.

Lemma wp_ret {A} X (a : A) s (Q : A -> State -> Prop) : Q a s -> wp X (ret a) s Q.
Proof. done. Qed.

Lemma wp_get {A} X (f : State -> A) s (Q : A -> State -> Prop) :
  Q (f s) s -> wp X (get f) s Q.
Proof. done. Qed.

Lemma wp_modify X f s (Q : unit -> State -> Prop) :
  Q tt (f s) -> wp X (modify f) s Q.
Proof. done. Qed.

Lemma wp_emit X e s (Q : unit -> State -> Prop) :
  Q tt (set_trace (trace s ++ [mkObs e (restarting (proxy s))]) s) -> wp X (emit e) s Q.
Proof. done. Qed.

Ltac wp_step :=
  lazymatch goal with
  | |- wp _ (bindM _ _) _ _ => apply wp_bind
  | |- wp _ (ret _) _ _ => apply wp_ret
  | |- wp _ (get _) _ _ => apply wp_get
  | |- wp _ (modify _) _ _ => apply wp_modify
  | |- wp _ (emit _) _ _ => apply wp_emit
  end.
Ltac wp_go := repeat wp_step; cbv beta.

Lemma cycle_steps_app t1 t2 : cycle_steps (t1 ++ t2) = cycle_steps t1 ++ cycle_steps t2.
Proof. unfold cycle_steps. by rewrite map_app, List.filter_app. Qed.

Lemma ic_start s :
  in_cycle s (set_proxy (set_restarting true) s) [] (process (proxy s)) (next_handle s).
Proof. repeat split; try done. exists []. by rewrite app_nil_r. Qed.

Lemma ic_emits s sk ops P N es :
  in_cycle s sk ops P N ->
  in_cycle s (set_trace (trace sk ++ map (fun e => mkObs e (restarting (proxy sk))) es) sk)
           (ops ++ List.filter is_cycle_step es) P N.
Proof.
  intros (Hr & Hm & Hd & Hb & HP & HN & evs & Ht & Hf & Hc).
  repeat split; try done.
  exists (evs ++ map (fun e => mkObs e (restarting (proxy sk))) es). simpl.
  rewrite Ht, app_assoc. split; [done|]. split.
  - apply Forall_app. split; [done|]. rewrite Hr.
    apply Forall_forall. intros o Ho. apply list_elem_of_In, in_map_iff in Ho as (e & <- & _). done.
  - rewrite cycle_steps_app, Hc. f_equal. unfold cycle_steps.
    rewrite map_map. simpl. by rewrite map_id.
Qed.

Lemma ic_emit s sk ops P N e :
  in_cycle s sk ops P N ->
  in_cycle s (set_trace (trace sk ++ [mkObs e (restarting (proxy sk))]) sk)
           (ops ++ List.filter is_cycle_step [e]) P N.
Proof. apply (ic_emits s sk ops P N [e]). Qed.

Lemma ic_quiet s sk sk' ops P N :
  in_cycle s sk ops P N -> quiet sk sk' -> in_cycle s sk' ops P N.
Proof.
  intros (Hr & Hm & Hd & Hb & HP & HN & evs & Ht & Hf & Hc) [].
  destruct q_trace0 as (q & Hq & Fq).
  repeat split; try congruence.
  exists (evs ++ q). rewrite Hq, Ht, app_assoc. split; [done|]. split.
  - apply Forall_app. split; [done|]. eapply Forall_impl; [exact Fq|]. by intros o [? _].
  - rewrite cycle_steps_app, Hc.
    assert (cycle_steps q = []) as ->; [|by rewrite app_nil_r].
    unfold cycle_steps. clear Hq. induction Fq as [|o q [_ Ho] _ IH]; [done|].
    simpl. by rewrite Ho.
Qed.

Lemma ic_next s sk ops P N n :
  in_cycle s sk ops P N -> in_cycle s (set_next_handle n sk) ops P n.
Proof. intros (Hr & Hm & Hd & Hb & HP & HN & Hev). by repeat split. Qed.

Lemma ic_process s sk ops P N h :
  in_cycle s sk ops P N -> in_cycle s (set_proxy (set_process h) sk) ops h N.
Proof. intros (Hr & Hm & Hd & Hb & HP & HN & Hev). by repeat split. Qed.

Lemma ic_buffer s sk ops P N b :
  maxSize b = maxSize (buffer (proxy sk)) ->
  in_cycle s sk ops P N -> in_cycle s (set_proxy (set_buffer b) sk) ops P N.
Proof. intros Hb' (Hr & Hm & Hd & Hb & HP & HN & Hev). repeat split; try done. simpl. congruence. Qed.

Section Restart.

Context (env : Env).

Lemma write_all_pipe h msgs :
  forall s, exists ws,
    (write_all (Stdin env h) msgs s).1
      = set_trace (trace s ++ map (fun w => mkObs w (restarting (proxy s))) ws) s
    /\ replay_events h msgs (write_all (Stdin env h) msgs s).2 ws.
Proof.
  induction msgs as [|m msgs IH]; intros s.
  - exists []. simpl. rewrite app_nil_r. by destruct s.
  - simpl.
    destruct (write_result env (trace s) h m) as [err|] eqn:Er.
    + exists [EvStdinWrite h m (Some err)]. simpl. split; [done|].
      by exists [], m, msgs.
    + set (s1 := set_trace _ s).
      destruct (IH s1) as (ws & Hs & Hw).
      exists (EvStdinWrite h m None :: ws). split.
      * rewrite Hs. unfold s1. simpl. unfold set_trace. simpl.
        by rewrite <- app_assoc.
      * destruct (write_all (Stdin env h) msgs s1).2 as [err|]; simpl in *.
        -- destruct Hw as (pre & d & post & -> & ->). by exists (m :: pre), d, post.
        -- by rewrite Hw.
Qed.

Lemma wp_yield (X : Prop) s (Q : unit -> State -> Prop) :
  restarting (proxy s) = true ->
  (maxSize (buffer (proxy s)) <= 0 -> X) ->
  (forall s', quiet s s' -> Q tt s') ->
  wp X (yield env) s Q.
Proof.
  intros Hr HX HQ. unfold wp. pose proof (yield_quiet env s Hr) as Hq.
  destruct (yield env s) as [[[] s']|p]; auto.
Qed.

Lemma wp_Replay X h s (Q : option error -> State -> Prop) :
  (forall e ws b,
      replay_events h (contents (buffer (proxy s)) (store s)) e ws ->
      maxSize b = maxSize (buffer (proxy s)) ->
      (e = None -> messages b = []) ->
      (forall err, e = Some err -> b = buffer (proxy s)) ->
      Q e (set_proxy (set_buffer b)
             (set_trace (trace s ++ map (fun w => mkObs w (restarting (proxy s))) ws) s))) ->
  wp X (buffer_Replay (Stdin env h)) s Q.
Proof.
  intros HQ. unfold wp, buffer_Replay, Replay.
  destruct (write_all_pipe h (contents (buffer (proxy s)) (store s)) s) as (ws & Hs & Hw).
  unfold contents in *.
  destruct (write_all _ _ s) as [s' [err|]]; simpl in *; subst s'.
  - by apply (HQ (Some err) ws).
  - by apply (HQ None ws).
Qed.

Lemma wp_stop_log X (r : option error) t (Q : unit -> State -> Prop) :
  Q tt (set_trace (trace t ++ map (fun e => mkObs e (restarting (proxy t))) (stop_log r)) t) ->
  wp X match r with Some err => logf (LogErrorStopping err) | None => ret () end t Q.
Proof.
  intros HQ. destruct r; simpl in HQ; [done|]. rewrite app_nil_r in HQ. by destruct t.
Qed.

End Restart.

Ltac ic_step :=
  lazymatch goal with
  | |- in_cycle _ (set_proxy (set_restarting true) _) _ _ _ => apply ic_start
  | |- in_cycle _ (set_trace (trace _ ++ [_]) _) _ _ _ => apply ic_emit
  | |- in_cycle _ (set_trace (trace _ ++ map _ _) _) _ _ _ => apply ic_emits
  | |- in_cycle _ (set_next_handle _ _) _ _ _ => eapply ic_next
  | |- in_cycle _ (set_proxy (set_process _) _) _ _ _ => eapply ic_process
  | |- in_cycle _ (set_proxy (set_buffer _) _) _ _ _ => apply ic_buffer; [assumption|]
  | |- in_cycle _ ?x _ _ _ => is_var x; eapply ic_quiet; [|eassumption]
  end.
Ltac ic_solve := repeat ic_step.

(** At a preemption point inside the cycle: establish where the cycle
    stands, and go on from any state the other goroutines may leave. *)
Ltac wp_yield_ic s H s' Hq :=
  lazymatch goal with
  | |- wp _ (yield _) ?t _ =>
      eassert (H : in_cycle s t _ _ _) by ic_solve;
      apply wp_yield;
      [ exact (proj1 H)
      | rewrite (proj1 (proj2 H)); exact (fun x => x)
      | intros s' Hq ]
  end.

Lemma filter_stop_log r : List.filter is_cycle_step (stop_log r) = stop_log r.
Proof. by destruct r. Qed.

Lemma replay_events_filter h msgs e ws :
  replay_events h msgs e ws -> List.filter is_cycle_step ws = ws.
Proof.
  assert (Hmap : forall l, List.filter is_cycle_step (map (fun d => EvStdinWrite h d None) l)
                           = map (fun d => EvStdinWrite h d None) l).
  { induction l as [|d l IH]; simpl; [done|]. by rewrite IH. }
  destruct e as [err|]; simpl.
  - intros (pre & d & post & _ & ->). by rewrite List.filter_app, Hmap.
  - intros ->. apply Hmap.
Qed.

Ltac ic_close :=
  rewrite ?filter_stop_log, ?app_nil_r, <- ?app_assoc; simpl; congruence.

Ltac ic_facts s x :=
  let K := fresh "K" in
  eassert (K : in_cycle s x _ _ _) by ic_solve;
  destruct K as (_ & _ & ?D & ?B & ?P & ?N & _).

Section RestartCycle.

Context (env : Env).

Lemma restartPHP_spec s :
  wp (maxSize (buffer (proxy s)) <= 0) (restartPHP env) s (fun r s' =>
      restarting (proxy s') = false
      /\ process (proxy s') = next_handle s
      /\ next_handle s' = S (next_handle s)
      /\ maxSize (buffer (proxy s')) = maxSize (buffer (proxy s))
      /\ exists evs rstop rstart ws,
          trace s' = trace s ++ evs
          /\ Forall (fun o => flag o = true) evs
          /\ cycle_steps evs
              = EvStop (process (proxy s)) rstop :: stop_log rstop
                ++ EvNewProcess (next_handle s)
                :: EvStart (next_handle s) (workingDir (proxy s)) (phpBinary (proxy s)) rstart
                :: ws
          /\ match rstart with
             | Some e => ws = [] /\ r = Some (Wrap "failed to start new PHP process" e)
             | None =>
                 exists msgs e,
                   replay_events (next_handle s) msgs e ws
                   /\ r = Wrap "failed to replay messages" <$> e
             end).
Proof.
  unfold restartPHP, defer, stopPHP, startPHP, Stop, Start, NewPHPProcess, buffer_Len.
  wp_go. unfold logf at 1. wp_go.
  wp_yield_ic s H1 s1 Hq1. wp_go.
  set (rstop := stop_result env (trace s1) (process (proxy s1))). clearbody rstop.
  apply wp_stop_log. wp_go.
  wp_yield_ic s H2 s2 Hq2. wp_go.
  wp_yield_ic s H3 s3 Hq3. unfold logf at 1. wp_go.
  set (rstart := start_result env _ _ _ _). clearbody rstart.
  destruct rstart as [err|].
  - wp_go. wp_yield_ic s H4 s4 Hq4. wp_go.
    ic_facts s s1. ic_facts s s2. ic_facts s s3.
    eassert (K : in_cycle s s4 _ _ _) by ic_solve.
    destruct K as (Hr & Hm & Hd & Hb & HP & HN & evs & Ht & Hf & Hc).
    simpl. repeat split; try congruence.
    exists evs, rstop, (Some err), []. repeat split; try done.
    rewrite Hc. ic_close.
  - wp_go. wp_yield_ic s H4 s4 Hq4. wp_go.
    destruct (0 <? Len (buffer (proxy s4))) eqn:EL.
    + unfold logf at 1. wp_go. wp_yield_ic s H5 s5 Hq5. wp_go.
      apply wp_Replay. intros e ws b Hws Hmb Hnone Hsome.
      destruct e as [err|].
      * wp_go. wp_yield_ic s H6 s6 Hq6. wp_go.
        ic_facts s s1. ic_facts s s2. ic_facts s s3. ic_facts s s4. ic_facts s s5.
        eassert (K : in_cycle s s6 _ _ _) by ic_solve.
        destruct K as (Hr & Hm & Hd & Hb & HP & HN & evs & Ht & Hf & Hc).
        simpl. repeat split; try congruence.
        exists evs, rstop, None, ws. repeat split; try done.
        -- rewrite Hc, (replay_events_filter _ _ _ _ Hws). ic_close.
        -- eexists _, (Some err). split; [|done].
           replace (next_handle s) with (process (proxy s5)) by congruence. exact Hws.
      * wp_go. wp_yield_ic s H6 s6 Hq6. wp_go.
        ic_facts s s1. ic_facts s s2. ic_facts s s3. ic_facts s s4. ic_facts s s5.
        eassert (K : in_cycle s s6 _ _ _) by ic_solve.
        destruct K as (Hr & Hm & Hd & Hb & HP & HN & evs & Ht & Hf & Hc).
        simpl. repeat split; try congruence.
        exists evs, rstop, None, ws. repeat split; try done.
        -- rewrite Hc, (replay_events_filter _ _ _ _ Hws). ic_close.
        -- eexists _, None. split; [|done].
           replace (next_handle s) with (process (proxy s5)) by congruence. exact Hws.
    + wp_go. wp_yield_ic s H5 s5 Hq5. wp_go.
      ic_facts s s1. ic_facts s s2. ic_facts s s3. ic_facts s s4.
      eassert (K : in_cycle s s5 _ _ _) by ic_solve.
      destruct K as (Hr & Hm & Hd & Hb & HP & HN & evs & Ht & Hf & Hc).
      simpl. repeat split; try congruence.
      exists evs, rstop, None, []. repeat split; try done.
      -- rewrite Hc. ic_close.
      -- by exists [], None.
Qed.

End RestartCycle.

(** ** What a restart cycle does *)

Ltac trace_tac :=
  rewrite <- ?app_assoc, drop_app_length; rewrite ?map_app, ?map_map; simpl;
  rewrite ?map_id; by rewrite <- ?app_assoc.

Section Cycle.

Context (env : Env).

Lemma wp_yield_nil (X : Prop) s (Q : unit -> State -> Prop) :
  pending s = [] -> Q tt s -> wp X (yield env) s Q.
Proof. intros Hp HQ. unfold wp, yield, bindM, get. by rewrite Hp. Qed.

(** A cycle that no other goroutine interferes with: the complete
    list of its events. *)
Lemma restartPHP_alone s :
  pending s = [] ->
  exists r s' rstop rstart e ws,
    restartPHP env s = Ok (r, s')
    /\ replay_events (next_handle s) (contents (buffer (proxy s)) (store s)) e ws
    /\ map what (drop (length (trace s)) (trace s'))
       = [EvLog LogBuffering; EvStop (process (proxy s)) rstop] ++ stop_log rstop
         ++ [EvNewProcess (next_handle s); EvLog LogStartingPHP;
             EvStart (next_handle s) (workingDir (proxy s)) (phpBinary (proxy s)) rstart]
         ++ match rstart with
            | Some _ => []
            | None =>
                if 0 <? Len (buffer (proxy s))
                then EvLog (LogReplaying (Len (buffer (proxy s)))) :: ws
                else []
            end
    /\ r = match rstart with
           | Some err => Some (Wrap "failed to start new PHP process" err)
           | None => if 0 <? Len (buffer (proxy s))
                     then Wrap "failed to replay messages" <$> e
                     else None
           end
    /\ contents (buffer (proxy s')) (store s')
       = match r with
         | None => if 0 <? Len (buffer (proxy s)) then []
                   else contents (buffer (proxy s)) (store s)
         | Some _ => contents (buffer (proxy s)) (store s)
         end.
Proof.
  intros Hp.
  enough (wp False (restartPHP env) s (fun r s' =>
    exists rstop rstart e ws,
      replay_events (next_handle s) (contents (buffer (proxy s)) (store s)) e ws
      /\ map what (drop (length (trace s)) (trace s'))
         = [EvLog LogBuffering; EvStop (process (proxy s)) rstop] ++ stop_log rstop
           ++ [EvNewProcess (next_handle s); EvLog LogStartingPHP;
               EvStart (next_handle s) (workingDir (proxy s)) (phpBinary (proxy s)) rstart]
           ++ match rstart with
              | Some _ => []
              | None =>
                  if 0 <? Len (buffer (proxy s))
                  then EvLog (LogReplaying (Len (buffer (proxy s)))) :: ws
                  else []
              end
      /\ r = match rstart with
             | Some err => Some (Wrap "failed to start new PHP process" err)
             | None => if 0 <? Len (buffer (proxy s))
                       then Wrap "failed to replay messages" <$> e
                       else None
             end
      /\ contents (buffer (proxy s')) (store s')
         = match r with
           | None => if 0 <? Len (buffer (proxy s)) then []
                     else contents (buffer (proxy s)) (store s)
           | Some _ => contents (buffer (proxy s)) (store s)
           end)) as Hwp.
  { unfold wp in Hwp. destruct (restartPHP env s) as [[r s']|p]; [|done].
    destruct Hwp as (rstop & rstart & e & ws & H). by exists r, s', rstop, rstart, e, ws. }
  unfold restartPHP, defer, stopPHP, startPHP, Stop, Start, NewPHPProcess, buffer_Len.
  wp_go. unfold logf at 1. wp_go.
  apply wp_yield_nil; [done|]. wp_go.
  set (rstop := stop_result env _ _). clearbody rstop.
  apply wp_stop_log. wp_go.
  apply wp_yield_nil; [done|]. wp_go.
  apply wp_yield_nil; [done|]. unfold logf at 1. wp_go.
  set (rstart := start_result env _ _ _ _). clearbody rstart.
  destruct rstart as [err|].
  - wp_go. apply wp_yield_nil; [done|]. wp_go.
    exists rstop, (Some err), None, (map (fun d => EvStdinWrite (next_handle s) d None)
                                         (contents (buffer (proxy s)) (store s))).
    split; [done|]. simpl. split; [|done].
    trace_tac.
  - wp_go. apply wp_yield_nil; [done|]. wp_go. simpl.
    destruct (0 <? Len (buffer (proxy s))) eqn:EL.
    + unfold logf at 1. wp_go. apply wp_yield_nil; [done|]. wp_go.
      apply wp_Replay. intros e ws b Hws Hmb Hnone Hsome. simpl in *.
      assert (Hcont : contents b (store s)
                      = match Wrap "failed to replay messages" <$> e with
                        | None => []
                        | Some _ => contents (buffer (proxy s)) (store s)
                        end).
      { destruct e as [err|]; simpl.
        - by rewrite (Hsome err).
        - unfold contents. by rewrite Hnone. }
      destruct e as [err|]; wp_go; (apply wp_yield_nil; [done|]); wp_go;
        [exists rstop, None, (Some err), ws | exists rstop, None, None, ws];
        (split; [done|]); simpl; (split; [|done]);
        trace_tac.
    + wp_go. apply wp_yield_nil; [done|]. wp_go.
      exists rstop, None, None, (map (fun d => EvStdinWrite (next_handle s) d None)
                                     (contents (buffer (proxy s)) (store s))).
      split; [done|]. simpl. split; [|done].
      trace_tac.
Qed.

(** C4: the flag is set before the stop of the old worker is initiated
    and stays set through every event of the cycle, those of the other
    goroutines included; when [restartPHP] returns, whether with
    success, a start error or a replay error, the flag is false. The
    only way not to return is a panic of [Add] in [proxyStdin], which
    needs a buffer of capacity below 1. *)
Theorem restartPHP_flag_span (s : State) :
  match restartPHP env s with
  | Ok (r, s') =>
      restarting (proxy s') = false
      /\ (exists evs rstop,
            trace s' = trace s ++ evs
            /\ Forall (fun o => flag o = true) evs
            /\ mkObs (EvStop (process (proxy s)) rstop) true ∈ evs)
      /\ (r = None
          \/ (exists e, r = Some (Wrap "failed to start new PHP process" e))
          \/ (exists e, r = Some (Wrap "failed to replay messages" e)))
  | Panic _ => maxSize (buffer (proxy s)) <= 0
  end.
Proof.
  pose proof (restartPHP_spec env s) as H. unfold wp in H.
  destruct (restartPHP env s) as [[r s']|p]; [|done].
  destruct H as (Hr & _ & _ & _ & evs & rstop & rstart & ws & Ht & Hf & Hc & Hres).
  split; [done|]. split.
  - exists evs, rstop. split; [done|]. split; [done|].
    assert (Hin : In (EvStop (process (proxy s)) rstop) (cycle_steps evs)).
    { rewrite Hc. by left. }
    unfold cycle_steps in Hin. apply filter_In in Hin as [Hin _].
    apply in_map_iff in Hin as ([e f] & He & Hin). simpl in He. subst e.
    apply list_elem_of_In in Hin.
    rewrite Forall_forall in Hf. by rewrite <- (Hf _ Hin).
  - destruct rstart as [e|].
    + destruct Hres as [_ ->]. right. left. by exists e.
    + destruct Hres as (msgs & [e|] & _ & ->); simpl.
      * right. right. by exists e.
      * by left.
Qed.


End Cycle.


(** ** The other goroutines in general, and the crash monitor *)

Lemma stable_refl s : stable s s.
Proof. split; try done. exists []. by rewrite app_nil_r. Qed.

Lemma stable_trans s1 s2 s3 : stable s1 s2 -> stable s2 s3 -> stable s1 s3.
Proof.
  intros [] []. split; try congruence.
  destruct st_trace0 as (e1 & H1), st_trace1 as (e2 & H2).
  exists (e1 ++ e2). by rewrite H2, H1, app_assoc.
Qed.

Lemma quiet_stable s s' : quiet s s' -> stable s s'.
Proof. intros []. split; try done. destruct q_trace0 as (evs & H & _). by exists evs. Qed.

Ltac stable_tac :=
  split; try done; simpl;
  first [ by (exists []; by rewrite app_nil_r)
        | by (eexists; rewrite <- ?app_assoc; reflexivity) ].

Section Others.

Context (env : Env).

(** What one pass of the crash monitor does when the flag is not set
    and [Wait] reports an error. *)
Lemma monitorProcess_body_respawn err s :
  restarting (proxy s) = false ->
  exists s',
    monitorProcess_body env (Some err) s = Ok (tt, s')
    /\ map what (drop (length (trace s)) (trace s'))
       = [EvWait (process (proxy s)) (Some err);
          EvLog (LogDiedUnexpectedly err); EvLog LogAttemptingRestart;
          EvNewProcess (next_handle s); EvLog LogStartingPHP;
          EvStart (next_handle s) (workingDir (proxy s)) (phpBinary (proxy s))
            (start_result env
               (trace s ++ map (fun e => mkObs e false)
                  [EvWait (process (proxy s)) (Some err);
                   EvLog (LogDiedUnexpectedly err); EvLog LogAttemptingRestart;
                   EvNewProcess (next_handle s); EvLog LogStartingPHP])
               (next_handle s) (workingDir (proxy s)) (phpBinary (proxy s)))]
         ++ match start_result env
                    (trace s ++ map (fun e => mkObs e false)
                       [EvWait (process (proxy s)) (Some err);
                        EvLog (LogDiedUnexpectedly err); EvLog LogAttemptingRestart;
                        EvNewProcess (next_handle s); EvLog LogStartingPHP])
                    (next_handle s) (workingDir (proxy s)) (phpBinary (proxy s)) with
            | Some e => [EvLog (LogFailedRestart e); EvSleep second]
            | None => []
            end
    /\ process (proxy s') = next_handle s
    /\ next_handle s' = S (next_handle s)
    /\ restarting (proxy s') = false
    /\ buffer (proxy s') = buffer (proxy s)
    /\ pending s' = pending s
    /\ stable s s'.
Proof.
  intros Hr. unfold monitorProcess_body, startPHP, Start, NewPHPProcess.
  munfold. rewrite Hr. simpl. rewrite <- !app_assoc. simpl. rewrite ?Hr.
  destruct (start_result env _ _ _ _) as [e|] eqn:E; simpl; rewrite ?Hr;
    eexists; (split; [reflexivity|]); simpl;
    rewrite <- ?app_assoc, drop_app_length; simpl;
    split_and!; try done; stable_tac.
Qed.

Lemma monitorProcess_body_idle werr s :
  werr = None \/ restarting (proxy s) = true ->
  monitorProcess_body env werr s
  = Ok (tt, set_trace (trace s ++ [mkObs (EvWait (process (proxy s)) werr)
                                         (restarting (proxy s))]) s).
Proof.
  intros H. unfold monitorProcess_body. munfold.
  destruct werr as [err|]; [|done]. destruct H as [H|H]; [done|by rewrite H].
Qed.

Lemma monitorProcess_body_stable werr s :
  exists s', monitorProcess_body env werr s = Ok (tt, s') /\ stable s s'.
Proof.
  destruct werr as [err|]; [destruct (restarting (proxy s)) eqn:Hr|].
  - rewrite monitorProcess_body_idle by auto. eexists. split; [done|]. stable_tac.
  - destruct (monitorProcess_body_respawn err s Hr) as (s' & -> & H).
    exists s'. split; [done|]. apply H.
  - rewrite monitorProcess_body_idle by auto. eexists. split; [done|]. stable_tac.
Qed.

Lemma count_starts_app t1 t2 :
  count_starts (t1 ++ t2) = (count_starts t1 + count_starts t2)%nat.
Proof. unfold count_starts. by rewrite map_app, List.filter_app, length_app. Qed.

(** C5, as the code has it: when [Wait] returns an error while the
    flag is not set, the monitor logs the unexpected exit and makes
    exactly one attempt to start a worker, on a fresh handle, without a
    stop and without touching the schedule of the timer; a failed
    attempt is logged and followed by the one-second pause. When
    [Wait] returns nil, that pass of the monitor starts nothing. *)
Theorem monitor_respawns_on_error (err : error) (s : State) :
  restarting (proxy s) = false ->
  respawns_once env (Some err) s
  /\ (exists s',
        monitorProcess_body env (Some err) s = Ok (tt, s')
        /\ map what (drop (length (trace s)) (trace s'))
           = [EvWait (process (proxy s)) (Some err);
              EvLog (LogDiedUnexpectedly err); EvLog LogAttemptingRestart;
              EvNewProcess (next_handle s); EvLog LogStartingPHP;
              EvStart (next_handle s) (workingDir (proxy s)) (phpBinary (proxy s))
                (start_result env
                   (trace s ++ map (fun e => mkObs e false)
                      [EvWait (process (proxy s)) (Some err);
                       EvLog (LogDiedUnexpectedly err); EvLog LogAttemptingRestart;
                       EvNewProcess (next_handle s); EvLog LogStartingPHP])
                   (next_handle s) (workingDir (proxy s)) (phpBinary (proxy s)))]
             ++ match start_result env
                        (trace s ++ map (fun e => mkObs e false)
                           [EvWait (process (proxy s)) (Some err);
                            EvLog (LogDiedUnexpectedly err); EvLog LogAttemptingRestart;
                            EvNewProcess (next_handle s); EvLog LogStartingPHP])
                        (next_handle s) (workingDir (proxy s)) (phpBinary (proxy s)) with
                | Some e => [EvLog (LogFailedRestart e); EvSleep second]
                | None => []
                end
        /\ process (proxy s') = next_handle s
        /\ pending s' = pending s)
  /\ (monitor_loop s = true -> ctx_done s = false ->
      act env (WorkerExit (Some err)) s = monitorProcess_body env (Some err) s)
  /\ ~ respawns_once env None s.
Proof.
  intros Hr.
  destruct (monitorProcess_body_respawn err s Hr)
    as (s' & Hrun & Hev & HP & HN & _ & _ & Hp & Hst).
  split_and!.
  - exists s'. split; [done|].
    destruct (st_trace _ _ Hst) as (evs & Ht). rewrite Ht, drop_app_length in Hev.
    rewrite Ht, count_starts_app. unfold count_starts at 2. rewrite Hev.
    destruct (start_result env _ _ _ _); simpl; lia.
  - by exists s'.
  - intros Hm Hc. unfold act. munfold. by rewrite Hm, Hc.
  - intros (s'' & Hrun' & Hcount).
    rewrite monitorProcess_body_idle in Hrun' by auto. injection Hrun' as <-.
    simpl in Hcount. rewrite count_starts_app in Hcount.
    unfold count_starts at 2 in Hcount. simpl in Hcount. lia.
Qed.

End Others.

Lemma monitor_respawns_on_error_witness :
  restarting (proxy (boot [])) = false
  /\ respawns_once env_ok (Some (Err "exit status 255")) (boot []).
Proof.
  split; [reflexivity|].
  apply (monitor_respawns_on_error env_ok (Err "exit status 255") (boot [])).
  reflexivity.
Defined.

(** C5 as stated, "regardless of the worker's exit status", fails: when
    [Wait] reports the exit without an error, nothing is started. *)
Lemma clean_exit_is_not_respawned : ~ respawns_once env_ok None (boot []).
Proof.
  intros (s' & Hrun & Hcount). vm_compute in Hrun. injection Hrun as <-.
  vm_compute in Hcount. discriminate.
Qed.

(** ** Input forwarding *)

Section Forwarding.

Context (env : Env).

Lemma stdin_ok_lim buf s :
  stdin_ok buf s = true -> (S (s_arr buf) <= length (store s))%nat.
Proof. intros [H _]%andb_prop. apply validb_lt in H. lia. Qed.

Lemma read_message buf data (h : heap) :
  validb h buf = true ->
  read (poke buf data h).2
    (mkBytes (s_arr buf) (s_off buf) (Nat.min (s_len buf) (length data))
             (s_cap buf - Nat.min (s_len buf) (length data)))
  = take (s_len buf) data.
Proof. apply read_poke_eq. Qed.

Lemma validb_message buf data (h : heap) :
  validb h buf = true ->
  validb (poke buf data h).2
    (mkBytes (s_arr buf) (s_off buf) (Nat.min (s_len buf) (length data))
             (s_cap buf - Nat.min (s_len buf) (length data))) = true.
Proof.
  intros Hv. unfold validb, poke in *. simpl.
  destruct (h !! s_arr buf) as [a|] eqn:Ea; [|done]. simpl.
  rewrite list_lookup_insert_eq by (by eapply lookup_lt_Some).
  apply Nat.leb_le in Hv. apply Nat.leb_le.
  rewrite !length_app, !length_take, length_drop. lia.
Qed.

(** A chunk read while the flag is set goes into the buffer and
    nowhere else. *)
Lemma proxyStdin_body_buffers buf data rerr s :
  restarting (proxy s) = true ->
  stdin_ok buf s = true ->
  (0 < Nat.min (s_len buf) (length data))%nat ->
  1 <= maxSize (buffer (proxy s)) ->
  exists go_on s',
    proxyStdin_body env buf data rerr s = Ok (go_on, s')
    /\ contents (buffer (proxy s')) (store s')
       = (if Len (buffer (proxy s)) >=? maxSize (buffer (proxy s))
          then drop 1 (contents (buffer (proxy s)) (store s))
          else contents (buffer (proxy s)) (store s))
         ++ [take (s_len buf) data]
    /\ stdin_writes (trace s') = stdin_writes (trace s)
    /\ go_on = match rerr with Some _ => false | None => true end
    /\ trace s' = trace s ++ match rerr with
                             | Some EOF | None => []
                             | Some err => [mkObs (EvLog (LogErrorReadingStdin err)) true]
                             end
    /\ stdin_ok buf s' = true
    /\ quiet s s'
    /\ stdin_loop s' = stdin_loop s /\ ctx_done s' = ctx_done s
    /\ pending s' = pending s /\ monitor_loop s' = monitor_loop s.
Proof.
  intros Hr Hok Hn Hcap.
  pose proof (stdin_ok_lim _ _ Hok) as Hlim.
  apply andb_prop in Hok as [Hv Hb].
  set (h1 := (poke buf data (store s)).2).
  set (message := mkBytes (s_arr buf) (s_off buf) (Nat.min (s_len buf) (length data))
                          (s_cap buf - Nat.min (s_len buf) (length data))).
  assert (Hvm : validb h1 message = true) by by apply validb_message.
  assert (Hb1 : buffer_ok (S (s_arr buf)) (buffer (proxy s)) h1 = true)
    by by apply buffer_ok_poke.
  destruct (Add_contents (S (s_arr buf)) message (buffer (proxy s)) h1)
    as (b' & h' & HAdd & Hc & Hm & Hok' & Hh'); auto.
  { unfold h1. by rewrite poke_length. }
  { destruct (messages (buffer (proxy s))); [left; simpl; lia | by right]. }
  unfold proxyStdin_body, Read_into. unfold bindM at 1.
  change (poke buf data (store s)) with (Nat.min (s_len buf) (length data), h1).
  cbv iota beta. unfold bindM at 1.
  replace (0 <? Nat.min (s_len buf) (length data))%nat with true
    by (symmetry; by apply Nat.ltb_lt).
  rewrite slice_to_le by lia. fold message.
  unfold bindM at 1. simpl lift. cbv iota beta.
  unfold bindM at 1. unfold get at 1. cbv iota beta.
  change (restarting (proxy (set_store h1 s))) with (restarting (proxy s)).
  rewrite Hr. unfold bindM at 1, buffer_Add.
  change (buffer (proxy (set_store h1 s))) with (buffer (proxy s)).
  change (store (set_store h1 s)) with h1.
  rewrite HAdd. cbv iota beta. unfold ret at 1. cbv iota beta.
  assert (Hcont : contents b' h'
                  = (if Len (buffer (proxy s)) >=? maxSize (buffer (proxy s))
                     then drop 1 (contents (buffer (proxy s)) (store s))
                     else contents (buffer (proxy s)) (store s))
                    ++ [take (s_len buf) data]).
  { rewrite Hc. unfold h1 at 1 2. rewrite (contents_poke (S (s_arr buf))) by (auto; lia).
    f_equal. f_equal. unfold message. by apply read_message. }
  assert (Hok2 : validb h' buf = true).
  { subst h'. apply validb_app. by apply validb_poke. }
  destruct rerr as [[| |]|]; munfold; rewrite ?Hr;
    eexists _, _; (split; [reflexivity|]); simpl;
    split_and!; try done;
    first [ by (unfold stdin_ok; simpl; rewrite Hok2, Hok')
          | by (unfold stdin_writes; rewrite omap_app; simpl; rewrite app_nil_r)
          | by rewrite app_nil_r
          | quiet_tac ].
Qed.

(** A chunk read while the flag is not set is written to the current
    worker's input pipe; the buffer is not touched. A failed write is
    logged and ends the loop. *)
Lemma proxyStdin_body_direct buf data rerr s :
  restarting (proxy s) = false ->
  validb (store s) buf = true ->
  (0 < Nat.min (s_len buf) (length data))%nat ->
  exists go_on s',
    proxyStdin_body env buf data rerr s = Ok (go_on, s')
    /\ stdin_writes (trace s')
       = stdin_writes (trace s)
         ++ [(process (proxy s), take (s_len buf) data,
              write_result env (trace s) (process (proxy s)) (take (s_len buf) data))]
    /\ buffer (proxy s') = buffer (proxy s)
    /\ (forall e,
          write_result env (trace s) (process (proxy s)) (take (s_len buf) data) = Some e ->
          go_on = false
          /\ map what (drop (length (trace s)) (trace s'))
             = [EvStdinWrite (process (proxy s)) (take (s_len buf) data) (Some e);
                EvLog (LogErrorWritingStdin e)])
    /\ stable s s'.
Proof.
  intros Hr Hv Hn.
  set (h1 := (poke buf data (store s)).2).
  set (message := mkBytes (s_arr buf) (s_off buf) (Nat.min (s_len buf) (length data))
                          (s_cap buf - Nat.min (s_len buf) (length data))).
  assert (Hread : read h1 message = take (s_len buf) data) by by apply read_message.
  unfold proxyStdin_body, Read_into. unfold bindM at 1.
  change (poke buf data (store s)) with (Nat.min (s_len buf) (length data), h1).
  cbv iota beta. unfold bindM at 1.
  replace (0 <? Nat.min (s_len buf) (length data))%nat with true
    by (symmetry; by apply Nat.ltb_lt).
  rewrite slice_to_le by lia. fold message.
  unfold bindM at 1. simpl lift. cbv iota beta.
  unfold bindM at 1. unfold get at 1. cbv iota beta.
  change (restarting (proxy (set_store h1 s))) with (restarting (proxy s)).
  rewrite Hr. unfold pipe_Write. munfold. fold h1. rewrite Hread, Hr.
  destruct (write_result env (trace s) (process (proxy s)) (take (s_len buf) data))
    as [e|] eqn:Ew; simpl.
  - eexists _, _. split; [reflexivity|]. simpl. split_and!; try done.
    + unfold stdin_writes. rewrite <- app_assoc, !omap_app. simpl. by rewrite ?app_nil_r.
    + intros e' [= <-]. split; [done|]. rewrite <- app_assoc. by rewrite drop_app_length.
    + stable_tac.
  - destruct rerr as [[| |]|]; simpl; eexists _, _; (split; [reflexivity|]); simpl;
      (split_and!; try done;
       [ unfold stdin_writes; rewrite <- ?app_assoc, !omap_app; simpl;
         by rewrite ?app_nil_r
       | stable_tac ]).
Qed.

Lemma proxyStdin_body_stable buf data rerr s :
  match proxyStdin_body env buf data rerr s with
  | Ok (_, s') => stable s s'
  | Panic _ => maxSize (buffer (proxy s)) <= 0
  end.
Proof.
  destruct (restarting (proxy s)) eqn:Hr.
  { pose proof (proxyStdin_body_quiet env buf data rerr s Hr) as H.
    destruct (proxyStdin_body env buf data rerr s) as [[? ?]|?]; [|done].
    by apply quiet_stable. }
  unfold proxyStdin_body, Read_into. unfold bindM at 1.
  destruct (poke buf data (store s)) as [n h] eqn:Ep.
  assert (Hn : n = Nat.min (s_len buf) (length data)) by (by injection Ep as <- _).
  unfold bindM at 1. destruct (0 <? n)%nat eqn:En.
  - rewrite slice_to_le by lia. unfold bindM at 1. simpl.
    unfold bindM at 1. simpl. rewrite Hr. unfold pipe_Write. munfold.
    destruct (write_result env _ _ _) as [e|]; simpl; [stable_tac|].
    destruct rerr as [[| |]|]; simpl; stable_tac.
  - simpl. destruct rerr as [[| |]|]; munfold; stable_tac.
Qed.

Lemma act_stable a s :
  match act env a s with
  | Ok (_, s') => stable s s'
  | Panic _ => maxSize (buffer (proxy s)) <= 0
  end.
Proof.
  destruct a as [data rerr|werr|]; unfold act.
  - unfold bindM at 1, get. destruct (stdin_loop s) as [buf|]; [|apply stable_refl].
    unfold bindM at 1. destruct (ctx_done s); [stable_tac|].
    unfold bindM at 1.
    pose proof (proxyStdin_body_stable buf data rerr s) as Hb.
    destruct (proxyStdin_body env buf data rerr s) as [[go_on s']|p]; [|done].
    destruct go_on; [done|]. munfold.
    eapply stable_trans; [exact Hb|]. stable_tac.
  - unfold bindM at 1, get. destruct (monitor_loop s); [|apply stable_refl].
    unfold bindM at 1. destruct (ctx_done s); [stable_tac|].
    destruct (monitorProcess_body_stable env werr s) as (s' & -> & Hq). done.
  - stable_tac.
Qed.

Lemma acts_stable l :
  forall s,
  match acts env l s with
  | Ok (_, s') => stable s s'
  | Panic _ => maxSize (buffer (proxy s)) <= 0
  end.
Proof.
  induction l as [|a l IH]; intros s; simpl.
  - apply stable_refl.
  - unfold bindM. pose proof (act_stable a s) as Ha.
    destruct (act env a s) as [[[] s1]|p]; [|done].
    specialize (IH s1).
    destruct (acts env l s1) as [[[] s2]|p]; [by eapply stable_trans|].
    by rewrite <- (st_maxSize _ _ Ha).
Qed.

Lemma yield_stable s :
  match yield env s with
  | Ok (_, s') => stable s s'
  | Panic _ => maxSize (buffer (proxy s)) <= 0
  end.
Proof.
  unfold yield, bindM at 1, get.
  destruct (pending s) as [|batch rest]; [apply stable_refl|].
  unfold bindM, modify.
  pose proof (acts_stable batch (set_pending rest s)) as Ha.
  destruct (acts env batch (set_pending rest s)) as [[[] s1]|p]; [|done].
  eapply stable_trans; [|exact Ha]. stable_tac.
Qed.

End Forwarding.

(** ** The main loop *)

Section MainLoop.

Context (env : Env).

Lemma restartPHP_stable s :
  match restartPHP env s with
  | Ok (_, s') => stable s s'
  | Panic _ => maxSize (buffer (proxy s)) <= 0
  end.
Proof.
  pose proof (restartPHP_spec env s) as H. unfold wp in H.
  destruct (restartPHP env s) as [[r s']|p]; [|done].
  destruct H as (_ & _ & _ & Hm & evs & _ & _ & _ & Ht & _).
  split; [done|]. by exists evs.
Qed.

(** A tick: the error of a failed restart cycle is logged, and the
    loop goes on. *)
Lemma on_tick_spec s :
  match on_tick env s with
  | Ok (_, s') =>
      stable s s'
      /\ exists r s1,
          restartPHP env (set_trace (trace s ++ [mkObs (EvLog LogRestartTimer)
                                                        (restarting (proxy s))]) s)
          = Ok (r, s1)
          /\ trace s' = trace s1 ++ match r with
                                   | Some err => [mkObs (EvLog (LogFailedRestart err))
                                                        (restarting (proxy s1))]
                                   | None => []
                                   end
  | Panic _ => maxSize (buffer (proxy s)) <= 0
  end.
Proof.
  unfold on_tick. unfold bindM at 1, logf at 1, emit at 1.
  set (s0 := set_trace _ s). unfold bindM at 1.
  pose proof (restartPHP_stable s0) as H.
  destruct (restartPHP env s0) as [[r s1]|p]; [|done].
  assert (H0 : stable s s0) by stable_tac.
  destruct r as [err|]; munfold.
  - split; [|by exists (Some err), s1].
    eapply stable_trans; [exact H0|]. eapply stable_trans; [exact H|]. stable_tac.
  - split; [by eapply stable_trans|]. exists None, s1. by rewrite app_nil_r.
Qed.

Lemma main_loop_spec wakeups :
  forall s,
  match main_loop env wakeups s with
  | Ok (res, s') =>
      stable s s'
      /\ (In CtxDone wakeups ->
          res = Some None
          /\ ctx_done s' = true
          /\ exists evs r,
              map what (trace s')
              = map what (trace s) ++ evs
                ++ [EvLog LogShuttingDown; EvStop (process (proxy s')) r])
      /\ (~ In CtxDone wakeups -> res = None)
  | Panic _ => maxSize (buffer (proxy s)) <= 0
  end.
Proof.
  induction wakeups as [|w wakeups IH]; intros s.
  - simpl. split; [apply stable_refl|]. split; [done|done].
  - destruct w; simpl.
    + unfold bindM at 1. pose proof (yield_stable env s) as Hy.
      destruct (yield env s) as [[[] s1]|p]; [|done].
      unfold bindM at 1. pose proof (on_tick_spec s1) as Ht.
      destruct (on_tick env s1) as [[[] s2]|p]; [|by rewrite <- (st_maxSize _ _ Hy)].
      destruct Ht as [Ht _]. specialize (IH s2).
      destruct (main_loop env wakeups s2) as [[res s3]|p].
      * destruct IH as (Hs & Hd & Hn).
        assert (H02 : stable s s2) by by eapply stable_trans.
        split; [by eapply stable_trans|]. split.
        -- intros [|Hin]; [done|]. destruct (Hd Hin) as (-> & Hc & evs & r & He).
           split; [done|]. split; [done|].
           destruct (st_trace _ _ H02) as (e02 & H02t).
           exists (map what e02 ++ evs), r. rewrite He, H02t, map_app.
           by rewrite <- !app_assoc.
        -- intros Hnin. apply Hn. intros Hin. apply Hnin. by right.
      * by rewrite <- (st_maxSize _ _ Hy), <- (st_maxSize _ _ Ht).
    + unfold bindM at 1. pose proof (yield_stable env s) as Hy.
      destruct (yield env s) as [[[] s1]|p]; [|done].
      unfold on_done, stopPHP, Stop. munfold.
      split; [eapply stable_trans; [exact Hy|]; stable_tac|].
      split; [|intros H; exfalso; apply H; by left].
      intros _. split; [done|]. split; [done|].
      destruct (st_trace _ _ Hy) as (e01 & H01).
      eexists (map what e01), _. rewrite H01, !map_app. simpl.
      by rewrite <- !app_assoc.
Qed.

End MainLoop.

(** C7: the claim has failures of stops logged and contained. At
    shutdown the code is not so: when the worker's [Stop] fails there,
    [Run] returns nil and not a line is logged about it, although the
    other call of [stopPHP], in [restartPHP], logs the same failure. *)
Lemma shutdown_stop_error_not_logged :
  (exists s',
     Run env_stop_fails [CtxDone] (boot []) = Ok (Some None, s')
     /\ In (EvStop 0 (Some (Err "kill failed"))) (map what (trace s'))
     /\ ~ stops_logged (trace s'))
  /\ (exists r s',
        restartPHP env_stop_fails (boot []) = Ok (r, s')
        /\ In (EvStop 0 (Some (Err "kill failed"))) (map what (trace s'))
        /\ stops_logged (trace s')).
Proof.
  split.
  - eexists. split; [vm_compute; reflexivity|]. split; [simpl; tauto|].
    intros H. specialize (H 0%nat (Err "kill failed")). simpl in H.
    assert (Hin : In (EvLog (LogErrorStopping (Err "kill failed")))
                     [EvNewProcess 0; EvLog LogStartingPHP;
                      EvStart 0 "/srv/debug-mcp" "php" None; EvNewTicker 60;
                      EvGo GoMonitorProcess; EvGo GoProxyStdio; EvGo GoProxyStdin;
                      EvGo GoProxyStdout; EvLog LogShuttingDown;
                      EvStop 0 (Some (Err "kill failed")); EvTickerStop]).
    { apply H. do 9 right. by left. }
    simpl in Hin. intuition discriminate.
  - eexists _, _. split; [vm_compute; reflexivity|]. split; [simpl; tauto|].
    intros h err Hin. simpl in Hin. simpl.
    repeat (destruct Hin as [Hin|Hin]; [try discriminate|]); [|done].
    injection Hin as _ <-. tauto.
Qed.

(** ** Chunks that arrive during a restart *)

Lemma lastn_evict {A} (n : nat) (c : list A) (x : A) (r : list A) :
  (1 <= n)%nat -> (length c <= n)%nat ->
  lastn n ((if (n <=? length c)%nat then drop 1 c else c) ++ [x] ++ r)
  = lastn n (c ++ x :: r).
Proof.
  intros Hn Hc. destruct (n <=? length c)%nat eqn:E; [|done].
  apply Nat.leb_le in E. destruct c as [|c0 c']; simpl in *; [lia|].
  rewrite drop_0. symmetry. apply lastn_cons. rewrite length_app. simpl. lia.
Qed.

Section Buffering.

Context (env : Env).

Lemma act_StdinRead_buffers buf data s :
  stdin_loop s = Some buf ->
  ctx_done s = false ->
  restarting (proxy s) = true ->
  stdin_ok buf s = true ->
  (0 < Nat.min (s_len buf) (length data))%nat ->
  1 <= maxSize (buffer (proxy s)) ->
  exists s',
    act env (StdinRead data None) s = Ok (tt, s')
    /\ contents (buffer (proxy s')) (store s')
       = (if Len (buffer (proxy s)) >=? maxSize (buffer (proxy s))
          then drop 1 (contents (buffer (proxy s)) (store s))
          else contents (buffer (proxy s)) (store s))
         ++ [take (s_len buf) data]
    /\ trace s' = trace s
    /\ stdin_ok buf s' = true
    /\ quiet s s'
    /\ stdin_loop s' = Some buf /\ ctx_done s' = false
    /\ pending s' = pending s.
Proof.
  intros Hl Hc Hr Hok Hn Hcap.
  destruct (proxyStdin_body_buffers env buf data None s Hr Hok Hn Hcap)
    as (go_on & s' & Hrun & Hcont & _ & -> & Ht & Hok' & Hq & Hl' & Hc' & Hp & _).
  exists s'. unfold act. munfold. rewrite Hl, Hc, Hrun. simpl.
  rewrite app_nil_r in Ht. split_and!; try done; congruence.
Qed.

(** A batch of chunks read while the flag is set: the buffer ends up
    with the last [maxSize] of what it held and of what arrived, and
    nothing was written to any worker. *)
Lemma acts_buffered buf chunks :
  forall s,
    stdin_loop s = Some buf ->
    ctx_done s = false ->
    restarting (proxy s) = true ->
    stdin_ok buf s = true ->
    1 <= maxSize (buffer (proxy s)) ->
    Len (buffer (proxy s)) <= maxSize (buffer (proxy s)) ->
    Forall (fun c => (0 < Nat.min (s_len buf) (length c))%nat) chunks ->
    exists s',
      acts env (map (fun c => StdinRead c None) chunks) s = Ok (tt, s')
      /\ contents (buffer (proxy s')) (store s')
         = lastn (Z.to_nat (maxSize (buffer (proxy s))))
                 (contents (buffer (proxy s)) (store s)
                  ++ map (take (s_len buf)) chunks)
      /\ trace s' = trace s
      /\ quiet s s'
      /\ pending s' = pending s.
Proof.
  induction chunks as [|c chunks IH]; intros s Hl Hc Hr Hok Hcap Hlen Hch.
  - exists s. simpl. rewrite app_nil_r. split_and!; try done; [|apply quiet_refl].
    symmetry. apply lastn_all. unfold contents, Len in *. rewrite length_map. lia.
  - apply Forall_cons in Hch as [Hc0 Hch].
    destruct (act_StdinRead_buffers buf c s Hl Hc Hr Hok Hc0 Hcap)
      as (s1 & Hrun & Hcont & Ht & Hok1 & Hq & Hl1 & Hc1 & Hp1).
    pose proof (q_maxSize _ _ Hq) as Hm.
    assert (Hlen1 : Len (buffer (proxy s1)) <= maxSize (buffer (proxy s1))).
    { apply (f_equal length) in Hcont. unfold contents, Len in *.
      rewrite length_app, length_map in Hcont. simpl in Hcont. rewrite Hm.
      destruct (_ >=? _) eqn:E.
      - rewrite length_drop, length_map in Hcont. lia.
      - rewrite length_map in Hcont. lia. }
    destruct (IH s1) as (s' & Hrun' & Hcont' & Ht' & Hq' & Hp'); auto.
    { by rewrite (q_restarting _ _ Hq). }
    { by rewrite Hm. }
    exists s'. cbn [map acts]. unfold bindM at 1. rewrite Hrun. cbv iota beta. rewrite Hrun'.
    split_and!; try congruence; [|by eapply quiet_trans].
    rewrite Hcont', Hcont, Hm.
    set (C := maxSize (buffer (proxy s))) in *.
    set (old := contents (buffer (proxy s)) (store s)).
    assert (Hold : (length old <= Z.to_nat C)%nat).
    { unfold old, contents, Len in *. rewrite length_map. lia. }
    replace (Len (buffer (proxy s)) >=? C) with (Z.to_nat C <=? length old)%nat.
    2:{ unfold old, contents, Len. rewrite length_map.
        destruct (Z.geb_spec (Z.of_nat (length (messages (buffer (proxy s))))) C);
          [apply Nat.leb_le | apply Nat.leb_gt]; lia. }
    rewrite <- app_assoc. apply lastn_evict; [lia|done].
Qed.

Lemma wp_yield_batch (X : Prop) batch s s' (Q : unit -> State -> Prop) :
  pending s = [batch] ->
  acts env batch (set_pending [] s) = Ok (tt, s') ->
  Q tt s' ->
  wp X (yield env) s Q.
Proof.
  intros Hp Ha HQ. unfold wp, yield, bindM, get, modify. by rewrite Hp, Ha.
Qed.

Lemma write_all_pipe_ok h msgs :
  (forall t h p, write_result env t h p = None) ->
  forall s,
    write_all (Stdin env h) msgs s
    = (set_trace (trace s ++ map (fun d => mkObs (EvStdinWrite h d None)
                                                 (restarting (proxy s))) msgs) s,
       None).
Proof.
  intros Hacc. induction msgs as [|m msgs IH]; intros s.
  - simpl. rewrite app_nil_r. by destruct s.
  - simpl. rewrite Hacc. rewrite IH. simpl. unfold set_trace. simpl.
    by rewrite <- app_assoc.
Qed.

Lemma wp_Replay_ok X h s (Q : option error -> State -> Prop) :
  (forall t h p, write_result env t h p = None) ->
  Q None (set_proxy (set_buffer {| messages := []; maxSize := maxSize (buffer (proxy s)) |})
            (set_trace (trace s ++ map (fun d => mkObs (EvStdinWrite h d None)
                                                       (restarting (proxy s)))
                                       (contents (buffer (proxy s)) (store s))) s)) ->
  wp X (buffer_Replay (Stdin env h)) s Q.
Proof.
  intros Hacc HQ. unfold wp, buffer_Replay, Replay.
  by rewrite write_all_pipe_ok.
Qed.

End Buffering.

Section Scenario.

Context (env : Env).

Lemma stdin_writes_app t1 t2 : stdin_writes (t1 ++ t2) = stdin_writes t1 ++ stdin_writes t2.
Proof. unfold stdin_writes. apply omap_app. Qed.

Lemma stdin_writes_replay h f msgs :
  stdin_writes (map (fun d => mkObs (EvStdinWrite h d None) f) msgs)
  = map (fun d => (h, d, None)) msgs.
Proof. induction msgs as [|m msgs IH]; simpl; [done|]. by rewrite <- IH. Qed.

(** Chunks that arrive right after the flag is set are all buffered;
    once the new worker is started the replay writes the last
    [maxSize] of them, in arrival order, to the new worker, and no
    write at all goes to the old one. *)
Lemma restartPHP_replays_arrivals buf chunks s :
  stdin_loop s = Some buf ->
  ctx_done s = false ->
  stdin_ok buf s = true ->
  messages (buffer (proxy s)) = [] ->
  1 <= maxSize (buffer (proxy s)) ->
  pending s = [map (fun c => StdinRead c None) chunks] ->
  Forall (fun c => (0 < Nat.min (s_len buf) (length c))%nat) chunks ->
  (forall t h d b, start_result env t h d b = None) ->
  (forall t h p, write_result env t h p = None) ->
  exists s',
    restartPHP env s = Ok (None, s')
    /\ stdin_writes (drop (length (trace s)) (trace s'))
       = map (fun c => (next_handle s, c, None))
             (lastn (Z.to_nat (maxSize (buffer (proxy s))))
                    (map (take (s_len buf)) chunks))
    /\ contents (buffer (proxy s')) (store s') = []
    /\ restarting (proxy s') = false
    /\ process (proxy s') = next_handle s.
Proof.
  intros Hl Hc Hok Hempty Hcap Hp Hch Hstart Hwrite.
  enough (wp False (restartPHP env) s (fun r s' =>
    r = None
    /\ stdin_writes (drop (length (trace s)) (trace s'))
       = map (fun c => (next_handle s, c, None))
             (lastn (Z.to_nat (maxSize (buffer (proxy s))))
                    (map (take (s_len buf)) chunks))
    /\ contents (buffer (proxy s')) (store s') = []
    /\ restarting (proxy s') = false
    /\ process (proxy s') = next_handle s)) as Hwp.
  { unfold wp in Hwp. destruct (restartPHP env s) as [[r s']|p]; [|done].
    destruct Hwp as (-> & H). by exists s'. }
  unfold restartPHP, defer, stopPHP, startPHP, Stop, Start, NewPHPProcess, buffer_Len.
  wp_go. unfold logf at 1. wp_go.
  set (t0 := set_trace _ _).
  destruct (acts_buffered env buf chunks (set_pending [] t0))
    as (s1 & Hacts & Hcont & Ht & Hq & Hp1); try done.
  { unfold Len. simpl. rewrite Hempty. simpl. lia. }
  eapply wp_yield_batch; [exact Hp | exact Hacts |].
  simpl in Hcont, Ht, Hp1.
  unfold contents at 2 in Hcont. rewrite Hempty in Hcont. simpl in Hcont.
  pose proof (q_process _ _ Hq) as HP. pose proof (q_next _ _ Hq) as HN.
  pose proof (q_restarting _ _ Hq) as HR. pose proof (q_maxSize _ _ Hq) as HM.
  simpl in HP, HN, HR, HM.
  wp_go. set (rstop := stop_result env _ _). clearbody rstop.
  apply wp_stop_log. wp_go.
  apply wp_yield_nil; [done|]. wp_go.
  apply wp_yield_nil; [done|]. unfold logf at 1. wp_go.
  rewrite Hstart. wp_go.
  apply wp_yield_nil; [done|]. wp_go. simpl.
  destruct (0 <? Len (buffer (proxy s1))) eqn:EL.
  - unfold logf at 1. wp_go. apply wp_yield_nil; [done|]. wp_go.
    apply wp_Replay_ok; [done|]. wp_go. apply wp_yield_nil; [done|]. wp_go.
    simpl. split_and!; try done.
    rewrite Ht, HN, Hcont. rewrite <- !app_assoc, drop_app_length.
    rewrite !stdin_writes_app. simpl.
    rewrite stdin_writes_replay.
    destruct rstop; simpl; by rewrite ?app_nil_r.
  - wp_go. apply wp_yield_nil; [done|]. wp_go. simpl.
    assert (Hnil : contents (buffer (proxy s1)) (store s1) = []).
    { unfold contents, Len in *. apply Z.ltb_ge in EL.
      destruct (messages (buffer (proxy s1))); [done|simpl in EL; lia]. }
    split_and!; try done.
    rewrite Ht, <- Hcont, Hnil. rewrite <- !app_assoc, drop_app_length.
    rewrite !stdin_writes_app. destruct rstop; simpl; done.
Qed.

(** C3: a chunk read while the flag is set is appended to the buffer
    and written to no worker; a chunk read while the flag is not set is
    written to the current worker's input pipe and the buffer is left
    alone. Chunks that arrive once a restart has set the flag are
    replayed to the new worker in arrival order after it is started,
    and none of them reaches the old worker: so it is for "x" and
    "y". *)
Theorem proxyStdin_routes_by_flag
    (buf : bytes) (data : list byte) (rerr : option error) (s : State) :
  stdin_ok buf s = true ->
  (0 < Nat.min (s_len buf) (length data))%nat ->
  (restarting (proxy s) = true -> 1 <= maxSize (buffer (proxy s)) ->
   exists go_on s',
     proxyStdin_body env buf data rerr s = Ok (go_on, s')
     /\ contents (buffer (proxy s')) (store s')
        = (if Len (buffer (proxy s)) >=? maxSize (buffer (proxy s))
           then drop 1 (contents (buffer (proxy s)) (store s))
           else contents (buffer (proxy s)) (store s))
          ++ [take (s_len buf) data]
     /\ stdin_writes (trace s') = stdin_writes (trace s))
  /\ (restarting (proxy s) = false ->
      exists go_on s',
        proxyStdin_body env buf data rerr s = Ok (go_on, s')
        /\ stdin_writes (trace s')
           = stdin_writes (trace s)
             ++ [(process (proxy s), take (s_len buf) data,
                  write_result env (trace s) (process (proxy s)) (take (s_len buf) data))]
        /\ buffer (proxy s') = buffer (proxy s))
  /\ (forall chunks,
        stdin_loop s = Some buf ->
        ctx_done s = false ->
        messages (buffer (proxy s)) = [] ->
        1 <= maxSize (buffer (proxy s)) ->
        pending s = [map (fun c => StdinRead c None) chunks] ->
        Forall (fun c => (0 < Nat.min (s_len buf) (length c))%nat) chunks ->
        (forall t h d b, start_result env t h d b = None) ->
        (forall t h p, write_result env t h p = None) ->
        exists s',
          restartPHP env s = Ok (None, s')
          /\ stdin_writes (drop (length (trace s)) (trace s'))
             = map (fun c => (next_handle s, c, None))
                   (lastn (Z.to_nat (maxSize (buffer (proxy s))))
                          (map (take (s_len buf)) chunks))
          /\ contents (buffer (proxy s')) (store s') = []
          /\ process (proxy s') = next_handle s)
  /\ (exists s',
        restartPHP env_ok (serving [[StdinRead ["x"%byte] None; StdinRead ["y"%byte] None]])
        = Ok (None, s')
        /\ stdin_writes (drop 3 (trace s'))
           = [(1%nat, ["x"%byte], None); (1%nat, ["y"%byte], None)]
        /\ sink 0 (trace s') = []
        /\ sink 1 (trace s') = [["x"%byte]; ["y"%byte]]).
Proof.
  intros Hok Hn. split_and!.
  - intros Hr Hcap.
    destruct (proxyStdin_body_buffers env buf data rerr s Hr Hok Hn Hcap)
      as (go_on & s' & Hrun & Hcont & Hw & _).
    by exists go_on, s'.
  - intros Hr. apply andb_prop in Hok as [Hv _].
    destruct (proxyStdin_body_direct env buf data rerr s Hr Hv Hn)
      as (go_on & s' & Hrun & Hw & Hb & _).
    by exists go_on, s'.
  - intros chunks Hl Hc Hempty Hcap Hp Hch Hstart Hwrite.
    destruct (restartPHP_replays_arrivals buf chunks s) as (s' & H1 & H2 & H3 & _ & H5);
      try done.
    by exists s'.
  - eexists. split; [vm_compute; reflexivity|]. by vm_compute.
Qed.

End Scenario.

Lemma proxyStdin_routes_by_flag_witness :
  stdin_ok scratch (serving []) = true
  /\ (0 < Nat.min (s_len scratch) (length ["x"%byte]))%nat
  /\ exists go_on s',
       proxyStdin_body env_ok scratch ["x"%byte] None (serving []) = Ok (go_on, s')
       /\ stdin_writes (trace s') = stdin_writes (trace (serving [])) ++ [(0%nat, ["x"%byte], None)]
       /\ buffer (proxy s') = buffer (proxy (serving [])).
Proof.
  split; [by vm_compute|]. split; [simpl; lia|].
  apply (proj1 (proj2 (proxyStdin_routes_by_flag env_ok scratch ["x"%byte] None (serving [])
                         eq_refl ltac:(simpl; lia)))).
  reflexivity.
Defined.

(** ** The buffer is a bounded queue *)

Lemma poke_app dst data (h x : heap) :
  validb h dst = true ->
  (poke dst data (h ++ x)).2 = (poke dst data h).2 ++ x.
Proof.
  intros Hv. pose proof (validb_lt _ _ Hv) as Hlt.
  unfold poke. simpl. rewrite lookup_app_l by done.
  by rewrite insert_app_l.
Qed.

Lemma lastn_push {A} (n : nat) (c : list A) (x : A) :
  (1 <= n)%nat -> (length c <= n)%nat ->
  (if (n <=? length c)%nat then drop 1 c else c) ++ [x] = lastn n (c ++ [x]).
Proof.
  intros Hn Hc. unfold lastn. rewrite length_app. simpl.
  destruct (n <=? length c)%nat eqn:E.
  - apply Nat.leb_le in E. replace (length c + 1 - n)%nat with 1%nat by lia.
    destruct c as [|c0 c]; simpl in *; [lia|]. by rewrite !drop_0.
  - apply Nat.leb_gt in E. by replace (length c + 1 - n)%nat with 0%nat by lia.
Qed.

Lemma exec_refines (h0 : heap) (ops : list op) :
  forall (b : MessageBuffer) (mem ext : heap) (out : list byte),
    length mem = length h0 ->
    (forall s, validb h0 s = true -> validb mem s = true) ->
    buffer_ok (length h0) b (mem ++ ext) = true ->
    1 <= maxSize b ->
    Len b <= maxSize b ->
    forallb (op_ok h0) ops = true ->
    exists b' h' out' lens,
      exec ops b (mem ++ ext) out = Ok (b', h', out', lens)
      /\ (contents b' h', out', lens)
         = queue (Z.to_nat (maxSize b)) (abstraction ops mem) (contents b (mem ++ ext)) out
      /\ maxSize b' = maxSize b.
Proof.
  induction ops as [|o ops IH]; intros b mem ext out Hlen Hval Hok Hcap Hfull Hops.
  - by exists b, (mem ++ ext), out, [].
  - simpl in Hops. apply andb_prop in Hops as [Ho Hops].
    destruct o as [dst data|message| | |]; cbn [exec abstraction op_ok] in *.
    + pose proof (Hval _ Ho) as Hd.
      rewrite poke_app by done.
      destruct (IH b (poke dst data mem).2 ext out) as (b' & h' & out' & lens & Hrun & Hq & Hm);
        try done.
      * by rewrite poke_length.
      * intros s Hs. apply validb_poke; auto.
      * rewrite <- poke_app by done. apply buffer_ok_poke; [by apply validb_app|done].
      * exists b', h', out', lens. split_and!; try done.
        rewrite Hq. f_equal. rewrite <- poke_app by done.
        apply (contents_poke (length h0)); [|done].
        pose proof (validb_lt _ _ Hd). lia.
    + pose proof (Hval _ Ho) as Hd.
      destruct (Add_contents (length h0) message b (mem ++ ext))
        as (b1 & h1 & HAdd & Hc1 & Hm1 & Hok1 & Hh1); auto.
      { by apply validb_app. }
      { rewrite length_app. lia. }
      { destruct (messages b); [left; unfold Len in *; simpl in *; lia | by right]. }
      rewrite HAdd. simpl. subst h1. rewrite <- app_assoc in *.
      assert (Hr : read (mem ++ ext) message = read mem message).
      { apply read_app. by apply validb_lt. }
      assert (Hc1' : contents b1 (mem ++ ext ++ [read (mem ++ ext) message])
                     = lastn (Z.to_nat (maxSize b))
                             (contents b (mem ++ ext) ++ [read mem message])).
      { rewrite Hc1, Hr. unfold Len, contents in *.
        rewrite <- (lastn_push (Z.to_nat (maxSize b))); rewrite ?length_map; try lia.
        destruct (Z.of_nat (length (messages b)) >=? maxSize b) eqn:E1;
          destruct (Z.to_nat (maxSize b) <=? length (messages b))%nat eqn:E2; try done.
        - apply Z.geb_le in E1. apply Nat.leb_gt in E2. lia.
        - apply Nat.leb_le in E2. rewrite Z.geb_leb in E1. apply Z.leb_gt in E1. lia. }
      destruct (IH b1 mem (ext ++ [read (mem ++ ext) message]) out)
        as (b' & h' & out' & lens & Hrun & Hq & Hm); try done.
      * lia.
      * rewrite Hm1. apply (f_equal length) in Hc1'. unfold contents, Len, lastn in *.
        rewrite length_map, length_drop, length_app, length_map in Hc1'. simpl in Hc1'. lia.
      * exists b', h', out', lens. split_and!; try done; [|congruence].
        by rewrite Hq, Hm1, Hc1'.
    + rewrite Replay_accepts by done. rewrite feed_Recorder.
      destruct (IH {| messages := []; maxSize := maxSize b |} mem ext
                   (out ++ concat (contents b (mem ++ ext))))
        as (b' & h' & out' & lens & Hrun & Hq & Hm); try done.
      { unfold Len. simpl. lia. }
      by exists b', h', out', lens.
    + destruct (IH b mem ext out) as (b' & h' & out' & lens & Hrun & Hq & Hm); try done.
      rewrite Hrun. simpl. exists b', h', out', (Len b :: lens). split_and!; try done.
      rewrite <- Hq. unfold Len, contents. by rewrite length_map.
    + destruct (IH (Clear b) mem ext out) as (b' & h' & out' & lens & Hrun & Hq & Hm);
        try done.
      { unfold Len. simpl. lia. }
      by exists b', h', out', lens.
Qed.

(** X1: for every capacity of at least 1 with which
    [NewMessageBuffer] returns a buffer, the operations of [buffer.go]
    on that buffer behave as a queue of byte strings that keeps the
    last [C] of them: whatever the client calls and however it reuses
    its own memory between the calls, no call panics, and what [Replay]
    writes, what [Len] returns and what the buffer holds at the end are
    those of the queue. *)
Theorem buffer_refines_queue (C : Z) (b0 : MessageBuffer) (ops : list op) (h0 : heap) :
  1 <= C ->
  NewMessageBuffer C = Ok b0 ->
  forallb (op_ok h0) ops = true ->
  exists b h out lens,
    exec ops b0 h0 [] = Ok (b, h, out, lens)
    /\ (contents b h, out, lens) = queue (Z.to_nat C) (abstraction ops h0) [] [].
Proof.
  intros HC Hnew Hops.
  destruct (NewMessageBuffer_Ok _ _ Hnew) as (-> & _ & _).
  destruct (exec_refines h0 ops {| messages := []; maxSize := C |} h0 [] [])
    as (b & h & out & lens & Hrun & Hq & _); try done; try (unfold Len; simpl; lia).
  rewrite app_nil_r in *.
  by exists b, h, out, lens.
Qed.

Lemma buffer_refines_queue_witness :
  exists b h out lens,
    exec [OpWrite one_byte ["a"%byte]; OpAdd one_byte;
          OpWrite one_byte ["b"%byte]; OpAdd one_byte;
          OpWrite one_byte ["c"%byte]; OpAdd one_byte; OpLen; OpReplay;
          OpAdd one_byte; OpClear; OpLen; OpReplay]
         {| messages := []; maxSize := 2 |} [[x00]] []
    = Ok (b, h, out, lens)
    /\ (contents b h, out, lens) = ([], ["b"%byte; "c"%byte], [2; 0]).
Proof.
  apply (buffer_refines_queue 2 {| messages := []; maxSize := 2 |}
           [OpWrite one_byte ["a"%byte]; OpAdd one_byte;
            OpWrite one_byte ["b"%byte]; OpAdd one_byte;
            OpWrite one_byte ["c"%byte]; OpAdd one_byte; OpLen; OpReplay;
            OpAdd one_byte; OpClear; OpLen; OpReplay] [[x00]]);
    [lia|reflexivity|reflexivity].
Defined.



(** ** One pass of the input-forwarding loop, in full *)

Lemma set_store_same s : set_store (store s) s = s.
Proof. by destruct s. Qed.

Lemma set_trace_same s : set_trace (trace s ++ []) s = s.
Proof. rewrite app_nil_r. by destruct s. Qed.

Lemma poke_nothing dst data (h : heap) :
  validb h dst = true ->
  Nat.min (s_len dst) (length data) = 0%nat ->
  poke dst data h = (0%nat, h).
Proof.
  intros Hv Hn. unfold poke. rewrite Hn. f_equal.
  unfold validb in Hv. destruct (h !! s_arr dst) as [a|] eqn:Ea; [|done]. simpl.
  rewrite Nat.add_0_r. simpl. rewrite take_drop. by apply list_insert_id.
Qed.

Section Passes.

Context (env : Env).

(** A read that delivers no byte. *)
Lemma proxyStdin_body_nothing buf data rerr s :
  validb (store s) buf = true ->
  Nat.min (s_len buf) (length data) = 0%nat ->
  proxyStdin_body env buf data rerr s
  = Ok (reads_on rerr,
        set_trace (trace s ++ read_error_log rerr (restarting (proxy s))) s).
Proof.
  intros Hv Hn. unfold proxyStdin_body, Read_into. unfold bindM at 1.
  rewrite poke_nothing by done. cbv iota beta. rewrite set_store_same.
  destruct rerr as [[| |]|]; munfold; by rewrite ?set_trace_same.
Qed.

(** A read that delivers bytes while the flag is not set. *)
Lemma proxyStdin_body_forwards buf data rerr s :
  restarting (proxy s) = false ->
  validb (store s) buf = true ->
  (0 < Nat.min (s_len buf) (length data))%nat ->
  proxyStdin_body env buf data rerr s
  = let chunk := take (s_len buf) data in
    let w := write_result env (trace s) (process (proxy s)) chunk in
    Ok (match w with Some _ => false | None => reads_on rerr end,
        set_trace (trace s ++ mkObs (EvStdinWrite (process (proxy s)) chunk w) false
                           :: match w with
                              | Some e => [mkObs (EvLog (LogErrorWritingStdin e)) false]
                              | None => read_error_log rerr false
                              end)
                  (set_store (poke buf data (store s)).2 s)).
Proof.
  intros Hr Hv Hn.
  set (h1 := (poke buf data (store s)).2).
  set (message := mkBytes (s_arr buf) (s_off buf) (Nat.min (s_len buf) (length data))
                          (s_cap buf - Nat.min (s_len buf) (length data))).
  assert (Hread : read h1 message = take (s_len buf) data) by by apply read_message.
  unfold proxyStdin_body, Read_into. unfold bindM at 1.
  change (poke buf data (store s)) with (Nat.min (s_len buf) (length data), h1).
  cbv iota beta. unfold bindM at 1.
  replace (0 <? Nat.min (s_len buf) (length data))%nat with true
    by (symmetry; by apply Nat.ltb_lt).
  rewrite slice_to_le by lia. fold message.
  unfold bindM at 1. simpl lift. cbv iota beta.
  unfold bindM at 1. unfold get at 1. cbv iota beta.
  change (restarting (proxy (set_store h1 s))) with (restarting (proxy s)).
  rewrite Hr. unfold pipe_Write. munfold. fold h1. rewrite Hread, Hr.
  destruct (write_result env (trace s) (process (proxy s)) (take (s_len buf) data))
    as [e|] eqn:Ew; simpl.
  - unfold set_trace, set_store; simpl. by rewrite ?Hr, <- ?app_assoc.
  - destruct rerr as [[| |]|]; simpl; unfold set_trace, set_store; simpl;
      by rewrite ?Hr, <- ?app_assoc.
Qed.

End Passes.

Section PassTheorems.

Context (env : Env).

(** X3: a read that delivers no byte forwards nothing and buffers
    nothing, whatever the flag says: the proxy and the store are as
    before, no write reaches a worker. The loop goes on exactly when
    the read reported no error, and the error is logged unless it is
    [io.EOF]. *)
Theorem proxyStdin_empty_read_is_dropped
    (buf : bytes) (data : list byte) (rerr : option error) (s : State) :
  validb (store s) buf = true ->
  Nat.min (s_len buf) (length data) = 0%nat ->
  exists go_on s',
    proxyStdin_body env buf data rerr s = Ok (go_on, s')
    /\ proxy s' = proxy s
    /\ store s' = store s
    /\ stdin_writes (trace s') = stdin_writes (trace s)
    /\ (go_on = true <-> rerr = None)
    /\ map what (drop (length (trace s)) (trace s'))
       = match rerr with
         | Some EOF | None => []
         | Some err => [EvLog (LogErrorReadingStdin err)]
         end.
Proof.
  intros Hv Hn. rewrite proxyStdin_body_nothing by done.
  eexists _, _. split; [reflexivity|]. simpl. split_and!; try done.
  - unfold stdin_writes. rewrite omap_app.
    destruct rerr as [[| |]|]; simpl; by rewrite app_nil_r.
  - destruct rerr; simpl; split; done.
  - rewrite drop_app_length. by destruct rerr as [[| |]|].
Qed.

(** X4: when a read delivers bytes together with an error, the bytes
    are routed first, like any other chunk (into the buffer while the
    flag is set, to the current worker otherwise), and only then the
    loop ends; [io.EOF] is never logged, any other read error is the
    last thing logged, provided that the write did not fail. *)
Theorem proxyStdin_routes_before_it_stops
    (buf : bytes) (data : list byte) (err : error) (s : State) :
  stdin_ok buf s = true ->
  (0 < Nat.min (s_len buf) (length data))%nat ->
  1 <= maxSize (buffer (proxy s)) ->
  exists s',
    proxyStdin_body env buf data (Some err) s = Ok (false, s')
    /\ (if restarting (proxy s)
        then last (contents (buffer (proxy s')) (store s')) = Some (take (s_len buf) data)
             /\ stdin_writes (trace s') = stdin_writes (trace s)
        else stdin_writes (trace s')
             = stdin_writes (trace s)
               ++ [(process (proxy s), take (s_len buf) data,
                    write_result env (trace s) (process (proxy s))
                                 (take (s_len buf) data))]
             /\ buffer (proxy s') = buffer (proxy s))
    /\ (err = EOF ->
        Forall (fun o => forall e, what o <> EvLog (LogErrorReadingStdin e))
               (drop (length (trace s)) (trace s')))
    /\ (err <> EOF ->
        (restarting (proxy s) = false ->
         write_result env (trace s) (process (proxy s)) (take (s_len buf) data) = None) ->
        last (map what (trace s')) = Some (EvLog (LogErrorReadingStdin err))).
Proof.
  intros Hok Hn Hcap. destruct (restarting (proxy s)) eqn:Hr.
  - destruct (proxyStdin_body_buffers env buf data (Some err) s Hr Hok Hn Hcap)
      as (go_on & s' & Hrun & Hcont & Hw & -> & Ht & _).
    exists s'. split_and!; try done.
    + rewrite Hcont. by rewrite last_snoc.
    + intros ->. rewrite Ht, drop_app_length. constructor.
    + intros Hne _. rewrite Ht, map_app.
      destruct err; try done; simpl; by rewrite last_snoc.
  - apply andb_prop in Hok as [Hv _].
    rewrite proxyStdin_body_forwards by done. cbv zeta.
    eexists. split.
    { f_equal. f_equal. by destruct (write_result _ _ _ _). }
    simpl. split_and!; try done.
    + unfold stdin_writes. rewrite omap_app. simpl. f_equal.
      destruct (write_result _ _ _ _); simpl; [done|].
      by destruct err.
    + intros ->. rewrite drop_app_length.
      destruct (write_result _ _ _ _); repeat constructor; done.
    + intros Hne Hw. rewrite Hw by done. rewrite map_app. simpl.
      destruct err; try done; simpl;
        by rewrite (last_app_cons _ [_]).
Qed.

(** X5: when the write to the worker's input pipe fails, the chunk is
    lost: it is not put into the buffer, the failure is logged, an
    error that came with the read is not logged any more, and the loop
    ends. *)
Theorem proxyStdin_failed_write_loses_the_chunk
    (buf : bytes) (data : list byte) (rerr : option error) (e : error) (s : State) :
  restarting (proxy s) = false ->
  validb (store s) buf = true ->
  (0 < Nat.min (s_len buf) (length data))%nat ->
  write_result env (trace s) (process (proxy s)) (take (s_len buf) data) = Some e ->
  exists s',
    proxyStdin_body env buf data rerr s = Ok (false, s')
    /\ proxy s' = proxy s
    /\ map what (drop (length (trace s)) (trace s'))
       = [EvStdinWrite (process (proxy s)) (take (s_len buf) data) (Some e);
          EvLog (LogErrorWritingStdin e)].
Proof.
  intros Hr Hv Hn Hw.
  pose proof (proxyStdin_body_forwards env buf data rerr s Hr Hv Hn) as Hb.
  cbv zeta in Hb. rewrite Hw in Hb.
  eexists. split; [exact Hb|]. simpl. split_and!; try done.
  by rewrite drop_app_length.
Qed.

End PassTheorems.

Lemma proxyStdin_empty_read_is_dropped_witness :
  exists go_on s',
    proxyStdin_body env_ok scratch [] (Some (Err "closed")) (serving []) = Ok (go_on, s')
    /\ proxy s' = proxy (serving [])
    /\ store s' = store (serving [])
    /\ stdin_writes (trace s') = stdin_writes (trace (serving []))
    /\ (go_on = true <-> Some (Err "closed") = None)
    /\ map what (drop (length (trace (serving []))) (trace s'))
       = [EvLog (LogErrorReadingStdin (Err "closed"))].
Proof.
  apply (proxyStdin_empty_read_is_dropped env_ok scratch [] (Some (Err "closed")) (serving []));
    reflexivity.
Defined.

Lemma proxyStdin_routes_before_it_stops_witness :
  exists s',
    proxyStdin_body env_ok scratch ["x"%byte] (Some EOF) (serving []) = Ok (false, s')
    /\ stdin_writes (trace s')
       = stdin_writes (trace (serving [])) ++ [(0%nat, ["x"%byte], None)].
Proof.
  destruct (proxyStdin_routes_before_it_stops env_ok scratch ["x"%byte] EOF (serving [])
              eq_refl ltac:(simpl; lia) ltac:(simpl; lia)) as (s' & H1 & H2 & _).
  exists s'. split; [exact H1|exact (proj1 H2)].
Defined.

Lemma proxyStdin_failed_write_loses_the_chunk_witness :
  exists s',
    proxyStdin_body env_write_fails scratch ["x"%byte] None (serving []) = Ok (false, s')
    /\ proxy s' = proxy (serving [])
    /\ map what (drop (length (trace (serving []))) (trace s'))
       = [EvStdinWrite 0 ["x"%byte] (Some (Err "broken pipe"));
          EvLog (LogErrorWritingStdin (Err "broken pipe"))].
Proof.
  apply (proxyStdin_failed_write_loses_the_chunk env_write_fails scratch ["x"%byte] None
           (Err "broken pipe") (serving [])); [reflexivity|reflexivity|simpl; lia|reflexivity].
Defined.

(** ** Invariants of the supervisor *)

Lemma wp_mono {A} (X : Prop) (m : M A) s (Q Q' : A -> State -> Prop) :
  wp X m s Q -> (forall a s', Q a s' -> Q' a s') -> wp X m s Q'.
Proof. unfold wp. destruct (m s) as [[a s']|p]; auto. Qed.

Lemma wp_NewTicker (X : Prop) (d : Z) s (Q : unit -> State -> Prop) :
  0 < d -> Q tt s -> wp X (lift (NewTicker d)) s Q.
Proof.
  intros Hd HQ. unfold wp, lift, NewTicker.
  by replace (d <=? 0) with false by (symmetry; apply Z.leb_gt; lia).
Qed.

Lemma NewProxy_Ok workingDir phpBinary restartInterval bufferSize schedule s0 :
  NewProxy workingDir phpBinary restartInterval bufferSize schedule = Ok s0 ->
  s0 = mkState (mkProxy 0 {| messages := []; maxSize := bufferSize |} false
                        workingDir phpBinary restartInterval)
               [] 1 [mkObs (EvNewProcess 0) false] None false false schedule.
Proof.
  unfold NewProxy. destruct (NewMessageBuffer bufferSize) as [b|p] eqn:E; [|done].
  destruct (NewMessageBuffer_Ok _ _ E) as (-> & _). simpl. by intros [= <-].
Qed.

Lemma set_buffer_same s : set_proxy (set_buffer (buffer (proxy s))) s = s.
Proof. destruct s as [[] ? ? ? ? ? ? ?]. reflexivity. Qed.

(** A property of the program state that no step of a goroutine
    breaks is kept by a restart cycle and by the main loop, whatever
    the schedule. *)
Section Invariant.

Context (env : Env) (Inv : State -> Prop) (X : Prop).

Hypothesis Inv_trace : forall s t, Inv s -> Inv (set_trace t s).
Hypothesis Inv_next : forall s n, Inv s -> Inv (set_next_handle n s).
Hypothesis Inv_process : forall s h, Inv s -> Inv (set_proxy (set_process h) s).
Hypothesis Inv_flag : forall s r, Inv s -> Inv (set_proxy (set_restarting r) s).
Hypothesis Inv_pending : forall s p, Inv s -> Inv (set_pending p s).
Hypothesis Inv_ctx : forall s d, Inv s -> Inv (set_ctx_done d s).
Hypothesis Inv_monitor : forall s l, Inv s -> Inv (set_monitor_loop l s).
Hypothesis Inv_stdin_end : forall s, Inv s -> Inv (set_stdin_loop None s).
Hypothesis Inv_drained : forall s,
    Inv s ->
    Inv (set_proxy (set_buffer {| messages := [];
                                maxSize := maxSize (buffer (proxy s)) |}) s).
Hypothesis Inv_body : forall buf data rerr s,
    Inv s -> stdin_loop s = Some buf ->
    wp X (proxyStdin_body env buf data rerr) s (fun _ s' => Inv s').

Ltac inv_tac :=
  repeat lazymatch goal with
    | |- _ (set_trace _ _) => apply Inv_trace
    | |- _ (set_next_handle _ _) => apply Inv_next
    | |- _ (set_proxy (set_process _) _) => apply Inv_process
    | |- _ (set_proxy (set_restarting _) _) => apply Inv_flag
    | |- _ (set_pending _ _) => apply Inv_pending
    | |- _ (set_ctx_done _ _) => apply Inv_ctx
    | |- _ (set_monitor_loop _ _) => apply Inv_monitor
    | |- _ (set_stdin_loop None _) => apply Inv_stdin_end
    end;
  try assumption.

Lemma monitorProcess_body_inv werr s :
  Inv s -> wp X (monitorProcess_body env werr) s (fun _ s' => Inv s').
Proof using Inv_trace Inv_next Inv_process.
  intros HI. unfold monitorProcess_body, startPHP, Start, NewPHPProcess.
  wp_go. destruct werr as [err|]; [|wp_go; inv_tac].
  destruct (negb _); [|wp_go; inv_tac].
  unfold logf. wp_go.
  destruct (start_result env _ _ _ _); wp_go; inv_tac.
Qed.

Lemma act_inv a s : Inv s -> wp X (act env a) s (fun _ s' => Inv s').
Proof using Inv_trace Inv_next Inv_process Inv_ctx Inv_monitor Inv_stdin_end Inv_body.
  intros HI. destruct a as [data rerr|werr|]; unfold act.
  - wp_go. destruct (stdin_loop s) as [buf|] eqn:El; [|by wp_go].
    wp_go. destruct (ctx_done s); [wp_go; inv_tac|].
    wp_go. eapply wp_mono; [by apply Inv_body|].
    intros go_on s' HI'. destruct go_on; wp_go; inv_tac.
  - wp_go. destruct (monitor_loop s); [|by wp_go].
    wp_go. destruct (ctx_done s); [wp_go; inv_tac|].
    by apply monitorProcess_body_inv.
  - wp_go. inv_tac.
Qed.

Lemma acts_inv l : forall s, Inv s -> wp X (acts env l) s (fun _ s' => Inv s').
Proof using Inv_trace Inv_next Inv_process Inv_ctx Inv_monitor Inv_stdin_end Inv_body.
  induction l as [|a l IH]; intros s HI; simpl.
  - by wp_go.
  - wp_go. eapply wp_mono; [by apply act_inv|]. intros [] s' HI'. by apply IH.
Qed.

Lemma yield_inv s : Inv s -> wp X (yield env) s (fun _ s' => Inv s').
Proof using Inv_trace Inv_next Inv_process Inv_ctx Inv_monitor Inv_stdin_end Inv_body Inv_pending.
  intros HI. unfold yield. wp_go.
  destruct (pending s) as [|batch rest]; [by wp_go|].
  wp_go. apply acts_inv. inv_tac.
Qed.

Lemma wp_yield_inv s (Q : unit -> State -> Prop) :
  Inv s -> (forall s', Inv s' -> Q tt s') -> wp X (yield env) s Q.
Proof using Inv_trace Inv_next Inv_process Inv_ctx Inv_monitor Inv_stdin_end Inv_body Inv_pending.
  intros HI HQ. eapply wp_mono; [by apply yield_inv|]. intros [] s'. apply HQ.
Qed.

Lemma restartPHP_inv s : Inv s -> wp X (restartPHP env) s (fun _ s' => Inv s').
Proof using All.
  intros HI.
  unfold restartPHP, defer, stopPHP, startPHP, Stop, Start, NewPHPProcess, buffer_Len.
  wp_go. unfold logf at 1. wp_go.
  apply wp_yield_inv; [inv_tac|]. intros s1 H1. wp_go.
  set (rstop := stop_result env (trace s1) (process (proxy s1))). clearbody rstop.
  apply wp_stop_log. wp_go.
  apply wp_yield_inv; [inv_tac|]. intros s2 H2. wp_go.
  apply wp_yield_inv; [inv_tac|]. intros s3 H3. unfold logf at 1. wp_go.
  set (rstart := start_result env _ _ _ _). clearbody rstart.
  destruct rstart as [err|].
  - wp_go. apply wp_yield_inv; [inv_tac|]. intros s4 H4. wp_go. inv_tac.
  - wp_go. apply wp_yield_inv; [inv_tac|]. intros s4 H4. wp_go.
    destruct (0 <? Len (buffer (proxy s4))) eqn:EL.
    + unfold logf at 1. wp_go. apply wp_yield_inv; [inv_tac|]. intros s5 H5. wp_go.
      apply wp_Replay. intros e ws b Hws Hmb Hnone Hsome.
      assert (H6 : Inv (set_proxy (set_buffer b)
                        (set_trace (trace s5 ++ map (fun w => mkObs w (restarting (proxy s5))) ws)
                                   s5))).
      { destruct e as [err|].
        - rewrite (Hsome err eq_refl).
          change (buffer (proxy s5))
            with (buffer (proxy (set_trace (trace s5 ++ map (fun w => mkObs w (restarting (proxy s5))) ws) s5))).
          rewrite set_buffer_same. inv_tac.
        - destruct b as [ms mx]. simpl in Hmb, Hnone. rewrite (Hnone eq_refl). subst mx.
          apply (Inv_drained (set_trace _ s5)). inv_tac. }
      destruct e as [err|]; wp_go; (apply wp_yield_inv; [inv_tac|]); intros s6 H7; wp_go; inv_tac.
    + wp_go. apply wp_yield_inv; [inv_tac|]. intros s5 H5. wp_go. inv_tac.
Qed.

Lemma on_tick_inv s : Inv s -> wp X (on_tick env) s (fun _ s' => Inv s').
Proof using All.
  intros HI. unfold on_tick, logf. wp_go.
  eapply wp_mono; [apply restartPHP_inv; inv_tac|].
  intros r s' HI'. destruct r; wp_go; inv_tac.
Qed.

Lemma main_loop_inv wakeups :
  forall s, Inv s -> wp X (main_loop env wakeups) s (fun _ s' => Inv s').
Proof using All.
  induction wakeups as [|w wakeups IH]; intros s HI; simpl.
  - by wp_go.
  - destruct w.
    + wp_go. apply wp_yield_inv; [inv_tac|]. intros s1 H1. wp_go.
      eapply wp_mono; [by apply on_tick_inv|]. intros [] s2 H2. by apply IH.
    + wp_go. apply wp_yield_inv; [inv_tac|]. intros s1 H1.
      unfold on_done, stopPHP, Stop, logf. wp_go. inv_tac.
Qed.

End Invariant.

(** ** No panic from capacity 1 on *)

Section Sound.

Context (env : Env) (C : Z).
Hypothesis C_pos : 1 <= C.

Lemma proxyStdin_body_sound buf data rerr s :
  sound C s -> stdin_loop s = Some buf ->
  wp False (proxyStdin_body env buf data rerr) s (fun _ s' => sound C s').
Proof using C_pos.
  intros (Hm & Hl & Hs) Hloop. pose proof (Hs _ Hloop) as Hok.
  destruct (Nat.min (s_len buf) (length data)) as [|n] eqn:En.
  - unfold wp. apply andb_prop in Hok as [Hv Hb].
    rewrite proxyStdin_body_nothing by done. done.
  - destruct (restarting (proxy s)) eqn:Hr.
    + destruct (proxyStdin_body_buffers env buf data rerr s) as
        (go_on & s' & Hrun & Hcont & _ & _ & _ & Hok' & Hq & Hl' & _); try done; try lia.
      unfold wp. rewrite Hrun. pose proof (q_maxSize _ _ Hq) as Hm'.
      split_and!; try congruence.
      apply (f_equal length) in Hcont. unfold contents, Len in *.
      rewrite length_app, length_map in Hcont. simpl in Hcont.
      destruct (_ >=? _) eqn:E.
      * rewrite length_drop, length_map in Hcont. lia.
      * rewrite length_map in Hcont. lia.
    + apply andb_prop in Hok as [Hv Hb]. unfold wp.
      rewrite proxyStdin_body_forwards by (try done; lia). cbv zeta.
      split_and!; try done.
      intros buf' Hb'. simpl in Hb'. rewrite Hloop in Hb'. injection Hb' as <-.
      unfold stdin_ok, set_trace, set_store. cbn [store proxy].
      rewrite validb_poke by done. by rewrite buffer_ok_poke.
Qed.

Lemma main_loop_sound wakeups s :
  sound C s -> wp False (main_loop env wakeups) s (fun _ s' => sound C s').
Proof using C_pos.
  apply main_loop_inv; try done; try (by intros; apply proxyStdin_body_sound).
  all: intros s0 (Hm & Hl & Hs); split_and!; try done.
  - unfold Len. simpl. lia.
  - intros buf Hb. specialize (Hs buf Hb). apply andb_prop in Hs as [Hv _].
    unfold stdin_ok. simpl. by rewrite Hv.
Qed.

Lemma Run_sound wakeups s :
  maxSize (buffer (proxy s)) = C ->
  messages (buffer (proxy s)) = [] ->
  stdin_loop s = None ->
  0 < restartInterval (proxy s) ->
  wp False (Run env wakeups) s (fun _ s' => sound C s').
Proof using C_pos.
  intros Hm He Hl Hd.
  assert (H0 : sound C s).
  { split_and!; try done; [unfold Len; rewrite He; simpl; lia|by rewrite Hl]. }
  unfold Run, startPHP, Start, logf, defer. wp_go.
  destruct (start_result env _ _ _ _); wp_go; [done|].
  apply wp_NewTicker; [exact Hd|]. wp_go.
  unfold proxyStdio, make_buf. wp_go. unfold wp at 1. unfold make_bytes. wp_go.
  eapply wp_mono; [apply main_loop_sound|by intros; wp_go].
  destruct H0 as (_ & HL & _).
  split_and!; [done|exact HL|].
  intros buf Hb.
  cbn [stdin_loop set_trace set_stdin_loop set_store set_monitor_loop store trace proxy] in Hb.
  injection Hb as <-. unfold stdin_ok, validb, buffer_ok.
  cbn [stdin_loop set_trace set_stdin_loop set_store set_monitor_loop store trace proxy
       buffer s_arr s_off s_len].
  rewrite He. rewrite lookup_app_r by done. rewrite Nat.sub_diag.
  cbn [lookup list_lookup forallb andb]. rewrite length_replicate. done.
Qed.

End Sound.

(** X6: with a buffer size of at least 1 with which [NewProxy] builds
    the proxy, and a restart interval that is positive, [Run] does not
    panic: whatever the environment answers, whichever iterations of the
    other goroutines the schedule runs at the preemption points of the
    main goroutine, and whenever the timer and the cancellation fire,
    [Run] comes back without a panic. At that point the buffer still has
    the configured capacity and holds no more chunks than that, and the
    scratch array of a forwarding goroutine that is still running is
    well formed and shares no array with the buffer. *)
Theorem Run_never_panics (env : Env) (workingDir phpBinary : string)
    (restartInterval bufferSize : Z) (schedule : list (list action))
    (wakeups : list select_case) (s0 : State) :
  1 <= bufferSize ->
  0 < restartInterval ->
  NewProxy workingDir phpBinary restartInterval bufferSize schedule = Ok s0 ->
  exists res s',
    Run env wakeups s0 = Ok (res, s')
    /\ maxSize (buffer (proxy s')) = bufferSize
    /\ Len (buffer (proxy s')) <= bufferSize
    /\ forall buf, stdin_loop s' = Some buf -> stdin_ok buf s' = true.
Proof.
  intros HC Hd Hnew. apply NewProxy_Ok in Hnew. subst s0.
  pose proof (Run_sound env bufferSize HC wakeups
    (mkState (mkProxy 0 {| messages := []; maxSize := bufferSize |} false
                      workingDir phpBinary restartInterval)
             [] 1 [mkObs (EvNewProcess 0) false] None false false schedule)
    eq_refl eq_refl eq_refl Hd) as H.
  unfold wp in H. destruct (Run env wakeups _) as [[res s']|p] eqn:ER; [|done].
  exists res, s'. split; [reflexivity|]. exact H.
Qed.

Lemma Run_never_panics_witness :
  exists res s',
    Run env_ok [TickerC; CtxDone]
        (mkState (mkProxy 0 {| messages := []; maxSize := 1 |} false
                          "/srv/debug-mcp" "php" 60)
                 [] 1 [mkObs (EvNewProcess 0) false] None false false
                 [[]; [StdinRead ["x"%byte] None]])
    = Ok (res, s')
    /\ maxSize (buffer (proxy s')) = 1
    /\ Len (buffer (proxy s')) <= 1
    /\ forall buf, stdin_loop s' = Some buf -> stdin_ok buf s' = true.
Proof.
  apply (Run_never_panics env_ok "/srv/debug-mcp" "php" 60 1
           [[]; [StdinRead ["x"%byte] None]] [TickerC; CtxDone]);
    [lia|lia|reflexivity].
Defined.

(** ** A forwarding goroutine that has returned *)

Section Deaf.

Context (env : Env) (n : Z).

Lemma main_loop_deaf wakeups s :
  deaf n s -> wp False (main_loop env wakeups) s (fun _ s' => deaf n s').
Proof.
  apply main_loop_inv; try done.
  - by intros s0 [Hl Hn].
  - intros s0 [Hl Hn]. split; [done|]. unfold Len in *. simpl. lia.
  - intros buf data rerr s0 [Hl _] Hb. congruence.
Qed.

Lemma restartPHP_deaf s :
  deaf n s -> wp False (restartPHP env) s (fun _ s' => deaf n s').
Proof.
  apply restartPHP_inv; try done.
  - by intros s0 [Hl Hn].
  - intros s0 [Hl Hn]. split; [done|]. unfold Len in *. simpl. lia.
  - intros buf data rerr s0 [Hl _] Hb. congruence.
Qed.

End Deaf.

(** X7: nothing brings the input-forwarding goroutine back once it has
    returned (after a failed write, a read error or the end of the
    input): neither a restart cycle nor the respawn by the monitor
    starts it again. From then on the main loop cannot panic, whatever
    the capacity, no chunk is read or buffered any more, and a scheduled
    read is a step that changes nothing. *)
Theorem forwarding_never_resumes (env : Env) (wakeups : list select_case) (s : State) :
  stdin_loop s = None ->
  (exists res s',
     main_loop env wakeups s = Ok (res, s')
     /\ stdin_loop s' = None
     /\ Len (buffer (proxy s')) <= Len (buffer (proxy s))
     /\ forall data rerr, act env (StdinRead data rerr) s' = Ok (tt, s'))
  /\ (exists r s',
        restartPHP env s = Ok (r, s')
        /\ stdin_loop s' = None
        /\ Len (buffer (proxy s')) <= Len (buffer (proxy s))).
Proof.
  intros Hl.
  assert (H0 : deaf (Len (buffer (proxy s))) s) by (split; [done|lia]).
  split.
  - pose proof (main_loop_deaf env _ wakeups s H0) as H. unfold wp in H.
    destruct (main_loop env wakeups s) as [[res s']|p]; [|done].
    destruct H as [Hl' Hn]. exists res, s'. split_and!; try done.
    intros data rerr. unfold act. munfold. by rewrite Hl'.
  - pose proof (restartPHP_deaf env _ s H0) as H. unfold wp in H.
    destruct (restartPHP env s) as [[r s']|p]; [|done].
    destruct H as [Hl' Hn]. by exists r, s'.
Qed.

Lemma forwarding_never_resumes_witness :
  exists res s',
    main_loop env_ok [TickerC; CtxDone]
              (set_stdin_loop None (serving [[]; [StdinRead ["x"%byte] None]]))
    = Ok (res, s')
    /\ stdin_loop s' = None.
Proof.
  destruct (forwarding_never_resumes env_ok [TickerC; CtxDone]
              (set_stdin_loop None (serving [[]; [StdinRead ["x"%byte] None]])) eq_refl)
    as [(res & s' & H1 & H2 & _) _].
  by exists res, s'.
Defined.

(** ** The goroutines after the cancellation *)

Section Cancelled.

Context (env : Env).

Lemma act_cancelled a s :
  ctx_done s = true ->
  exists s',
    act env a s = Ok (tt, s')
    /\ ctx_done s' = true
    /\ trace s' = trace s /\ proxy s' = proxy s /\ store s' = store s
    /\ next_handle s' = next_handle s
    /\ stdin_loop s' = (if is_read a then None else stdin_loop s)
    /\ monitor_loop s' = (if is_exit a then false else monitor_loop s).
Proof.
  intros Hd. destruct a as [data rerr|werr|]; unfold act; munfold; rewrite ?Hd.
  - destruct (stdin_loop s) eqn:El; rewrite ?Hd; eexists; (split; [reflexivity|]); simpl;
      by rewrite ?El.
  - destruct (monitor_loop s) eqn:El; rewrite ?Hd; eexists; (split; [reflexivity|]); simpl;
      by rewrite ?El.
  - eexists; (split; [reflexivity|]); by simpl.
Qed.

(** X8: an iteration of [proxyStdin] or of [monitorProcess] that
    begins after the context has been cancelled returns at once:
    nothing is read, written, buffered, logged or respawned, and the
    goroutine whose turn it was is gone. *)
Theorem cancelled_goroutines_return (l : list action) (s : State) :
  ctx_done s = true ->
  exists s',
    acts env l s = Ok (tt, s')
    /\ trace s' = trace s /\ proxy s' = proxy s /\ store s' = store s
    /\ next_handle s' = next_handle s
    /\ (existsb is_read l = true -> stdin_loop s' = None)
    /\ (existsb is_exit l = true -> monitor_loop s' = false).
Proof.
  intros Hd.
  enough (exists s',
    acts env l s = Ok (tt, s')
    /\ trace s' = trace s /\ proxy s' = proxy s /\ store s' = store s
    /\ next_handle s' = next_handle s
    /\ stdin_loop s' = (if existsb is_read l then None else stdin_loop s)
    /\ monitor_loop s' = (if existsb is_exit l then false else monitor_loop s)) as H.
  { destruct H as (s' & H1 & H2 & H3 & H4 & H5 & H6 & H7). exists s'.
    split_and!; try done; intros E; by rewrite E in *. }
  revert s Hd. induction l as [|a l IH]; intros s Hd; simpl.
  - by exists s.
  - destruct (act_cancelled a s Hd) as (s1 & Ha & Hd1 & Ht & Hp & Hs & Hn & Hl & Hm).
    destruct (IH s1 Hd1) as (s' & Hr & Ht' & Hp' & Hs' & Hn' & Hl' & Hm').
    exists s'. unfold bindM. rewrite Ha, Hr.
    split_and!; try congruence.
    + rewrite Hl', Hl. by destruct (is_read a), (existsb is_read l).
    + rewrite Hm', Hm. by destruct (is_exit a), (existsb is_exit l).
Qed.

End Cancelled.

Lemma cancelled_goroutines_return_witness :
  exists s',
    acts env_ok [StdinRead ["x"%byte] None; WorkerExit (Some (Err "exit status 1"))]
         (set_ctx_done true (serving []))
    = Ok (tt, s')
    /\ trace s' = trace (serving []) /\ proxy s' = proxy (serving [])
    /\ store s' = store (serving [])
    /\ next_handle s' = 1%nat
    /\ (true = true -> stdin_loop s' = None)
    /\ (true = true -> monitor_loop s' = false).
Proof.
  apply (cancelled_goroutines_return env_ok
           [StdinRead ["x"%byte] None; WorkerExit (Some (Err "exit status 1"))]
           (set_ctx_done true (serving []))).
  reflexivity.
Defined.

(** ** Forwarding in normal operation *)

Section Normal.

Context (env : Env).
Hypothesis writes_ok : forall t h p, write_result env t h p = None.

Lemma act_StdinRead_forwards buf data s :
  stdin_loop s = Some buf ->
  ctx_done s = false ->
  restarting (proxy s) = false ->
  validb (store s) buf = true ->
  (0 < Nat.min (s_len buf) (length data))%nat ->
  act env (StdinRead data None) s
  = Ok (tt, set_trace (trace s ++ [mkObs (EvStdinWrite (process (proxy s))
                                                       (take (s_len buf) data) None) false])
                      (set_store (poke buf data (store s)).2 s)).
Proof using writes_ok.
  intros Hl Hc Hr Hv Hn. unfold act. unfold bindM at 1, get at 1. rewrite Hl.
  unfold bindM at 1, get at 1. rewrite Hc. unfold bindM at 1.
  rewrite proxyStdin_body_forwards by done. cbv zeta. by rewrite writes_ok.
Qed.

(** X9: in normal operation (the flag is not set, the writes succeed)
    the chunks that are read reach the input pipe of the current
    worker one write each, in the order in which they were read and
    with the bytes that were read; nothing is put into the buffer and
    nothing else happens. *)
Theorem chunks_reach_the_worker_in_order (buf : bytes) (chunks : list (list byte)) :
  forall s : State,
    stdin_loop s = Some buf ->
    ctx_done s = false ->
    restarting (proxy s) = false ->
    validb (store s) buf = true ->
    Forall (fun c => (0 < Nat.min (s_len buf) (length c))%nat) chunks ->
    exists s',
      acts env (map (fun c => StdinRead c None) chunks) s = Ok (tt, s')
      /\ map what (drop (length (trace s)) (trace s'))
         = map (fun c => EvStdinWrite (process (proxy s)) (take (s_len buf) c) None) chunks
      /\ sink (process (proxy s)) (trace s')
         = sink (process (proxy s)) (trace s) ++ map (take (s_len buf)) chunks
      /\ proxy s' = proxy s
      /\ stdin_loop s' = Some buf.
Proof using writes_ok.
  induction chunks as [|c chunks IH]; intros s Hl Hc Hr Hv Hch.
  - exists s. simpl. rewrite drop_all, app_nil_r. done.
  - apply Forall_cons in Hch as [Hc0 Hch].
    pose proof (act_StdinRead_forwards buf c s Hl Hc Hr Hv Hc0) as Ha.
    set (s1 := set_trace _ _) in Ha.
    destruct (IH s1) as (s' & Hrun & Ht & Hs & Hp & Hl'); try done.
    { by apply validb_poke. }
    change (proxy s1) with (proxy s) in Ht, Hs, Hp.
    exists s'. cbn [map acts]. unfold bindM. rewrite Ha, Hrun.
    split_and!; try done.
    + assert (Hpre : exists evs, trace s' = trace s1 ++ evs
                                 /\ map what evs
                                    = map (fun c => EvStdinWrite (process (proxy s))
                                                      (take (s_len buf) c) None) chunks).
      { exists (drop (length (trace s1)) (trace s')). split; [|exact Ht].
        pose proof (acts_stable env (map (fun c => StdinRead c None) chunks) s1) as Hst.
        rewrite Hrun in Hst. destruct (st_trace _ _ Hst) as [evs Hevs].
        by rewrite Hevs, drop_app_length. }
      destruct Hpre as (evs & Hevs & Hm). rewrite Hevs. unfold s1. simpl.
      rewrite <- app_assoc, drop_app_length. simpl. by rewrite Hm.
    + rewrite Hs. unfold s1, sink. simpl. rewrite omap_app. simpl.
      rewrite Nat.eqb_refl. by rewrite <- app_assoc.
Qed.

End Normal.

Lemma chunks_reach_the_worker_in_order_witness :
  exists s',
    acts env_ok [StdinRead ["x"%byte] None; StdinRead ["y"%byte] None] (serving [])
    = Ok (tt, s')
    /\ sink 0 (trace s') = [["x"%byte]; ["y"%byte]]
    /\ proxy s' = proxy (serving []).
Proof.
  destruct (chunks_reach_the_worker_in_order env_ok (fun _ _ _ => eq_refl) scratch
              [["x"%byte]; ["y"%byte]] (serving []) eq_refl eq_refl eq_refl eq_refl)
    as (s' & H1 & _ & H3 & H4 & _).
  { repeat constructor; simpl; lia. }
  exists s'. split; [exact H1|]. split; [exact H3|exact H4].
Defined.

(** ** Counting what the supervisor does to workers *)

Lemma count_stops_app t1 t2 :
  count_stops (t1 ++ t2) = (count_stops t1 + count_stops t2)%nat.
Proof. unfold count_stops. by rewrite map_app, List.filter_app, length_app. Qed.

Lemma count_handles_app t1 t2 :
  count_handles (t1 ++ t2) = (count_handles t1 + count_handles t2)%nat.
Proof. unfold count_handles. by rewrite map_app, List.filter_app, length_app. Qed.

Lemma filter_cycle_steps (p : event -> bool) (t : list obs) :
  (forall e, p e = true -> is_cycle_step e = true) ->
  List.filter p (map what t) = List.filter p (cycle_steps t).
Proof.
  intros Hp. unfold cycle_steps. induction (map what t) as [|e l IH]; simpl; [done|].
  destruct (is_cycle_step e) eqn:Ec; simpl.
  - by rewrite IH.
  - destruct (p e) eqn:Ep; [|done]. apply Hp in Ep. congruence.
Qed.

Lemma filter_none {A} (p : A -> bool) (l : list A) :
  Forall (fun x => p x = false) l -> List.filter p l = [].
Proof. induction 1 as [|x l Hx _ IH]; simpl; [done|]. by rewrite Hx. Qed.

Lemma replay_events_writes h msgs e ws :
  replay_events h msgs e ws ->
  Forall (fun w => match w with EvStdinWrite _ _ _ => True | _ => False end) ws.
Proof.
  destruct e as [err|]; simpl.
  - intros (pre & d & post & _ & ->). apply Forall_app. split.
    + apply Forall_forall. intros x (y & -> & _)%list_elem_of_fmap. done.
    + by repeat constructor.
  - intros ->. apply Forall_forall. intros x (y & -> & _)%list_elem_of_fmap. done.
Qed.

Section Counting.

Context (env : Env).

Lemma restartPHP_counts (s : State) :
  match restartPHP env s with
  | Ok (_, s') =>
      count_stops (trace s') = S (count_stops (trace s))
      /\ count_handles (trace s') = S (count_handles (trace s))
      /\ count_starts (trace s') = S (count_starts (trace s))
  | Panic _ => maxSize (buffer (proxy s)) <= 0
  end.
Proof.
  pose proof (restartPHP_spec env s) as H. unfold wp in H.
  destruct (restartPHP env s) as [[r s']|p]; [|done].
  destruct H as (_ & _ & _ & _ & evs & rstop & rstart & ws & Ht & _ & Hc & Hr).
  assert (Hws : Forall (fun w => match w with EvStdinWrite _ _ _ => True | _ => False end) ws).
  { destruct rstart as [e|].
    - destruct Hr as [-> _]. constructor.
    - destruct Hr as (msgs & e & Hws & _). by eapply replay_events_writes. }
  rewrite Ht, count_stops_app, count_handles_app, count_starts_app.
  unfold count_stops at 2, count_handles at 2, count_starts at 2.
  rewrite !filter_cycle_steps, Hc by (by intros []).
  cbn [List.filter]. rewrite !List.filter_app. cbn [List.filter].
  rewrite !(filter_none _ ws), !(filter_none _ (stop_log rstop)).
  - simpl. lia.
  - destruct rstop; by repeat constructor.
  - destruct rstop; by repeat constructor.
  - destruct rstop; by repeat constructor.
  - eapply Forall_impl; [exact Hws|]. by intros [].
  - eapply Forall_impl; [exact Hws|]. by intros [].
  - eapply Forall_impl; [exact Hws|]. by intros [].
Qed.

Lemma act_WorkerExit_flagged werr s :
  restarting (proxy s) = true ->
  exists s',
    act env (WorkerExit werr) s = Ok (tt, s')
    /\ proxy s' = proxy s
    /\ next_handle s' = next_handle s
    /\ count_stops (trace s') = count_stops (trace s)
    /\ count_handles (trace s') = count_handles (trace s)
    /\ count_starts (trace s') = count_starts (trace s).
Proof.
  intros Hr. unfold act. unfold bindM at 1, get at 1.
  destruct (monitor_loop s); [|by exists s].
  unfold bindM at 1, get at 1. destruct (ctx_done s); [by eexists|].
  rewrite monitorProcess_body_idle by (by right).
  eexists. split; [reflexivity|]. simpl.
  rewrite count_stops_app, count_handles_app, count_starts_app.
  split_and!; try done; unfold count_stops, count_handles, count_starts; simpl; lia.
Qed.

(** X10: a restart cycle, taken by itself (no other goroutine runs
    between its steps), makes exactly one call of [Stop], allocates
    exactly one handle and makes exactly one call of [Start]. And a
    pass of the monitor whose test of [p.restarting] finds the flag
    set, as it is all through a cycle, starts nothing, whatever [Wait]
    returned: however many such passes there are, they stop nothing,
    allocate nothing and start nothing, and the proxy is as before. *)
Theorem restart_cycle_starts_one_worker (s : State) :
  pending s = [] ->
  (exists r s',
     restartPHP env s = Ok (r, s')
     /\ count_stops (trace s') = S (count_stops (trace s))
     /\ count_handles (trace s') = S (count_handles (trace s))
     /\ count_starts (trace s') = S (count_starts (trace s)))
  /\ (forall (werrs : list (option error)) (t : State),
        restarting (proxy t) = true ->
        exists t',
          acts env (map WorkerExit werrs) t = Ok (tt, t')
          /\ proxy t' = proxy t
          /\ next_handle t' = next_handle t
          /\ count_stops (trace t') = count_stops (trace t)
          /\ count_handles (trace t') = count_handles (trace t)
          /\ count_starts (trace t') = count_starts (trace t)).
Proof.
  intros Hp. split.
  - destruct (restartPHP_alone env s Hp) as (r & s' & ? & ? & ? & ? & Hrun & _).
    pose proof (restartPHP_counts s) as H. rewrite Hrun in H. by exists r, s'.
  - induction werrs as [|werr werrs IH]; intros t Hr.
    + by exists t.
    + destruct (act_WorkerExit_flagged werr t Hr) as (t1 & Ha & HP & HN & H1 & H2 & H3).
      destruct (IH t1) as (t' & Hrun & HP' & HN' & H1' & H2' & H3'); [by rewrite HP|].
      exists t'. cbn [map acts]. unfold bindM at 1. rewrite Ha, Hrun.
      split_and!; congruence.
Qed.

Lemma monitorProcess_body_frame werr s :
  exists s',
    monitorProcess_body env werr s = Ok (tt, s')
    /\ monitor_loop s' = monitor_loop s /\ ctx_done s' = ctx_done s
    /\ stdin_loop s' = stdin_loop s /\ store s' = store s.
Proof.
  unfold monitorProcess_body, startPHP, Start, NewPHPProcess. munfold.
  destruct werr as [err|]; [|by eexists].
  destruct (restarting (proxy s)); simpl; [by eexists|].
  destruct (start_result env _ _ _ _); by eexists.
Qed.

(** X11: the monitor gives up never and stops nothing: for every exit
    with an error that it sees while the flag is not set it allocates a
    fresh handle and makes one attempt to start a worker, however many
    exits there were before; the buffer is not touched. *)
Theorem monitor_respawns_every_time (errs : list error) :
  forall s : State,
    monitor_loop s = true ->
    ctx_done s = false ->
    restarting (proxy s) = false ->
    exists s',
      acts env (map (fun e => WorkerExit (Some e)) errs) s = Ok (tt, s')
      /\ count_starts (trace s') = (count_starts (trace s) + length errs)%nat
      /\ count_stops (trace s') = count_stops (trace s)
      /\ next_handle s' = (next_handle s + length errs)%nat
      /\ (errs <> [] -> S (process (proxy s')) = next_handle s')
      /\ buffer (proxy s') = buffer (proxy s).
Proof.
  induction errs as [|err errs IH]; intros s Hl Hc Hr.
  - exists s. simpl. split_and!; try done; lia.
  - destruct (monitorProcess_body_respawn env err s Hr)
      as (s1 & Hb & Hev & Hp & Hn & Hr1 & Hbuf & _ & Hst).
    destruct (monitorProcess_body_frame (Some err) s) as (s1' & Hb' & Hl1 & Hc1 & _).
    rewrite Hb in Hb'. injection Hb' as <-.
    destruct (IH s1) as (s' & Hrun & Hcs & Hck & Hn' & Hp' & Hbuf'); try congruence.
    assert (Hact : act env (WorkerExit (Some err)) s = Ok (tt, s1)).
    { unfold act. unfold bindM at 1, get at 1. rewrite Hl.
      unfold bindM at 1, get at 1. by rewrite Hc. }
    exists s'. cbn [map acts]. unfold bindM at 1. rewrite Hact, Hrun.
    destruct (st_trace _ _ Hst) as [evs Hevs].
    rewrite Hevs, drop_app_length in Hev.
    assert (Hs1 : count_starts (trace s1) = S (count_starts (trace s))
                  /\ count_stops (trace s1) = count_stops (trace s)).
    { rewrite Hevs, count_starts_app, count_stops_app.
      unfold count_starts at 2, count_stops at 2. rewrite Hev.
      destruct (start_result env _ _ _ _); simpl; lia. }
    destruct Hs1 as [Hs1 Hk1].
    split_and!; try done; try congruence; try (simpl; lia).
    intros _. destruct errs as [|e2 errs]; [|by apply Hp'].
    simpl in Hrun. injection Hrun as <-. lia.
Qed.

End Counting.

Lemma monitor_respawns_every_time_witness :
  exists s',
    acts env_ok [WorkerExit (Some (Err "exit status 255"));
                 WorkerExit (Some (Err "signal: killed"))] (serving [])
    = Ok (tt, s')
    /\ count_starts (trace s') = 3%nat
    /\ count_stops (trace s') = 0%nat
    /\ process (proxy s') = 2%nat.
Proof.
  destruct (monitor_respawns_every_time env_ok
              [Err "exit status 255"; Err "signal: killed"] (serving [])
              eq_refl eq_refl eq_refl) as (s' & H1 & H2 & H3 & H4 & H5 & _).
  exists s'. split; [exact H1|]. split; [exact H2|]. split; [exact H3|].
  specialize (H5 ltac:(discriminate)). rewrite H4 in H5. by injection H5.
Defined.

Lemma restart_cycle_starts_one_worker_witness :
  exists r s',
    restartPHP env_ok (boot []) = Ok (r, s')
    /\ count_stops (trace s') = 1%nat
    /\ count_handles (trace s') = 2%nat
    /\ count_starts (trace s') = 1%nat.
Proof.
  apply (proj1 (restart_cycle_starts_one_worker env_ok (boot []) eq_refl)).
Defined.

(** ** Across a restart *)

Section Across.

Context (env : Env).

Lemma acts_buffered_alive buf chunks :
  forall s s',
    stdin_loop s = Some buf ->
    ctx_done s = false ->
    restarting (proxy s) = true ->
    stdin_ok buf s = true ->
    1 <= maxSize (buffer (proxy s)) ->
    Forall (fun c => (0 < Nat.min (s_len buf) (length c))%nat) chunks ->
    acts env (map (fun c => StdinRead c None) chunks) s = Ok (tt, s') ->
    stdin_loop s' = Some buf /\ ctx_done s' = false /\ stdin_ok buf s' = true.
Proof.
  induction chunks as [|c chunks IH]; intros s s' Hl Hc Hr Hok Hcap Hch Hrun.
  - simpl in Hrun. by injection Hrun as <-.
  - apply Forall_cons in Hch as [Hc0 Hch].
    destruct (act_StdinRead_buffers env buf c s Hl Hc Hr Hok Hc0 Hcap)
      as (s1 & Ha & _ & _ & Hok1 & Hq & Hl1 & Hc1 & _).
    cbn [map acts] in Hrun. unfold bindM at 1 in Hrun. rewrite Ha in Hrun.
    apply (IH s1 s'); try done.
    + by rewrite (q_restarting _ _ Hq).
    + by rewrite (q_maxSize _ _ Hq).
Qed.

Lemma restartPHP_replays_then_serves buf chunks s :
  stdin_loop s = Some buf ->
  ctx_done s = false ->
  stdin_ok buf s = true ->
  messages (buffer (proxy s)) = [] ->
  1 <= maxSize (buffer (proxy s)) ->
  pending s = [map (fun c => StdinRead c None) chunks] ->
  Forall (fun c => (0 < Nat.min (s_len buf) (length c))%nat) chunks ->
  (forall t h d b, start_result env t h d b = None) ->
  (forall t h p, write_result env t h p = None) ->
  exists s',
    restartPHP env s = Ok (None, s')
    /\ stdin_writes (drop (length (trace s)) (trace s'))
       = map (fun c => (next_handle s, c, None))
             (lastn (Z.to_nat (maxSize (buffer (proxy s))))
                    (map (take (s_len buf)) chunks))
    /\ restarting (proxy s') = false
    /\ process (proxy s') = next_handle s
    /\ stdin_loop s' = Some buf /\ ctx_done s' = false
    /\ validb (store s') buf = true
    /\ exists evs, trace s' = trace s ++ evs.
Proof.
  intros Hl Hc Hok Hempty Hcap Hp Hch Hstart Hwrite.
  enough (wp False (restartPHP env) s (fun r s' =>
    r = None
    /\ stdin_writes (drop (length (trace s)) (trace s'))
       = map (fun c => (next_handle s, c, None))
             (lastn (Z.to_nat (maxSize (buffer (proxy s))))
                    (map (take (s_len buf)) chunks))
    /\ restarting (proxy s') = false
    /\ process (proxy s') = next_handle s
    /\ stdin_loop s' = Some buf /\ ctx_done s' = false
    /\ validb (store s') buf = true
    /\ exists evs, trace s' = trace s ++ evs)) as Hwp.
  { unfold wp in Hwp. destruct (restartPHP env s) as [[r s']|p]; [|done].
    destruct Hwp as (-> & H). by exists s'. }
  unfold restartPHP, defer, stopPHP, startPHP, Stop, Start, NewPHPProcess, buffer_Len.
  wp_go. unfold logf at 1. wp_go.
  set (t0 := set_trace _ _).
  destruct (acts_buffered env buf chunks (set_pending [] t0))
    as (s1 & Hacts & Hcont & Ht & Hq & Hp1); try done.
  { unfold Len. simpl. rewrite Hempty. simpl. lia. }
  destruct (acts_buffered_alive buf chunks (set_pending [] t0) s1)
    as (Hl1 & Hc1 & Hok1); try done.
  apply andb_prop in Hok1 as [Hv1 _].
  eapply wp_yield_batch; [exact Hp | exact Hacts |].
  simpl in Hcont, Ht, Hp1.
  unfold contents at 2 in Hcont. rewrite Hempty in Hcont. simpl in Hcont.
  pose proof (q_process _ _ Hq) as HP. pose proof (q_next _ _ Hq) as HN.
  pose proof (q_restarting _ _ Hq) as HR. pose proof (q_maxSize _ _ Hq) as HM.
  simpl in HP, HN, HR, HM.
  wp_go. set (rstop := stop_result env _ _). clearbody rstop.
  apply wp_stop_log. wp_go.
  apply wp_yield_nil; [done|]. wp_go.
  apply wp_yield_nil; [done|]. unfold logf at 1. wp_go.
  rewrite Hstart. wp_go.
  apply wp_yield_nil; [done|]. wp_go. simpl.
  destruct (0 <? Len (buffer (proxy s1))) eqn:EL.
  - unfold logf at 1. wp_go. apply wp_yield_nil; [done|]. wp_go.
    apply wp_Replay_ok; [done|]. wp_go. apply wp_yield_nil; [done|]. wp_go.
    simpl. split_and!; try done.
    + rewrite Ht, HN, Hcont. rewrite <- !app_assoc, drop_app_length.
      rewrite !stdin_writes_app. simpl.
      rewrite stdin_writes_replay.
      destruct rstop; simpl; by rewrite ?app_nil_r.
    + rewrite Ht. rewrite <- !app_assoc. by eexists.
  - wp_go. apply wp_yield_nil; [done|]. wp_go. simpl.
    assert (Hnil : contents (buffer (proxy s1)) (store s1) = []).
    { unfold contents, Len in *. apply Z.ltb_ge in EL.
      destruct (messages (buffer (proxy s1))); [done|simpl in EL; lia]. }
    split_and!; try done.
    + rewrite Ht, <- Hcont, Hnil. rewrite <- !app_assoc, drop_app_length.
      rewrite !stdin_writes_app. destruct rstop; simpl; done.
    + rewrite Ht. rewrite <- !app_assoc. by eexists.
Qed.

(** X12: the order of the input survives a restart for the chunks
    that arrive at the beginning of the cycle, when the flag has been
    set and the old worker is not stopped yet: they are replayed to
    the new worker in the order of their arrival, and a chunk that is
    read after the cycle has returned is written to the same worker
    after them; none of all these is written to the old worker. *)
Theorem restart_keeps_arrival_order
    (buf : bytes) (chunks : list (list byte)) (later : list byte) (s : State) :
  stdin_loop s = Some buf ->
  ctx_done s = false ->
  stdin_ok buf s = true ->
  messages (buffer (proxy s)) = [] ->
  1 <= maxSize (buffer (proxy s)) ->
  pending s = [map (fun c => StdinRead c None) chunks] ->
  Forall (fun c => (0 < Nat.min (s_len buf) (length c))%nat) chunks ->
  (0 < Nat.min (s_len buf) (length later))%nat ->
  (forall t h d b, start_result env t h d b = None) ->
  (forall t h p, write_result env t h p = None) ->
  exists s1 s2,
    restartPHP env s = Ok (None, s1)
    /\ act env (StdinRead later None) s1 = Ok (tt, s2)
    /\ stdin_writes (drop (length (trace s)) (trace s2))
       = map (fun c => (next_handle s, c, None))
             (lastn (Z.to_nat (maxSize (buffer (proxy s))))
                    (map (take (s_len buf)) chunks)
              ++ [take (s_len buf) later]).
Proof.
  intros Hl Hc Hok Hempty Hcap Hp Hch Hlater Hstart Hwrite.
  destruct (restartPHP_replays_then_serves buf chunks s)
    as (s1 & Hrun & Hw & Hr & HP & Hl1 & Hc1 & Hv1 & evs & Hevs); try done.
  exists s1. eexists. split; [exact Hrun|].
  split; [by apply act_StdinRead_forwards|].
  simpl. rewrite Hevs in *. rewrite drop_app_length in Hw.
  rewrite <- app_assoc, drop_app_length, stdin_writes_app, Hw, map_app. simpl.
  by rewrite HP.
Qed.

Lemma proxyStdin_body_panics buf data rerr s :
  restarting (proxy s) = true ->
  (0 < Nat.min (s_len buf) (length data))%nat ->
  maxSize (buffer (proxy s)) <= 0 ->
  messages (buffer (proxy s)) = [] ->
  proxyStdin_body env buf data rerr s = Panic (SliceBoundsOutOfRange 1 0).
Proof.
  intros Hr Hn Hcap Hempty.
  set (h1 := (poke buf data (store s)).2).
  unfold proxyStdin_body, Read_into. unfold bindM at 1.
  change (poke buf data (store s)) with (Nat.min (s_len buf) (length data), h1).
  cbv iota beta. unfold bindM at 1.
  replace (0 <? Nat.min (s_len buf) (length data))%nat with true
    by (symmetry; by apply Nat.ltb_lt).
  rewrite slice_to_le by lia.
  unfold bindM at 1. simpl lift. cbv iota beta.
  unfold bindM at 1. unfold get at 1. cbv iota beta.
  change (restarting (proxy (set_store h1 s))) with (restarting (proxy s)).
  rewrite Hr. unfold bindM at 1, buffer_Add.
  change (buffer (proxy (set_store h1 s))) with (buffer (proxy s)).
  unfold Add. rewrite Hempty.
  replace (Z.of_nat (length []) >=? maxSize (buffer (proxy s))) with true
    by (symmetry; apply Z.geb_le; simpl; lia).
  reflexivity.
Qed.

(** X13: with a capacity below 1 the first chunk that is read while a
    restart is in progress panics in [Add]; the panic is not
    recovered, so the step of the main goroutine after which that
    read is scheduled ends in it. *)
Theorem proxyStdin_panics_without_capacity
    (buf : bytes) (data : list byte) (rerr : option error) (s : State) :
  restarting (proxy s) = true ->
  (0 < Nat.min (s_len buf) (length data))%nat ->
  maxSize (buffer (proxy s)) <= 0 ->
  messages (buffer (proxy s)) = [] ->
  proxyStdin_body env buf data rerr s = Panic (SliceBoundsOutOfRange 1 0)
  /\ (stdin_loop s = Some buf -> ctx_done s = false ->
      forall batch rest,
        pending s = (StdinRead data rerr :: batch) :: rest ->
        yield env s = Panic (SliceBoundsOutOfRange 1 0)).
Proof.
  intros Hr Hn Hcap Hempty.
  split; [by apply proxyStdin_body_panics|].
  intros Hl Hc batch rest Hp. unfold yield. unfold bindM at 1, get at 1. rewrite Hp.
  unfold bindM at 1, modify at 1. cbn [acts]. unfold bindM at 1.
  unfold act. unfold bindM at 1, get at 1. cbn [stdin_loop set_pending]. rewrite Hl.
  unfold bindM at 1, get at 1. cbn [ctx_done set_pending]. rewrite Hc.
  unfold bindM at 1.
  by rewrite (proxyStdin_body_panics buf data rerr (set_pending rest s)).
Qed.

End Across.

Lemma restart_keeps_arrival_order_witness :
  exists s1 s2,
    restartPHP env_ok (serving [[StdinRead ["x"%byte] None; StdinRead ["y"%byte] None]])
    = Ok (None, s1)
    /\ act env_ok (StdinRead ["z"%byte] None) s1 = Ok (tt, s2)
    /\ stdin_writes (drop 3 (trace s2))
       = [(1%nat, ["x"%byte], None); (1%nat, ["y"%byte], None); (1%nat, ["z"%byte], None)].
Proof.
  apply (restart_keeps_arrival_order env_ok scratch [["x"%byte]; ["y"%byte]] ["z"%byte]
           (serving [[StdinRead ["x"%byte] None; StdinRead ["y"%byte] None]]));
    try reflexivity; try (simpl; lia).
  repeat constructor; simpl; lia.
Defined.

Lemma proxyStdin_panics_without_capacity_witness :
  proxyStdin_body env_ok scratch ["x"%byte] None
    (set_proxy (set_buffer {| messages := []; maxSize := 0 |}) (serving_restart []))
  = Panic (SliceBoundsOutOfRange 1 0).
Proof.
  apply (proxyStdin_panics_without_capacity env_ok scratch ["x"%byte] None
           (set_proxy (set_buffer {| messages := []; maxSize := 0 |}) (serving_restart [])));
    try reflexivity; simpl; lia.
Defined.

(** ** Output forwarding *)

Section Stdout.

Context {W World : Type} `{Writer W World} (stdout : W).

Lemma proxyStdout_body_nothing buf data rerr (o : Out World) :
  validb (out_store o) buf = true ->
  Nat.min (s_len buf) (length data) = 0%nat ->
  proxyStdout_body stdout buf data rerr o
  = Ok (reads_on rerr,
        mkOut (out_store o) (out_world o)
              (out_log o ++ read_error_logged [StdoutRead data rerr])).
Proof.
  intros Hv Hn. unfold proxyStdout_body. rewrite poke_nothing by done.
  destruct o as [h w l]. destruct rerr as [[| |]|]; simpl; by rewrite ?app_nil_r.
Qed.

Lemma proxyStdout_body_writes buf data rerr (o : Out World) :
  validb (out_store o) buf = true ->
  (0 < Nat.min (s_len buf) (length data))%nat ->
  proxyStdout_body stdout buf data rerr o
  = match Write stdout (take (s_len buf) data) (out_world o) with
    | (w, Some err) =>
        Ok (false, mkOut (poke buf data (out_store o)).2 w
                         (out_log o ++ [LogErrorWritingStdout err]))
    | (w, None) =>
        Ok (reads_on rerr,
            mkOut (poke buf data (out_store o)).2 w
                  (out_log o ++ read_error_logged [StdoutRead data rerr]))
    end.
Proof.
  intros Hv Hn. unfold proxyStdout_body.
  set (h1 := (poke buf data (out_store o)).2).
  change (poke buf data (out_store o)) with (Nat.min (s_len buf) (length data), h1).
  cbv iota beta.
  replace (0 <? Nat.min (s_len buf) (length data))%nat with true
    by (symmetry; by apply Nat.ltb_lt).
  rewrite slice_to_le by lia. unfold bind at 2.
  unfold h1. rewrite read_poke_eq by done.
  destruct (Write stdout (take (s_len buf) data) (out_world o)) as [w [err|]]; simpl; [done|].
  destruct rerr as [[| |]|]; simpl; by rewrite ?app_nil_r.
Qed.

Lemma proxyStdout_loop_passes buf (turns : list stdout_turn) :
  (forall p t, (Write stdout p t).2 = None) ->
  forall o : Out World,
    validb (out_store o) buf = true ->
    exists h,
      proxyStdout_loop stdout buf turns o
      = Ok (returns turns,
            mkOut h (feed stdout (passed_on (s_len buf) turns) (out_world o))
                  (out_log o ++ read_error_logged turns))
      /\ validb h buf = true
      /\ length h = length (out_store o).
Proof.
  intros Hw. induction turns as [|t turns IH]; intros o Hv.
  - exists (out_store o). destruct o. simpl. by rewrite app_nil_r.
  - destruct t as [|data rerr].
    + exists (out_store o). destruct o. simpl. by rewrite app_nil_r.
    + cbn [proxyStdout_loop].
      destruct (Nat.min (s_len buf) (length data)) as [|n] eqn:En.
      * rewrite proxyStdout_body_nothing by done. cbn [bind].
        cbn [passed_on returns]. rewrite En. cbn [Nat.ltb Nat.leb app].
        destruct rerr as [e|]; cbn [reads_on].
        -- exists (out_store o). by destruct e.
        -- destruct (IH (mkOut (out_store o) (out_world o)
                               (out_log o ++ read_error_logged [StdoutRead data None])))
             as (h & Hrun & Hv' & Hlen); [done|].
           exists h. rewrite Hrun. simpl in *. by rewrite ?app_nil_r in *.
      * rewrite proxyStdout_body_writes by (try done; lia).
        pose proof (Hw (take (s_len buf) data) (out_world o)) as Hw1.
        destruct (Write stdout (take (s_len buf) data) (out_world o)) as [w [err|]] eqn:EW;
          [done|].
        cbn [bind passed_on returns]. rewrite En.
        replace (0 <? S n)%nat with true by done.
        assert (Hfeed : forall rest, feed stdout ([take (s_len buf) data] ++ rest) (out_world o)
                                     = feed stdout rest w).
        { intros rest. unfold feed. simpl. by rewrite EW. }
        destruct rerr as [e|]; cbn [reads_on].
        -- exists (poke buf data (out_store o)).2. rewrite Hfeed.
           split_and!; [by destruct e| by apply validb_poke | by rewrite poke_length].
        -- destruct (IH (mkOut (poke buf data (out_store o)).2 w
                               (out_log o ++ read_error_logged [StdoutRead data None])))
             as (h & Hrun & Hv' & Hlen); [by apply validb_poke|].
           exists h. rewrite Hrun, Hfeed. cbn [out_store out_world out_log] in *.
           rewrite poke_length in Hlen. by rewrite ?app_nil_r in *.
Qed.

(** X14: as long as no write to the standard output fails,
    [proxyStdout] passes on what it reads from the worker, byte for
    byte and in order, one write for each read that delivers bytes
    (the bytes that come with a read error included), and stops at the
    first read error, which it logs unless it is [io.EOF], or when it
    finds the context cancelled. It does not panic. *)
Theorem proxyStdout_passes_output_on (turns : list stdout_turn) (o : Out World) :
  (forall p t, (Write stdout p t).2 = None) ->
  exists h,
    proxyStdout stdout turns o
    = Ok (returns turns,
          mkOut h (feed stdout (passed_on 4096 turns) (out_world o))
                (out_log o ++ read_error_logged turns))
    /\ length h = S (length (out_store o)).
Proof.
  intros Hw. unfold proxyStdout, make_bytes.
  destruct (proxyStdout_loop_passes (mkBytes (length (out_store o)) 0 4096 0) turns Hw
              (mkOut (out_store o ++ [replicate 4096 x00]) (out_world o) (out_log o)))
    as (h & Hrun & _ & Hlen).
  { unfold validb. cbn [out_store s_arr s_off s_len].
    rewrite lookup_app_r by done. rewrite Nat.sub_diag. cbn [lookup list_lookup].
    by rewrite length_replicate. }
  exists h. split; [exact Hrun|]. rewrite Hlen. cbn [out_store].
  rewrite length_app. simpl. lia.
Qed.


End Stdout.

Lemma proxyStdout_passes_output_on_witness :
  exists h,
    proxyStdout TheRecorder
      [StdoutRead ["o"%byte; "k"%byte] None; StdoutRead [] None;
       StdoutRead ["!"%byte] (Some (Err "file already closed")); StdoutRead ["?"%byte] None]
      (mkOut [] [] [])
    = Ok (true, mkOut h ["o"%byte; "k"%byte; "!"%byte]
                      [LogErrorReadingStdout (Err "file already closed")])
    /\ length h = 1%nat.
Proof.
  destruct (proxyStdout_passes_output_on TheRecorder
              [StdoutRead ["o"%byte; "k"%byte] None; StdoutRead [] None;
               StdoutRead ["!"%byte] (Some (Err "file already closed"));
               StdoutRead ["?"%byte] None]
              (mkOut [] [] [])) as (h & H1 & H2); [reflexivity|].
  exists h. split; [exact H1|exact H2].
Defined.


(** ** The whole program *)

Lemma In_CtxDone wakeups : In CtxDone wakeups <-> existsb is_done wakeups = true.
Proof.
  rewrite existsb_exists. split.
  - intros Hin. by exists CtxDone.
  - intros ([] & Hin & Hd); done.
Qed.

Section Program.

Context (env : Env).

Lemma Run_outcome wakeups s :
  match Run env wakeups s with
  | Ok (res, s') =>
      res = match first_start env s with
            | Some e => Some (Some (Wrap "failed to start PHP process" e))
            | None => if existsb is_done wakeups then Some None else None
            end
      /\ (is_Some (first_start env s) ->
          trace s' = trace s
                     ++ [mkObs (EvLog LogStartingPHP) (restarting (proxy s));
                         mkObs (EvStart (process (proxy s)) (workingDir (proxy s))
                                        (phpBinary (proxy s)) (first_start env s))
                               (restarting (proxy s))]
          /\ stdin_loop s' = stdin_loop s /\ monitor_loop s' = monitor_loop s)
  | Panic _ =>
      first_start env s = None
      /\ (maxSize (buffer (proxy s)) <= 0 \/ restartInterval (proxy s) <= 0)
  end.
Proof.
  unfold Run, startPHP, Start. unfold bindM at 1. unfold bindM at 1.
  unfold logf at 1, emit at 1. unfold bindM at 1, get at 1. unfold bindM at 1, get at 1.
  simpl trace. simpl proxy. fold (first_start env s).
  destruct (first_start env s) as [e|] eqn:Ef.
  - munfold. split; [done|]. intros _. by rewrite <- app_assoc.
  - unfold bindM at 1, emit at 1. unfold ret at 1. cbv iota beta.
    set (s0 := set_trace _ _).
    unfold bindM at 1, get at 1. unfold bindM at 1, lift at 1, NewTicker.
    change (restartInterval (proxy s0)) with (restartInterval (proxy s)).
    destruct (restartInterval (proxy s) <=? 0) eqn:Ed.
    { apply Z.leb_le in Ed. split; [done|by right]. }
    unfold defer, proxyStdio, make_buf. munfold.
    set (s1 := set_trace _ _).
    pose proof (main_loop_spec env wakeups s1) as H.
    destruct (main_loop env wakeups s1) as [[res s2]|p]; [|split; [done|by left]].
    destruct H as (H12 & Hd & Hn). split; [|by intros [? ?]].
    destruct (existsb is_done wakeups) eqn:E.
    + apply In_CtxDone in E. by destruct (Hd E) as [-> _].
    + apply Hn. rewrite In_CtxDone. congruence.
Qed.

(** X16: how the program ends. When the configuration cannot be
    loaded, [main] logs that and exits with status 1 without building
    a proxy. With a configuration whose buffer size is at least 1 and
    with which [NewProxy] builds the proxy, and whose restart interval
    is positive, it does not panic; it exits with status 1 exactly
    when the first worker cannot be started, and then no goroutine was
    started; it logs "Shutdown complete" and returns exactly when the
    first worker started and the main loop was woken by the cancelled
    context; a failure of any later restart does not end it. *)
Theorem main_ends (loaded : Config + error) (schedule : list (list action))
    (wakeups : list select_case) :
  (forall cfg, loaded = inl cfg ->
     1 <= BufferSize cfg
     /\ 0 < RestartInterval cfg
     /\ NewProxy (WorkingDir cfg) (PHPBinary cfg) (RestartInterval cfg) (BufferSize cfg)
                 schedule
        = Ok (built cfg schedule)) ->
  exists life,
    main env loaded schedule wakeups = Ok life
    /\ (forall err, loaded = inr err ->
        life = mkLife [LogConfigurationError err] None Fatal)
    /\ (forall cfg, loaded = inl cfg ->
        exists s',
          final life = Some s'
          /\ match first_start env (built cfg schedule) with
             | Some e =>
                 ended life = Fatal
                 /\ last (main_log life)
                    = Some (LogProxyError (Wrap "failed to start PHP process" e))
                 /\ stdin_loop s' = None /\ monitor_loop s' = false
                 /\ count_starts (trace s') = 1%nat
             | None =>
                 if existsb is_done wakeups
                 then ended life = Returned
                      /\ last (main_log life) = Some LogShutdownComplete
                 else ended life = StillRunning
             end).
Proof.
  intros Hcfg. destruct loaded as [cfg|err].
  - destruct (Hcfg cfg eq_refl) as (Hsize & Hint & Hnew). unfold main. rewrite Hnew.
    cbn [bind].
    pose proof (Run_outcome wakeups (built cfg schedule)) as H.
    destruct (Run env wakeups (built cfg schedule)) as [[res s']|p].
    2:{ destruct H as [_ H]. simpl in H. lia. }
    destruct H as [-> Hf]. cbn [bind].
    destruct (first_start env (built cfg schedule)) as [e|] eqn:Ef.
    + eexists. split; [reflexivity|]. split; [done|].
      intros cfg' [= <-]. exists s'. split; [done|]. rewrite Ef.
      destruct (Hf ltac:(done)) as (Ht & Hl & Hm).
      split_and!; try done. by rewrite Ht.
    + destruct (existsb is_done wakeups) eqn:Ed.
      * eexists. split; [reflexivity|]. split; [done|].
        intros cfg' [= <-]. exists s'. by rewrite Ef.
      * eexists. split; [reflexivity|]. split; [done|].
        intros cfg' [= <-]. exists s'. by rewrite Ef.
  - eexists. split; [reflexivity|]. split; [by intros ? [= <-]|done].
Qed.

End Program.

Lemma main_ends_witness :
  exists life,
    main env_ok (inl example_config) [[]; [StdinRead ["x"%byte] None]] [TickerC; CtxDone]
    = Ok life
    /\ ended life = Returned
    /\ last (main_log life) = Some LogShutdownComplete.
Proof.
  destruct (main_ends env_ok (inl example_config) [[]; [StdinRead ["x"%byte] None]]
              [TickerC; CtxDone]) as (life & H1 & _ & H3).
  { intros cfg [= <-]. split; [simpl; lia|]. split; [simpl; lia|reflexivity]. }
  destruct (H3 example_config eq_refl) as (s' & _ & H4).
  exists life. split; [exact H1|exact H4].
Defined.

(** ** A cycle after a failed cycle *)

Lemma sink_what h (t : list obs) :
  sink h t
  = omap (fun e => match e with
                   | EvStdinWrite h' data None => if (h' =? h)%nat then Some data else None
                   | _ => None
                   end) (map what t).
Proof.
  unfold sink. induction t as [|o t IH]; [done|].
  change (map what (o :: t)) with (what o :: map what t).
  rewrite !(omap_app _ [_] _) || (change (o :: t) with ([o] ++ t);
                                 change (what o :: map what t) with ([what o] ++ map what t);
                                 rewrite !omap_app).
  by rewrite IH.
Qed.

Lemma sink_replayed h (msgs : list (list byte)) :
  omap (fun e => match e with
                 | EvStdinWrite h' data None => if (h' =? h)%nat then Some data else None
                 | _ => None
                 end) (map (fun d => EvStdinWrite h d None) msgs)
  = msgs.
Proof.
  induction msgs as [|m msgs IH]; [done|].
  change (map (fun d => EvStdinWrite h d None) (m :: msgs))
    with ([EvStdinWrite h m None] ++ map (fun d => EvStdinWrite h d None) msgs).
  rewrite omap_app, IH. simpl. by rewrite Nat.eqb_refl.
Qed.

Section Retry.

Context (env : Env).

Lemma restartPHP_alone_frame s :
  pending s = [] ->
  wp False (restartPHP env) s (fun _ s' =>
    pending s' = [] /\ store s' = store s /\ next_handle s' = S (next_handle s)).
Proof.
  intros Hp.
  unfold restartPHP, defer, stopPHP, startPHP, Stop, Start, NewPHPProcess, buffer_Len.
  wp_go. unfold logf at 1. wp_go.
  apply wp_yield_nil; [done|]. wp_go.
  set (rstop := stop_result env _ _). clearbody rstop.
  apply wp_stop_log. wp_go.
  apply wp_yield_nil; [done|]. wp_go.
  apply wp_yield_nil; [done|]. unfold logf at 1. wp_go.
  set (rstart := start_result env _ _ _ _). clearbody rstart.
  destruct rstart as [err|].
  - wp_go. apply wp_yield_nil; [done|]. by wp_go.
  - wp_go. apply wp_yield_nil; [done|]. wp_go. simpl.
    destruct (0 <? Len (buffer (proxy s))) eqn:EL.
    + unfold logf at 1. wp_go. apply wp_yield_nil; [done|]. wp_go.
      apply wp_Replay. intros e ws b Hws Hmb Hnone Hsome.
      destruct e as [err|]; wp_go; (apply wp_yield_nil; [done|]); by wp_go.
    + wp_go. apply wp_yield_nil; [done|]. by wp_go.
Qed.

(** X18: what a failed restart cycle leaves in the buffer is not
    lost. When a cycle returns an error (the new worker did not start,
    or a replay write failed), the buffer holds what it held before;
    the next cycle that succeeds writes all of it, in order, to the
    input pipe of its own new worker, and empties the buffer. (No
    other goroutine runs in between.) *)
Theorem next_cycle_replays_what_a_failed_one_left
    (s s1 s2 : State) (err : error) :
  pending s = [] ->
  restartPHP env s = Ok (Some err, s1) ->
  restartPHP env s1 = Ok (None, s2) ->
  contents (buffer (proxy s1)) (store s1) = contents (buffer (proxy s)) (store s)
  /\ process (proxy s2) = S (next_handle s)
  /\ sink (S (next_handle s)) (drop (length (trace s1)) (trace s2))
     = contents (buffer (proxy s)) (store s)
  /\ contents (buffer (proxy s2)) (store s2) = [].
Proof.
  intros Hp H1 H2.
  pose proof (restartPHP_alone_frame s Hp) as Hf. unfold wp in Hf. rewrite H1 in Hf.
  destruct Hf as (Hp1 & Hs1 & Hn1).
  destruct (restartPHP_alone env s Hp)
    as (r & s1' & rstop & rstart & e & ws & Hr & _ & _ & _ & Hc).
  rewrite H1 in Hr. injection Hr as <- <-.
  destruct (restartPHP_alone env s1 Hp1)
    as (r & s2' & rstop2 & rstart2 & e2 & ws2 & Hr & Hws & Hev & Hres & Hc2).
  rewrite H2 in Hr. injection Hr as <- <-.
  pose proof (restartPHP_spec env s1) as Hsp. unfold wp in Hsp. rewrite H2 in Hsp.
  destruct Hsp as (_ & HP & _).
  rewrite Hn1 in *. split; [done|]. split; [done|].
  destruct rstart2 as [e'|]; [done|].
  rewrite sink_what, Hev.
  destruct (0 <? Len (buffer (proxy s1))) eqn:EL.
  - destruct e2 as [e'|]; [done|]. simpl in Hws. subst ws2.
    split; [|done]. rewrite <- Hc.
    change (EvLog (LogReplaying (Len (buffer (proxy s1))))
            :: map (fun d => EvStdinWrite (S (next_handle s)) d None)
                   (contents (buffer (proxy s1)) (store s1)))
      with ([EvLog (LogReplaying (Len (buffer (proxy s1))))]
            ++ map (fun d => EvStdinWrite (S (next_handle s)) d None)
                   (contents (buffer (proxy s1)) (store s1))).
    rewrite !omap_app, sink_replayed. by destruct rstop2.
  - assert (Hnil : contents (buffer (proxy s1)) (store s1) = []).
    { unfold contents, Len in *. apply Z.ltb_ge in EL.
      destruct (messages (buffer (proxy s1))); [done|simpl in EL; lia]. }
    rewrite <- Hc, Hnil in *. split; [|done].
    rewrite !omap_app. destruct rstop2; by simpl.
Qed.

End Retry.

Lemma next_cycle_replays_what_a_failed_one_left_witness :
  exists s1 s2,
    restartPHP env_start_fails_once held
    = Ok (Some (Wrap "failed to start new PHP process" (Err "fork failed")), s1)
    /\ restartPHP env_start_fails_once s1 = Ok (None, s2)
    /\ sink 2 (drop (length (trace s1)) (trace s2)) = [["m"%byte]].
Proof.
  eexists _, _. split; [vm_compute; reflexivity|]. split; [vm_compute; reflexivity|].
  refine (proj1 (proj2 (proj2 (next_cycle_replays_what_a_failed_one_left
                                 env_start_fails_once held _ _ _ eq_refl _ _))));
    vm_compute; reflexivity.
Defined.

(** ** A chunk that arrives late in a cycle *)

Section Late.

Context (env : Env).

Lemma wp_yield_cons (X : Prop) batch rest s s' (Q : unit -> State -> Prop) :
  pending s = batch :: rest ->
  acts env batch (set_pending rest s) = Ok (tt, s') ->
  Q tt s' ->
  wp X (yield env) s Q.
Proof.
  intros Hp Ha HQ. unfold wp, yield. unfold bindM at 1, get at 1. rewrite Hp.
  unfold bindM at 1, modify at 1. by rewrite Ha.
Qed.

Lemma wp_yield_idle (X : Prop) rest s (Q : unit -> State -> Prop) :
  pending s = [] :: rest ->
  Q tt (set_pending rest s) ->
  wp X (yield env) s Q.
Proof. intros Hp HQ. by eapply wp_yield_cons. Qed.

(** X19: a chunk that is read late in a restart cycle, after the
    cycle has looked at the length of the buffer but before it resets
    the flag, is put into the buffer and stays there: the cycle
    returns without an error and without having written it to any
    worker. A chunk that is read after the cycle is written to the new
    worker at once, so it overtakes the one in the buffer, which waits
    for the replay of the next cycle. *)
Theorem late_chunk_waits_for_the_next_cycle
    (buf : bytes) (c later : list byte) (s : State) :
  stdin_loop s = Some buf ->
  ctx_done s = false ->
  stdin_ok buf s = true ->
  messages (buffer (proxy s)) = [] ->
  1 <= maxSize (buffer (proxy s)) ->
  pending s = [[]; []; []; []; [StdinRead c None]] ->
  (0 < Nat.min (s_len buf) (length c))%nat ->
  (0 < Nat.min (s_len buf) (length later))%nat ->
  (forall t h d b, start_result env t h d b = None) ->
  exists s1 s2,
    restartPHP env s = Ok (None, s1)
    /\ stdin_writes (drop (length (trace s)) (trace s1)) = []
    /\ contents (buffer (proxy s1)) (store s1) = [take (s_len buf) c]
    /\ restarting (proxy s1) = false
    /\ act env (StdinRead later None) s1 = Ok (tt, s2)
    /\ (exists w, stdin_writes (drop (length (trace s)) (trace s2))
                  = [(next_handle s, take (s_len buf) later, w)])
    /\ buffer (proxy s2) = buffer (proxy s1).
Proof.
  intros Hl Hc Hok Hempty Hcap Hp Hn Hlater Hstart.
  enough (wp False (restartPHP env) s (fun r s1 =>
    r = None
    /\ stdin_writes (drop (length (trace s)) (trace s1)) = []
    /\ contents (buffer (proxy s1)) (store s1) = [take (s_len buf) c]
    /\ restarting (proxy s1) = false
    /\ process (proxy s1) = next_handle s
    /\ stdin_loop s1 = Some buf /\ ctx_done s1 = false
    /\ validb (store s1) buf = true
    /\ exists evs, trace s1 = trace s ++ evs)) as Hwp.
  { unfold wp in Hwp. destruct (restartPHP env s) as [[r s1]|p]; [|done].
    destruct Hwp as (-> & Hw & Hcont & Hr & HP & Hl1 & Hc1 & Hv1 & evs & Hevs).
    pose proof (proxyStdin_body_forwards env buf later None s1 Hr Hv1 Hlater) as Hb.
    cbv zeta in Hb.
    destruct (write_result env (trace s1) (process (proxy s1))
                           (take (s_len buf) later)) as [e|] eqn:Ew.
    all: exists s1; eexists; (split; [done|]); (split; [done|]);
      (split; [done|]); (split; [done|]);
      (split; [unfold act; unfold bindM at 1, get at 1; rewrite Hl1;
               unfold bindM at 1, get at 1; rewrite Hc1; unfold bindM at 1;
               rewrite Hb; reflexivity|]);
      (split; [|done]); eexists; simpl;
      rewrite Hevs in Hw |- *; rewrite drop_app_length in Hw;
      rewrite <- app_assoc, drop_app_length, stdin_writes_app, Hw; simpl;
      by rewrite HP. }
  unfold restartPHP, defer, stopPHP, startPHP, Stop, Start, NewPHPProcess, buffer_Len.
  wp_go. unfold logf at 1. wp_go.
  eapply wp_yield_idle; [exact Hp|]. wp_go.
  set (rstop := stop_result env _ _). clearbody rstop.
  apply wp_stop_log. wp_go.
  eapply wp_yield_idle; [reflexivity|]. wp_go.
  eapply wp_yield_idle; [reflexivity|]. unfold logf at 1. wp_go.
  rewrite Hstart. wp_go.
  eapply wp_yield_idle; [reflexivity|]. wp_go.
  unfold Len at 1. cbn [buffer proxy set_pending set_trace set_proxy set_process
                        set_next_handle set_restarting].
  rewrite Hempty. cbn [length]. change (0 <? Z.of_nat 0) with false. cbv iota. wp_go.
  match goal with |- wp _ _ ?t _ => set (t0 := t) end.
  destruct (act_StdinRead_buffers env buf c (set_pending [] t0))
    as (s1 & Ha & Hcont & Ht & Hok1 & Hq & Hl1 & Hc1 & Hp1); try done.
  eapply wp_yield_cons; [reflexivity| |].
  { cbn [acts]. unfold bindM at 1. rewrite Ha. reflexivity. }
  wp_go.
  pose proof (q_process _ _ Hq) as HP. pose proof (q_restarting _ _ Hq) as HR.
  apply andb_prop in Hok1 as [Hv1 _].
  simpl in Hcont, Ht, HP. unfold Len, contents in Hcont. rewrite Hempty in Hcont.
  simpl in Hcont.
  split_and!; try done.
  - change (trace (set_proxy (set_restarting false) s1)) with (trace s1).
    rewrite Ht. unfold t0. cbn [trace set_pending set_trace set_proxy set_next_handle].
    rewrite <- !app_assoc, drop_app_length.
    rewrite !stdin_writes_app. by destruct rstop.
  - destruct (_ >=? _) in Hcont; exact Hcont.
  - change (trace (set_proxy (set_restarting false) s1)) with (trace s1).
    rewrite Ht. unfold t0. cbn [trace set_pending set_trace set_proxy set_next_handle].
    rewrite <- !app_assoc. by eexists.
Qed.

End Late.

Lemma late_chunk_waits_for_the_next_cycle_witness :
  exists s1 s2,
    restartPHP env_ok (serving [[]; []; []; []; [StdinRead ["x"%byte] None]]) = Ok (None, s1)
    /\ contents (buffer (proxy s1)) (store s1) = [["x"%byte]]
    /\ act env_ok (StdinRead ["y"%byte] None) s1 = Ok (tt, s2)
    /\ sink 1 (trace s2) = [["y"%byte]]
    /\ contents (buffer (proxy s2)) (store s2) = [["x"%byte]].
Proof.
  destruct (late_chunk_waits_for_the_next_cycle env_ok scratch ["x"%byte] ["y"%byte]
              (serving [[]; []; []; []; [StdinRead ["x"%byte] None]]))
    as (s1 & s2 & H1 & _ & H3 & _ & H5 & _ & _);
    try reflexivity; try (simpl; lia).
  exists s1, s2. split; [exact H1|]. split; [exact H3|]. split; [exact H5|].
  revert H5. vm_compute in H1. injection H1 as <-. vm_compute. intros [= <-]. done.
Defined.
